(** * Article-Summarizer-MCP: the analysis pipeline, its store and its routes

    A shallow embedding of [src/index.ts] and [src/db/schema.ts].

    - JavaScript strings are [string]; a character is one code unit.
    - The regular expressions of the source are values of a small regex
      syntax, run by a backtracking matcher with the priorities of the
      ECMAScript one (greedy: longest first, lazy: shortest first, leftmost
      start position wins).
    - The D1 database is a pair of tables (lists of rows, in insertion
      order) with their autoincrement counters; [insert] enforces the
      [unique()] constraint of the schema.
    - [fetch], [ai.run], the mail provider and the clock are oracles of an
      environment; every outbound call is logged in a trace.
    - A request body is a JSON object whose fields, where present, have the
      types the README documents; bodies with other types in them are not
      expressed.
    - [async] functions are computations in a state-and-exception monad. *)

From Stdlib Require Import Bool Arith Lia List String Ascii QArith.
From Stdlib Require Import DecimalString Permutation.
Import ListNotations.

Local Open Scope string_scope.
Local Open Scope nat_scope.

Set Implicit Arguments.

(** ** Strings as the source uses them *)

Module Str.

(** [\s] of ECMAScript on one-byte code units: tab, line feed, vertical
    tab, form feed, carriage return, space and no-break space. *)
Definition is_space (c : ascii) : bool :=
  let n := nat_of_ascii c in
  ((9 <=? n) && (n <=? 13)) || (n =? 32) || (n =? 160).

Definition any_char (_ : ascii) : bool := true.

Definition is_not (d : ascii) (c : ascii) : bool := negb (Ascii.eqb c d).

(** Canonicalisation of the [i] flag: ASCII letters to upper case. *)
Definition upcase (c : ascii) : ascii :=
  let n := nat_of_ascii c in
  if (97 <=? n) && (n <=? 122) then ascii_of_nat (n - 32) else c.

Definition char_eq (icase : bool) (a b : ascii) : bool :=
  if icase then Ascii.eqb (upcase a) (upcase b) else Ascii.eqb a b.

(** [strip_prefix icase p s]: what follows [p] when [s] starts with it. *)
Fixpoint strip_prefix (icase : bool) (p s : string) : option string :=
  match p with
  | EmptyString => Some s
  | String a p' =>
      match s with
      | EmptyString => None
      | String b s' => if char_eq icase a b then strip_prefix icase p' s' else None
      end
  end.

(** [s.substring(0, n)] *)
Fixpoint take (n : nat) (s : string) : string :=
  match n, s with
  | S n', String c s' => String c (take n' s')
  | _, _ => EmptyString
  end.

(** [s.includes(p)] *)
Fixpoint includes (p s : string) : bool :=
  match strip_prefix false p s with
  | Some _ => true
  | None => match s with
            | EmptyString => false
            | String _ s' => includes p s'
            end
  end.

Fixpoint rev_onto (s acc : string) : string :=
  match s with
  | EmptyString => acc
  | String c s' => rev_onto s' (String c acc)
  end.

Definition rev (s : string) : string := rev_onto s EmptyString.

Fixpoint trim_start (s : string) : string :=
  match s with
  | String c s' => if is_space c then trim_start s' else s
  | EmptyString => EmptyString
  end.

(** [s.trim()] *)
Definition trim (s : string) : string :=
  rev (trim_start (rev (trim_start s))).

(** [s.split(",")] *)
Fixpoint split_on (d : ascii) (s : string) : list string :=
  match s with
  | EmptyString => [EmptyString]
  | String c s' =>
      if Ascii.eqb c d then EmptyString :: split_on d s'
      else match split_on d s' with
           | w :: ws => String c w :: ws
           | [] => [String c EmptyString]
           end
  end.

(** Decimal rendering of a number inside a template literal. *)
Definition of_nat (n : nat) : string := NilZero.string_of_uint (Nat.to_uint n).

End Str.

(** ** Regular expressions *)

Module Regex.
Import Str.

(** The pieces the expressions of the source are made of. *)
Inductive atom : Type :=
| Lit (s : string)                          (* literal text *)
| Star (greedy : bool) (cls : ascii -> bool) (* [cls]* and [cls]*? *)
| Plus (cls : ascii -> bool)                (* [cls]+ *)
| Cap (a : atom)                            (* ( ... ), group 1 *)
| Ahead (lits : list string) (or_end : bool) (* (?=l1|l2|$) *)
| Eoi.                                      (* $ *)

Definition regex := list atom.

(** All ways [cls]* can split [s], shortest first. *)
Fixpoint splits (cls : ascii -> bool) (s : string) : list (string * string) :=
  (EmptyString, s) ::
  match s with
  | String c s' =>
      if cls c then map (fun p => (String c (fst p), snd p)) (splits cls s') else []
  | EmptyString => []
  end.

Definition is_empty (s : string) : bool :=
  match s with EmptyString => true | _ => false end.

(** The ways one atom can consume a prefix of [s], in the order the
    backtracking matcher tries them: (consumed, rest). *)
Fixpoint candidates (icase : bool) (a : atom) (s : string) : list (string * string) :=
  match a with
  | Lit p =>
      match strip_prefix icase p s with
      | Some rest => [(take (length p) s, rest)]
      | None => []
      end
  | Star true cls => List.rev (splits cls s)
  | Star false cls => splits cls s
  | Plus cls => List.rev (tl (splits cls s))
  | Cap a' => candidates icase a' s
  | Ahead lits or_end =>
      if existsb (fun p => match strip_prefix icase p s with Some _ => true | None => false end) lits
         || (or_end && is_empty s)
      then [(EmptyString, s)] else []
  | Eoi => if is_empty s then [(EmptyString, s)] else []
  end.

Definition is_cap (a : atom) : bool :=
  match a with Cap _ => true | _ => false end.

Fixpoint first_some {A B : Type} (f : A -> option B) (l : list A) : option B :=
  match l with
  | [] => None
  | x :: l' => match f x with
               | Some y => Some y
               | None => first_some f l'
               end
  end.

(** One successful match of a whole expression. *)
Record hit : Type := Hit { matched : string; group1 : option string; rest : string }.

(** Match [r] at the start of [s]: the first success in backtracking
    order. *)
Fixpoint exec (icase : bool) (r : regex) (s : string) : option hit :=
  match r with
  | [] => Some (Hit EmptyString None s)
  | a :: r' =>
      first_some
        (fun p =>
           match exec icase r' (snd p) with
           | Some h =>
               Some (Hit (fst p ++ matched h)
                         (if is_cap a then Some (fst p) else group1 h)
                         (rest h))
           | None => None
           end)
        (candidates icase a s)
  end.

(** [s.match(r)] without the [g] flag: the leftmost match, with the text
    before it. *)
Fixpoint search (icase : bool) (r : regex) (s : string) : option (string * hit) :=
  match exec icase r s with
  | Some h => Some (EmptyString, h)
  | None =>
      match s with
      | EmptyString => None
      | String c s' =>
          match search icase r s' with
          | Some (pre, h) => Some (String c pre, h)
          | None => None
          end
      end
  end.

(** [s.match(r)] with the [g] flag, of which the source reads entry 0
    only: the text of the leftmost match. *)
Definition match_g0 (icase : bool) (r : regex) (s : string) : option string :=
  match search icase r s with
  | Some (_, h) => Some (matched h)
  | None => None
  end.

(** [s.replace(r, by)] with the [g] flag. [skip] counts the characters of
    the current match still to be dropped. *)
Fixpoint replace_from (icase : bool) (r : regex) (by_ : string) (skip : nat) (s : string) : string :=
  match skip with
  | S k =>
      match s with
      | EmptyString => EmptyString
      | String _ s' => replace_from icase r by_ k s'
      end
  | O =>
      match exec icase r s with
      | Some h =>
          match s with
          | EmptyString => by_
          | String c s' =>
              match length (matched h) with
              | O => by_ ++ String c (replace_from icase r by_ 0 s')
              | S k => by_ ++ replace_from icase r by_ k s'
              end
          end
      | None =>
          match s with
          | EmptyString => EmptyString
          | String c s' => String c (replace_from icase r by_ 0 s')
          end
      end
  end.

Definition replace_all (icase : bool) (r : regex) (by_ : string) (s : string) : string :=
  replace_from icase r by_ 0 s.

(** [s.split(/\s+/)] *)
Fixpoint split_spaces (s : string) : list string :=
  match s with
  | EmptyString => [EmptyString]
  | String c s' =>
      if is_space c then
        match s' with
        | String c' _ => if is_space c' then split_spaces s' else EmptyString :: split_spaces s'
        | EmptyString => [EmptyString; EmptyString]
        end
      else match split_spaces s' with
           | w :: ws => String c w :: ws
           | [] => [String c EmptyString]
           end
  end.

End Regex.

(** ** Content extraction: [extractContent] *)

Module Extract.
Import Str Regex.

Definition dquote : string := String (ascii_of_nat 34) EmptyString.
Definition not_gt : ascii -> bool := is_not (ascii_of_nat 62).
Definition not_lt : ascii -> bool := is_not (ascii_of_nat 60).
Definition not_dquote : ascii -> bool := is_not (ascii_of_nat 34).

(** /<title[^>]*>([^<]+)<\/title>/i *)
Definition title_re : regex :=
  [Lit "<title"; Star true not_gt; Lit ">"; Cap (Plus not_lt); Lit "</title>"].

(** /<NAME[^>]*>[\s\S]*?<\/NAME>/gi, with or without the group around the
    lazy part. *)
Definition element_re (name : string) : regex :=
  [Lit ("<" ++ name); Star true not_gt; Lit ">"; Cap (Star false any_char);
   Lit ("</" ++ name ++ ">")].

(** /<div[^>]*class="[^"]*KW[^"]*"[^>]*>([\s\S]*?)<\/div>/gi *)
Definition div_class_re (kw : string) : regex :=
  [Lit "<div"; Star true not_gt; Lit ("class=" ++ dquote); Star true not_dquote;
   Lit kw; Star true not_dquote; Lit dquote; Star true not_gt; Lit ">";
   Cap (Star false any_char); Lit "</div>"].

Definition script_re : regex := element_re "script".
Definition style_re : regex := element_re "style".

Definition contentPatterns : list regex :=
  [ element_re "article";
    element_re "main";
    div_class_re "content";
    div_class_re "post";
    element_re "body" ].

(** The [for ... of contentPatterns] loop with its [break]: the text of
    the first pattern whose leftmost match is a non-empty string, and the
    empty string when the loop runs out. *)
Fixpoint first_region (patterns : list regex) (cleanHtml : string) : string :=
  match patterns with
  | [] => EmptyString
  | pattern :: patterns' =>
      match match_g0 true pattern cleanHtml with
      | Some m => if is_empty m then first_region patterns' cleanHtml else m
      | None => first_region patterns' cleanHtml
      end
  end.

Definition strip_scripts (html : string) : string :=
  replace_all true style_re EmptyString (replace_all true script_re EmptyString html).

(** The region the text is taken from: the loop, then [if (!content)]. *)
Definition region (patterns : list regex) (cleanHtml : string) : string :=
  let content := first_region patterns cleanHtml in
  if is_empty content then cleanHtml else content.

Definition clean_text (content : string) : string :=
  let content := replace_all false [Lit "<"; Plus not_gt; Lit ">"] " " content in
  let content := replace_all false [Plus is_space] " " content in
  let content := replace_all false [Lit "&nbsp;"] " " content in
  let content := replace_all false [Lit "&amp;"] "&" content in
  let content := replace_all false [Lit "&lt;"] "<" content in
  let content := replace_all false [Lit "&gt;"] ">" content in
  trim content.

Record Extracted : Type :=
  { ex_title : string; ex_content : string; ex_wordCount : nat }.

Definition extractContent (html : string) : Extracted :=
  let title :=
    match search true title_re html with
    | Some (_, h) => match group1 h with Some g => trim g | None => EmptyString end
    | None => EmptyString
    end in
  let cleanHtml := strip_scripts html in
  let content := clean_text (region contentPatterns cleanHtml) in
  let wordCount :=
    List.length (filter (fun word => 0 <? length word) (split_spaces content)) in
  {| ex_title := title; ex_content := content; ex_wordCount := wordCount |}.

End Extract.

(** ** The schema: [analyzed_urls] and [content_tags] *)

Inductive Status : Type := pending | completed | failed.

Definition Status_eqb (a b : Status) : bool :=
  match a, b with
  | pending, pending | completed, completed | failed, failed => true
  | _, _ => false
  end.

(** A row of [analyzed_urls]; a nullable column is an [option]. *)
Record UrlRow : Type :=
  { id : nat;
    url : string;
    title : option string;
    content : option string;
    summary : option string;
    wordCount : option nat;
    analysisDate : option string;
    status : Status;
    errorMessage : option string;
    contentType : option string;
    language : option string;
    createdAt : string;
    updatedAt : string }.

(** A row of [content_tags]. *)
Record TagRow : Type :=
  { tag_id : nat;
    urlId : nat;
    tag : string;
    confidence : option Q;
    tag_createdAt : string }.

Record Db : Type :=
  { urls : list UrlRow;
    tags : list TagRow;
    next_url_id : nat;      (* autoincrement counters *)
    next_tag_id : nat }.

Definition empty_db : Db :=
  {| urls := []; tags := []; next_url_id := 1; next_tag_id := 1 |}.

(** ** Values thrown, and what the outside world answers *)

(** A thrown value: an [Error] with its message, or anything else. *)
Inductive JsError : Type :=
| ErrorObj (message : string)
| NonError.

(** [error instanceof Error ? error.message : "Unknown error"] *)
Definition message_of (error : JsError) : string :=
  match error with
  | ErrorObj m => m
  | NonError => "Unknown error"
  end.

Inductive Outcome (A : Type) : Type :=
| Ok (a : A)
| Throw (e : JsError).
Arguments Ok {A} a.
Arguments Throw {A} e.

(** A [Response] of [fetch]. *)
Record Response : Type :=
  { resp_status : nat;
    resp_statusText : string;
    resp_text : Outcome string }.    (* await response.text() *)

(** [response.ok] *)
Definition resp_ok (r : Response) : bool :=
  (200 <=? resp_status r) && (resp_status r <=? 299).

(** One entry of the first batch route's [results]. *)
Record BatchItem : Type :=
  { bi_url : string;
    bi_status : Status;               (* "completed" or "failed" *)
    bi_analysis_id : option nat;
    bi_error : option string }.

(** The JSON posted to a [callback_url]. *)
Inductive CallbackPayload : Type :=
| CbCompleted (analysis_id : nat) (result : UrlRow)
| CbFailed (analysis_id : nat) (error : option string)
| CbBatch (batch_results : list BatchItem).

(** Outbound calls, in the order they are made. *)
Inductive Event : Type :=
| EvFetch (target : string)                        (* GET of the analysed page *)
| EvAiRun (system user : string)                   (* ai.run *)
| EvEmail (to subject html : string)               (* POST api.resend.com/emails *)
| EvCallback (target : string) (payload : CallbackPayload).  (* POST callback_url *)

(** The answer of the mail provider. *)
Record MailResponse : Type :=
  { mail_status : nat;
    mail_text : Outcome string;      (* await response.text() *)
    mail_id : Outcome string }.      (* (await response.json()).id *)

Definition mail_ok (r : MailResponse) : bool :=
  (200 <=? mail_status r) && (mail_status r <=? 299).

(** One entry of the second batch route's [results]. *)
Record BatchResult : Type :=
  { br_success : bool;
    br_url : string;
    br_analysis : option UrlRow;
    br_error : option string }.

(** What the collaborators answer. Each oracle sees the calls made so far,
    so the same page may answer differently the second time. The two
    [render_*] functions stand for the HTML templates of the mails (the
    date line of the first depends on the locale of the host). *)
Record Env : Type :=
  { http_get : list Event -> string -> Outcome Response;
    ai_run : list Event -> string -> string -> Outcome (option string);
    resend_post : list Event -> string -> string -> string -> string -> Outcome MailResponse;
    callback_post : list Event -> string -> Outcome unit;
    iso_time : nat -> string;                 (* new Date().toISOString() *)
    RESEND_API_KEY : option string;
    render_summary_email : UrlRow -> bool -> string;
    render_batch_email : list BatchResult -> string;
    unique_violation : JsError;               (* what D1 throws on a duplicate url *)
    foreign_key_violation : JsError }.

Record World : Type :=
  { db : Db;
    clock : nat;                  (* number of clock reads so far *)
    trace : list Event;           (* outbound calls, oldest first *)
    console : list string }.

Definition with_db (w : World) (d : Db) : World :=
  {| db := d; clock := clock w; trace := trace w; console := console w |}.

(** ** The monad of [async] code: state and exceptions *)

Definition M (A : Type) : Type := World -> Outcome A * World.

Definition ret {A : Type} (a : A) : M A := fun w => (Ok a, w).

Definition throw {A : Type} (e : JsError) : M A := fun w => (Throw e, w).

Definition bind {A B : Type} (m : M A) (k : A -> M B) : M B :=
  fun w => match m w with
           | (Ok a, w') => k a w'
           | (Throw e, w') => (Throw e, w')
           end.

(** [try { m } catch (error) { h error }] *)
Definition try_catch {A : Type} (m : M A) (h : JsError -> M A) : M A :=
  fun w => match m w with
           | (Ok a, w') => (Ok a, w')
           | (Throw e, w') => h e w'
           end.

Declare Scope js_scope.
Delimit Scope js_scope with js.
Notation "x <- m ;; k" := (bind m (fun x => k))
  (at level 61, m at next level, right associativity) : js_scope.
Notation "m ;;; k" := (bind m (fun _ => k))
  (at level 61, right associativity) : js_scope.
Local Open Scope js_scope.

(** The monadic [for ... of] loop. *)
Fixpoint for_each {A : Type} (l : list A) (body : A -> M unit) : M unit :=
  match l with
  | [] => ret tt
  | x :: l' => body x ;;; for_each l' body
  end.

(** ** Store operations (drizzle on D1) *)

Module Store.

Definition has_url (u : string) (rows : list UrlRow) : bool :=
  existsb (fun r => String.eqb (url r) u) rows.

Definition has_id (i : nat) (rows : list UrlRow) : bool :=
  existsb (fun r => id r =? i) rows.

Definition with_url (u : string) (rows : list UrlRow) : list UrlRow :=
  filter (fun r => String.eqb (url r) u) rows.

(** db.select().from(analyzedUrls).where(eq(analyzedUrls.url, u)) *)
Definition select_by_url (u : string) : M (list UrlRow) :=
  fun w => (Ok (with_url u (urls (db w))), w).

(** [const [existing] = ...]: the record stored for [u], if any. *)
Definition find_url (u : string) (d : Db) : option UrlRow :=
  hd_error (with_url u (urls d)).

(** The values every insert of the source gives: url, status,
    errorMessage (when failed), createdAt, updatedAt. The other columns
    are null. *)
Definition new_row (i : nat) (u : string) (st : Status) (err : option string)
           (created updated : string) : UrlRow :=
  {| id := i; url := u; title := None; content := None; summary := None;
     wordCount := None; analysisDate := None; status := st; errorMessage := err;
     contentType := None; language := None; createdAt := created; updatedAt := updated |}.

(** db.insert(analyzedUrls).values(...).returning(): rejected when the
    url is already there ([url] is [unique()]). *)
Definition insert_url (env : Env) (u : string) (st : Status) (err : option string)
           (created updated : string) : M (list UrlRow) :=
  fun w =>
    let d := db w in
    if has_url u (urls d) then (Throw (unique_violation env), w)
    else
      let r := new_row (next_url_id d) u st err created updated in
      (Ok [r],
       with_db w {| urls := urls d ++ [r]; tags := tags d;
                    next_url_id := S (next_url_id d); next_tag_id := next_tag_id d |}).

(** db.update(analyzedUrls).set(...).where(eq(analyzedUrls.id, i)).returning() *)
Definition update_url (i : nat) (set : UrlRow -> UrlRow) : M (list UrlRow) :=
  fun w =>
    let d := db w in
    let rows := map (fun r => if id r =? i then set r else r) (urls d) in
    (Ok (filter (fun r => id r =? i) rows),
     with_db w {| urls := rows; tags := tags d;
                  next_url_id := next_url_id d; next_tag_id := next_tag_id d |}).

(** db.insert(contentTags).values(...): [url_id] references
    [analyzed_urls.id]. *)
Definition insert_tag (env : Env) (owner : nat) (t : string) (conf : Q) (created : string)
  : M unit :=
  fun w =>
    let d := db w in
    if has_id owner (urls d) then
      let r := {| tag_id := next_tag_id d; urlId := owner; tag := t;
                  confidence := Some conf; tag_createdAt := created |} in
      (Ok tt,
       with_db w {| urls := urls d; tags := tags d ++ [r];
                    next_url_id := next_url_id d; next_tag_id := S (next_tag_id d) |})
    else (Throw (foreign_key_violation env), w).

(** db.delete(analyzedUrls).where(eq(analyzedUrls.id, i)), with the
    [onDelete: "cascade"] of [content_tags.url_id]. *)
Definition delete_url (i : nat) : M unit :=
  fun w =>
    let d := db w in
    (Ok tt,
     with_db w {| urls := filter (fun r => negb (id r =? i)) (urls d);
                  tags := filter (fun t => negb (urlId t =? i)) (tags d);
                  next_url_id := next_url_id d; next_tag_id := next_tag_id d |}).

End Store.

(** ** Clock and outbound calls *)

(** new Date().toISOString() *)
Definition now (env : Env) : M string :=
  fun w => (Ok (iso_time env (clock w)),
            {| db := db w; clock := S (clock w); trace := trace w; console := console w |}).

Definition emit (e : Event) (w : World) : World :=
  {| db := db w; clock := clock w; trace := trace w ++ [e]; console := console w |}.

(** fetch(url, { headers: { "User-Agent": ... } }) *)
Definition fetch_page (env : Env) (target : string) : M Response :=
  fun w => match http_get env (trace w) target with
           | Ok r => (Ok r, emit (EvFetch target) w)
           | Throw e => (Throw e, emit (EvFetch target) w)
           end.

(** ai.run("@cf/meta/llama-3.1-8b-instruct", { messages, max_tokens }) and
    the read of [response.response]. *)
Definition ai_call (env : Env) (system user : string) : M (option string) :=
  fun w => match ai_run env (trace w) system user with
           | Ok r => (Ok r, emit (EvAiRun system user) w)
           | Throw e => (Throw e, emit (EvAiRun system user) w)
           end.

(** console.error *)
Definition console_error (msg : string) : M unit :=
  fun w => (Ok tt, {| db := db w; clock := clock w; trace := trace w;
                      console := console w ++ [msg] |}).

(** ** The summarizer: [generateSummary] *)

Record Summary : Type := { sum_summary : string; sum_tags : list string }.

Definition nl : string := String (ascii_of_nat 10) EmptyString.

(** How a template literal prints a built-in function. *)
Definition native_function (name : string) : string :=
  "function " ++ name ++ "() { [native code] }".

(** [lengthInstructions] is an object literal, and line 72 indexes it with
    whatever string it is given: besides its three own keys the lookup finds
    the members every object inherits from [Object.prototype]. Those are
    functions (and, for [__proto__], the prototype object itself), so they
    are truthy and the [|| lengthInstructions.medium] does not replace
    them; the template prints them as text. *)
Definition inherited_member (key : string) : option string :=
  if String.eqb key "constructor" then Some (native_function "Object")
  else if String.eqb key "__proto__" then Some "[object Object]"
  else if existsb (String.eqb key)
            ["hasOwnProperty"; "isPrototypeOf"; "propertyIsEnumerable"; "toLocaleString";
             "toString"; "valueOf"; "__defineGetter__"; "__defineSetter__";
             "__lookupGetter__"; "__lookupSetter__"]
       then Some (native_function key)
  else None.

(** [lengthInstructions[summaryLength]], as the template prints it;
    [None] is [undefined]. *)
Definition lengthInstructions (summaryLength : string) : option string :=
  if String.eqb summaryLength "short" then Some "in 2-3 sentences"
  else if String.eqb summaryLength "medium" then Some "in 1-2 paragraphs"
  else if String.eqb summaryLength "long" then Some "in 3-4 paragraphs with detailed analysis"
  else inherited_member summaryLength.

Definition system_prompt : string :=
  "You are a content analyst. Provide concise summaries and relevant tags.".

Definition user_prompt (instruction content : string) : string :=
  "Please analyze the following content and provide:" ++ nl ++
  "1. A summary " ++ instruction ++ nl ++
  "2. 3-5 relevant tags (single words or short phrases)" ++ nl ++ nl ++
  "Content:" ++ nl ++
  Str.take 4000 content ++ nl ++ nl ++
  "Format your response as:" ++ nl ++
  "SUMMARY: [your summary here]" ++ nl ++
  "TAGS: tag1, tag2, tag3, tag4, tag5".

(** /SUMMARY:\s*(.*?)(?=TAGS:|$)/s *)
Definition summary_re : Regex.regex :=
  [Regex.Lit "SUMMARY:"; Regex.Star true Str.is_space;
   Regex.Cap (Regex.Star false Str.any_char); Regex.Ahead ["TAGS:"] true].

(** /TAGS:\s*(.*?)$/s *)
Definition tags_re : Regex.regex :=
  [Regex.Lit "TAGS:"; Regex.Star true Str.is_space;
   Regex.Cap (Regex.Star false Str.any_char); Regex.Eoi].

(** [m ? m[1].trim() : dflt] *)
Definition group1_trimmed (m : option (string * Regex.hit)) (dflt : string) : string :=
  match m with
  | Some (_, h) => match Regex.group1 h with
                   | Some g => Str.trim g
                   | None => EmptyString
                   end
  | None => dflt
  end.

Definition nonempty (s : string) : bool := 0 <? String.length s.

(** The reading of the model's reply, inside the [try]. *)
Definition parse_reply (result : string) : Summary :=
  let summaryMatch := Regex.search false summary_re result in
  let tagsMatch := Regex.search false tags_re result in
  let summary := group1_trimmed summaryMatch (Str.take 300 result) in
  let tagsString := group1_trimmed tagsMatch EmptyString in
  let tags := firstn 5 (filter nonempty (map Str.trim (Str.split_on "," tagsString))) in
  {| sum_summary := summary; sum_tags := tags |}.

(** The [catch] branch: simple truncation, no tags. *)
Definition fallback_summary (content : string) : Summary :=
  {| sum_summary := if 300 <? String.length content
                    then Str.take 300 content ++ "..." else content;
     sum_tags := [] |}.

Local Open Scope js_scope.

(** The prompt: the default of [summaryLength], the lookup of the
    instruction with its [|| lengthInstructions.medium], the template. *)
Definition summary_prompt (content : string) (summaryLength : option string) : string :=
  let summaryLength := match summaryLength with Some s => s | None => "medium" end in
  let instruction :=
    match lengthInstructions summaryLength with
    | Some i => i
    | None => "in 1-2 paragraphs"
    end in
  user_prompt instruction content.

Definition generateSummary (env : Env) (content : string) (summaryLength : option string)
  : M Summary :=
  let prompt := summary_prompt content summaryLength in
  try_catch
    (response <- ai_call env system_prompt prompt ;;
     let result := match response with Some r => r | None => EmptyString end in
     ret (parse_reply result))
    (fun error =>
       console_error "AI summarization failed:" ;;;
       ret (fallback_summary content)).

(** ** The pipeline: [analyzeUrl] *)

Record Options : Type :=
  { generate_tags : option bool;
    summary_length : option string }.

Definition no_options : Options := {| generate_tags := None; summary_length := None |}.

Definition truthy (b : option bool) : bool :=
  match b with Some true => true | _ => false end.

(** { status: "pending", updatedAt, errorMessage: null } *)
Definition set_pending (updated : string) (r : UrlRow) : UrlRow :=
  {| id := id r; url := url r; title := title r; content := content r;
     summary := summary r; wordCount := wordCount r; analysisDate := analysisDate r;
     status := pending; errorMessage := None;
     contentType := contentType r; language := language r;
     createdAt := createdAt r; updatedAt := updated |}.

(** { ...existing, status: "pending" } *)
Definition as_pending (r : UrlRow) : UrlRow :=
  {| id := id r; url := url r; title := title r; content := content r;
     summary := summary r; wordCount := wordCount r; analysisDate := analysisDate r;
     status := pending; errorMessage := errorMessage r;
     contentType := contentType r; language := language r;
     createdAt := createdAt r; updatedAt := updatedAt r |}.

(** { title, content, summary, wordCount, analysisDate, status: "completed",
      contentType, language: "en", updatedAt } *)
Definition set_completed (ttl cnt smy : string) (wc : nat) (analysed ctype updated : string)
           (r : UrlRow) : UrlRow :=
  {| id := id r; url := url r; title := Some ttl; content := Some cnt;
     summary := Some smy; wordCount := Some wc; analysisDate := Some analysed;
     status := completed; errorMessage := errorMessage r;
     contentType := Some ctype; language := Some "en";
     createdAt := createdAt r; updatedAt := updated |}.

(** { status: "failed", errorMessage, updatedAt } *)
Definition set_failed (msg updated : string) (r : UrlRow) : UrlRow :=
  {| id := id r; url := url r; title := title r; content := content r;
     summary := summary r; wordCount := wordCount r; analysisDate := analysisDate r;
     status := failed; errorMessage := Some msg;
     contentType := contentType r; language := language r;
     createdAt := createdAt r; updatedAt := updated |}.

(** Reading [.id] of a record that is [undefined]. *)
Definition undefined_id : JsError :=
  ErrorObj "Cannot read properties of undefined (reading 'id')".

Definition id_of (r : option UrlRow) : M nat :=
  match r with
  | Some x => ret (id x)
  | None => throw undefined_id
  end.

Definition await {A : Type} (o : Outcome A) : M A :=
  match o with
  | Ok a => ret a
  | Throw e => throw e
  end.

(** How the first statements of the [try] end: with the early [return
    existing], or with [urlRecord] assigned. *)
Inductive Entry : Type :=
| Cached (existing : UrlRow)
| Started (urlRecord : option UrlRow).

(** Lines 118-143: look the url up; return a completed record; otherwise
    mark the record pending or insert a pending one. *)
Definition enter (env : Env) (url : string) : M Entry :=
  rows <- Store.select_by_url url ;;
  match hd_error rows with
  | Some existing =>
      if Status_eqb (status existing) completed then ret (Cached existing)
      else
        updated <- now env ;;
        Store.update_url (id existing) (set_pending updated) ;;;
        ret (Started (Some (as_pending existing)))
  | None =>
      created <- now env ;;
      updated <- now env ;;
      rows <- Store.insert_url env url pending None created updated ;;
      ret (Started (hd_error rows))
  end.

Definition classify (url : string) : string :=
  if Str.includes "blog" url then "blog"
  else if Str.includes "news" url then "news"
  else "article".

Definition insufficient (content : string) : bool :=
  Regex.is_empty content || (String.length content <? 50).

(** Lines 187-198: one [content_tags] row per tag, confidence 0.8. *)
Definition insert_tags (env : Env) (updatedRecord : option UrlRow) (tags : list string)
  : M unit :=
  for_each tags
    (fun tag =>
       owner <- id_of updatedRecord ;;
       created <- now env ;;
       Store.insert_tag env owner tag (8 # 10) created).

(** Lines 166-200: classify, write the results on the record, insert the
    tags when asked to, return the updated record. *)
Definition commit_success (env : Env) (url : string) (options : Options)
           (urlRecord : option UrlRow) (ex : Extract.Extracted) (s : Summary)
  : M (option UrlRow) :=
  let contentType := classify url in
  analysed <- now env ;;
  updated <- now env ;;
  i <- id_of urlRecord ;;
  rows <- Store.update_url i
            (set_completed (Extract.ex_title ex) (Extract.ex_content ex)
                           (sum_summary s) (Extract.ex_wordCount ex)
                           analysed contentType updated) ;;
  let updatedRecord := hd_error rows in
  (if truthy (generate_tags options) && (0 <? List.length (sum_tags s)) then
     insert_tags env updatedRecord (sum_tags s)
   else ret tt) ;;;
  ret updatedRecord.

(** Lines 145-164: fetch, extract, summarize; then the commit. *)
Definition run_steps (env : Env) (url : string) (options : Options)
           (urlRecord : option UrlRow) : M (option UrlRow) :=
  response <- fetch_page env url ;;
  if negb (resp_ok response) then
    throw (ErrorObj ("HTTP " ++ Str.of_nat (resp_status response) ++ ": "
                     ++ resp_statusText response))
  else
    html <- await (resp_text response) ;;
    let ex := Extract.extractContent html in
    if insufficient (Extract.ex_content ex) then
      throw (ErrorObj "Insufficient content extracted from URL")
    else
      s <- generateSummary env (Extract.ex_content ex) (summary_length options) ;;
      commit_success env url options urlRecord ex s.

(** Lines 202-226: the [catch]. [urlRecord] is what the [try] had assigned
    when the error was thrown. *)
Definition on_failure {A : Type} (env : Env) (url : string) (urlRecord : option UrlRow)
           (error : JsError) : M A :=
  let errorMessage := message_of error in
  match urlRecord with
  | Some r =>
      updated <- now env ;;
      Store.update_url (id r) (set_failed errorMessage updated) ;;;
      throw error
  | None =>
      created <- now env ;;
      updated <- now env ;;
      Store.insert_url env url failed (Some errorMessage) created updated ;;;
      throw error
  end.

(** [analyzeUrl]. The one [try] of the source is cut where [urlRecord] is
    assigned: an error before that point reaches the [catch] with
    [urlRecord] still null, an error after it with the record. The value
    returned is [None] for JavaScript's [undefined]. *)
Definition analyzeUrl (env : Env) (url : string) (options : Options) : M (option UrlRow) :=
  entry <- try_catch (enter env url) (on_failure env url None) ;;
  match entry with
  | Cached existing => ret (Some existing)
  | Started urlRecord =>
      try_catch (run_steps env url options urlRecord) (on_failure env url urlRecord)
  end.

(** ** The notifier: [sendSummaryEmail] *)

Record EmailResult : Type :=
  { success : bool;
    emailId : option string;
    error : option string }.

Definition undefined_title : JsError :=
  ErrorObj "Cannot read properties of undefined (reading 'title')".

Definition defined {A : Type} (o : option A) (e : JsError) : M A :=
  match o with
  | Some a => ret a
  | None => throw e
  end.

(** fetch("https://api.resend.com/emails", { method: "POST", ... }) *)
Definition resend_call (env : Env) (key to subject html : string) : M MailResponse :=
  fun w => match resend_post env (trace w) key to subject html with
           | Ok r => (Ok r, emit (EvEmail to subject html) w)
           | Throw e => (Throw e, emit (EvEmail to subject html) w)
           end.

Definition sendSummaryEmail (env : Env) (resendApiKey to subject : string)
           (summary : option UrlRow) (includeFullContent : bool) : M EmailResult :=
  try_catch
    (s <- defined summary undefined_title ;;
     let html := render_summary_email env s includeFullContent in
     response <- resend_call env resendApiKey to subject html ;;
     if negb (mail_ok response) then
       errorData <- await (mail_text response) ;;
       ret {| success := false; emailId := None;
              error := Some ("Resend API error: " ++ Str.of_nat (mail_status response)
                             ++ " " ++ errorData) |}
     else
       data_id <- await (mail_id response) ;;
       ret {| success := true; emailId := Some data_id; error := None |})
    (fun error =>
       ret {| success := false; emailId := None;
              error := Some (match error with
                             | ErrorObj m => m
                             | NonError => "Unknown email error"
                             end) |}).

(** ** The routes *)

(** The JSON body of a request, with the fields the handlers read and the
    types the README documents for them: [url], [callback_url], [email],
    [subject], [subject_prefix] and [summary_length] are strings, [urls] is
    an array of strings, [options] is an object with an optional boolean
    [generate_tags] and an optional string [summary_length], and
    [generate_tags] and [include_full_content] are booleans. [None] is a
    field that is absent. The handlers test the raw values for truthiness
    only, so a body that carries another type in one of these fields (a
    number for [url], [null] for [options], 1 for [generate_tags]) takes
    paths of its own through them; such bodies are not values of this type,
    and no statement below speaks of them. *)
Record Body : Type :=
  { b_url : option string;
    b_urls : option (list string);
    b_options : option Options;
    b_callback_url : option string;
    b_email : option string;
    b_subject : option string;
    b_subject_prefix : option string;
    b_generate_tags : option bool;
    b_summary_length : option string;
    b_include_full_content : option bool }.

(** The bodies the routes answer with. *)
Inductive Json : Type :=
| JError (error : string) (message : option string)
| JStarted (analysis_id : nat)
| JSync (analysis_id : nat) (status : Status) (result : UrlRow)
| JAnalysis (analysis : option UrlRow) (email : option EmailResult)
| JEmailFailed (analysis : option UrlRow) (error : option string)
| JEmailed (analysis : UrlRow) (emailId : option string) (recipient : string)
| JBatch (batch_results : list BatchItem)
| JBatchResults (results : list BatchResult) (email : option EmailResult).

Record HttpReply : Type := { code : nat; json : Json }.

Definition reply (c : nat) (j : Json) : M HttpReply := ret {| code := c; json := j |}.

(** Truthiness of a string field. *)
Definition given (s : option string) : option string :=
  match s with
  | Some EmptyString => None
  | other => other
  end.

(** [.catch(console.error)] on the POST to a callback: never throws. *)
Definition post_callback (env : Env) (target : string) (payload : CallbackPayload) : M unit :=
  fun w =>
    let w' := emit (EvCallback target payload) w in
    match callback_post env (trace w) target with
    | Ok _ => (Ok tt, w')
    | Throw e => console_error (message_of e) w'
    end.

(** [c.executionCtx.waitUntil(p)]: the promise runs to its end; a rejection
    does not reach the handler. *)
Definition waitUntil (p : M unit) : M unit := try_catch p (fun _ => ret tt).

Definition message_property (e : JsError) : option string :=
  match e with
  | ErrorObj m => Some m
  | NonError => None
  end.

(** Lines 577-594: the detached analysis of the callback mode. *)
Definition callback_task (env : Env) (url : string) (options : Options)
           (callback_url : string) (record : option UrlRow) : M unit :=
  try_catch
    (result <- analyzeUrl env url options ;;
     r <- defined result undefined_id ;;
     post_callback env callback_url (CbCompleted (id r) r))
    (fun error =>
       i <- id_of record ;;
       post_callback env callback_url (CbFailed i (message_property error))).

(** Lines 554-612: the first [app.post("/webhook/analyze", ...)]. *)
Definition webhook_analyze (env : Env) (req : Outcome Body) : M HttpReply :=
  try_catch
    (b <- await req ;;
     let options := match b_options b with Some o => o | None => no_options end in
     match given (b_url b) with
     | None => reply 400 (JError "URL is required" None)
     | Some url =>
         match given (b_callback_url b) with
         | Some callback_url =>
             created <- now env ;;
             updated <- now env ;;
             rows <- Store.insert_url env url pending None created updated ;;
             let record := hd_error rows in
             waitUntil (callback_task env url options callback_url record) ;;;
             i <- id_of record ;;
             reply 200 (JStarted i)
         | None =>
             result <- analyzeUrl env url options ;;
             r <- defined result undefined_id ;;
             reply 200 (JSync (id r) (status r) r)
         end
     end)
    (fun error => reply 500 (JError "Analysis failed" (Some (message_of error)))).

(** The loop of the first batch route. *)
Fixpoint batch_loop (env : Env) (options : Options) (urls : list string) : M (list BatchItem) :=
  match urls with
  | [] => ret []
  | url :: urls' =>
      item <- try_catch
                (result <- analyzeUrl env url options ;;
                 i <- id_of result ;;
                 ret {| bi_url := url; bi_status := completed;
                        bi_analysis_id := Some i; bi_error := None |})
                (fun error =>
                   ret {| bi_url := url; bi_status := failed;
                          bi_analysis_id := None; bi_error := Some (message_of error) |}) ;;
      items <- batch_loop env options urls' ;;
      ret (item :: items)
  end.

(** Lines 615-662: the first [app.post("/webhook/batch-analyze", ...)]. *)
Definition webhook_batch_analyze (env : Env) (req : Outcome Body) : M HttpReply :=
  try_catch
    (b <- await req ;;
     let options := match b_options b with Some o => o | None => no_options end in
     match b_urls b with
     | None | Some [] => reply 400 (JError "URLs array is required" None)
     | Some urls =>
         if 10 <? List.length urls then reply 400 (JError "Maximum 10 URLs per batch" None)
         else
           results <- batch_loop env options urls ;;
           (match given (b_callback_url b) with
            | Some callback_url =>
                waitUntil (post_callback env callback_url (CbBatch results))
            | None => ret tt
            end) ;;;
           reply 200 (JBatch results)
     end)
    (fun error => reply 500 (JError "Batch analysis failed" (Some (message_of error)))).

(** [x || dflt] on a string that may be null or empty. *)
Definition or_else (s : option string) (dflt : string) : string :=
  match given s with
  | Some x => x
  | None => dflt
  end.

(** Lines 834-876: the second [app.post("/webhook/analyze", ...)]. *)
Definition webhook_analyze_email (env : Env) (req : Outcome Body) : M HttpReply :=
  try_catch
    (b <- await req ;;
     match given (b_url b) with
     | None => reply 400 (JError "URL is required" None)
     | Some url =>
         result <- analyzeUrl env url {| generate_tags := b_generate_tags b;
                                         summary_length := b_summary_length b |} ;;
         match given (b_email b), given (RESEND_API_KEY env) with
         | Some email, Some key =>
             emailSubject <-
               match given (b_subject b) with
               | Some subject => ret subject
               | None =>
                   r <- defined result undefined_title ;;
                   ret ("Analysis Summary: " ++ or_else (title r) "Untitled")
               end ;;
             emailResult <- sendSummaryEmail env key email emailSubject result
                              (truthy (b_include_full_content b)) ;;
             reply 200 (JAnalysis result (Some emailResult))
         | _, _ => reply 200 (JAnalysis result None)
         end
     end)
    (fun error => reply 500 (JError "Failed to analyze URL" (Some (message_of error)))).

(** The four bytes the source puts in front of "Analysis:" (a page
    pictogram in UTF-8). *)
Definition page_mark : string :=
  String (ascii_of_nat 240) (String (ascii_of_nat 159)
    (String (ascii_of_nat 147) (String (ascii_of_nat 132) EmptyString))).

(** Lines 879-936: [app.post("/webhook/analyze-and-email", ...)]. *)
Definition webhook_analyze_and_email (env : Env) (req : Outcome Body) : M HttpReply :=
  try_catch
    (b <- await req ;;
     match given (b_url b), given (b_email b) with
     | Some url, Some email =>
         match given (RESEND_API_KEY env) with
         | None => reply 500 (JError "Email functionality not configured" None)
         | Some key =>
             result <- analyzeUrl env url {| generate_tags := Some true;
                                             summary_length := None |} ;;
             emailSubject <-
               match given (b_subject b) with
               | Some subject => ret subject
               | None =>
                   r <- defined result undefined_title ;;
                   ret (page_mark ++ " Analysis: " ++ or_else (title r) "Web Content")
               end ;;
             emailResult <- sendSummaryEmail env key email emailSubject result false ;;
             if negb (success emailResult) then
               reply 500 (JEmailFailed result (error emailResult))
             else
               r <- defined result (ErrorObj "Cannot read properties of undefined (reading 'url')") ;;
               reply 200 (JEmailed r (emailId emailResult) email)
         end
     | _, _ => reply 400 (JError "URL and email are required" None)
     end)
    (fun error => reply 500 (JError "Failed to analyze and email" (Some (message_of error)))).

(** The loop of the second batch route. *)
Fixpoint batch_results (env : Env) (urls : list string) : M (list BatchResult) :=
  match urls with
  | [] => ret []
  | url :: urls' =>
      item <- try_catch
                (result <- analyzeUrl env url {| generate_tags := Some true;
                                                 summary_length := None |} ;;
                 ret {| br_success := true; br_url := url;
                        br_analysis := result; br_error := None |})
                (fun error =>
                   ret {| br_success := false; br_url := url;
                          br_analysis := None; br_error := Some (message_of error) |}) ;;
      items <- batch_results env urls' ;;
      ret (item :: items)
  end.

(** Lines 939-1057: the second [app.post("/webhook/batch-analyze", ...)]. *)
Definition webhook_batch_email (env : Env) (req : Outcome Body) : M HttpReply :=
  try_catch
    (b <- await req ;;
     match b_urls b with
     | None | Some [] => reply 400 (JError "URLs array is required" None)
     | Some urls =>
         if 10 <? List.length urls then reply 400 (JError "Maximum 10 URLs per batch" None)
         else
           results <- batch_results env urls ;;
           match given (b_email b), given (RESEND_API_KEY env) with
           | Some email, Some key =>
               let successful := filter br_success results in
               let emailSubject :=
                 or_else (b_subject_prefix b) "Batch Analysis" ++ " - "
                 ++ Str.of_nat (List.length successful) ++ " URLs processed" in
               if existsb (fun r => match br_analysis r with None => true | Some _ => false end)
                          successful
               then throw undefined_title
               else
                 let html := render_batch_email env results in
                 try_catch
                   (response <- resend_call env key email emailSubject html ;;
                    if negb (mail_ok response) then
                      errorData <- await (mail_text response) ;;
                      reply 200 (JBatchResults results
                        (Some {| success := false; emailId := None;
                                 error := Some ("Resend API error: "
                                                ++ Str.of_nat (mail_status response)
                                                ++ " " ++ errorData) |}))
                    else
                      data_id <- await (mail_id response) ;;
                      reply 200 (JBatchResults results
                        (Some {| success := true; emailId := Some data_id; error := None |})))
                   (fun emailError =>
                      reply 200 (JBatchResults results
                        (Some {| success := false; emailId := None;
                                 error := Some (match emailError with
                                                | ErrorObj m => m
                                                | NonError => "Email failed"
                                                end) |})))
           | _, _ => reply 200 (JBatchResults results None)
           end
     end)
    (fun error => reply 500 (JError "Failed to batch analyze" (Some (message_of error)))).

(** Lines 782-798: [app.delete("/api/analysis/:id", ...)], on the parsed
    [id] ([None] when [parseInt] gives NaN, which no row has). *)
Definition delete_analysis (i : option nat) : M unit :=
  match i with
  | Some n => Store.delete_url n
  | None => ret tt
  end.

(** *** The application: routes in the order they are registered *)

Inductive Method : Type := GET | POST | DELETE.

Definition Method_eqb (a b : Method) : bool :=
  match a, b with
  | GET, GET | POST, POST | DELETE, DELETE => true
  | _, _ => false
  end.

Record Route : Type :=
  { rt_method : Method;
    rt_path : string;
    rt_handler : Env -> Outcome Body -> M HttpReply }.

Record Request : Type :=
  { req_method : Method;
    req_path : string;
    req_json : Outcome Body }.         (* await c.req.json() *)

(** The POST routes of [app], in registration order (the GET and DELETE
    registrations between them carry other methods or paths). *)
Definition app : list Route :=
  [ {| rt_method := POST; rt_path := "/webhook/analyze"; rt_handler := webhook_analyze |};
    {| rt_method := POST; rt_path := "/webhook/batch-analyze";
       rt_handler := webhook_batch_analyze |};
    {| rt_method := POST; rt_path := "/webhook/analyze"; rt_handler := webhook_analyze_email |};
    {| rt_method := POST; rt_path := "/webhook/analyze-and-email";
       rt_handler := webhook_analyze_and_email |};
    {| rt_method := POST; rt_path := "/webhook/batch-analyze";
       rt_handler := webhook_batch_email |} ].

Definition matches (req : Request) (rt : Route) : bool :=
  Method_eqb (rt_method rt) (req_method req) && String.eqb (rt_path rt) (req_path req).

(** Hono runs the handlers registered for the method and path in
    registration order, each one reaching the next only through [next()].
    No handler of the source calls [next()]: each returns its response, so
    the first registration that matches answers. [None] is Hono's 404. *)
Definition dispatch (routes : list Route) (env : Env) (req : Request) : M (option HttpReply) :=
  match find (matches req) routes with
  | Some rt => r <- rt_handler rt env (req_json req) ;; ret (Some r)
  | None => ret None
  end.

Definition handle (env : Env) (req : Request) : M (option HttpReply) :=
  dispatch app env req.

(** ** The MCP tool [analyze_url] *)

Inductive SummaryLength : Type := short | medium | long.

Definition SummaryLength_name (l : SummaryLength) : string :=
  match l with
  | short => "short"
  | medium => "medium"
  | long => "long"
  end.

Record ToolResult : Type := { text : string; isError : bool }.

(** A nullable value inside a template literal. *)
Definition show (s : option string) : string :=
  match s with Some x => x | None => "null" end.

Definition Status_name (s : Status) : string :=
  match s with
  | pending => "pending"
  | completed => "completed"
  | failed => "failed"
  end.

(** Lines 325-354. *)
Definition tool_analyze_url (env : Env) (url : string) (summary_length : SummaryLength)
  : M ToolResult :=
  try_catch
    (result <- analyzeUrl env url
                 {| generate_tags := Some true;
                    summary_length := Some (SummaryLength_name summary_length) |} ;;
     r <- defined result undefined_title ;;
     ret {| text := "Analysis completed for: " ++ url ++ nl ++ nl
                    ++ "Title: " ++ show (title r) ++ nl
                    ++ "Summary: " ++ show (summary r) ++ nl
                    ++ "Word Count: " ++ show (option_map Str.of_nat (wordCount r)) ++ nl
                    ++ "Status: " ++ Status_name (status r);
            isError := false |})
    (fun error =>
       ret {| text := "Error analyzing URL: " ++ message_of error; isError := true |}).

(** ** States, relations and sample inputs the statements speak of *)

Unset Implicit Arguments.

(** The mails sent so far. *)
Definition is_email (e : Event) : bool :=
  match e with EvEmail _ _ _ => true | _ => false end.

Definition mails (w : World) : list Event := filter is_email (trace w).

(** No mail was sent between [w] and [w']. *)
Definition no_mail (w w' : World) : Prop := mails w' = mails w.

(** A relation between the world before and after, kept by every run of a
    computation. *)
Definition Keeps {A : Type} (R : World -> World -> Prop) (m : M A) : Prop :=
  forall w o w', m w = (o, w') -> R w w'.

(** What the schema promises of [analyzed_urls]: [id] is a key, [url] is
    unique, and the autoincrement counter is above every id in use. *)
Record wf_db (d : Db) : Prop :=
  { wf_ids : NoDup (map id (urls d));
    wf_urls : NoDup (map url (urls d));
    wf_next : Forall (fun r => id r < next_url_id d) (urls d) }.

Definition keeps_wf (w w' : World) : Prop := wf_db (db w) -> wf_db (db w').

(** A patch that touches neither [id] nor [url]. *)
Definition keeps_key (set : UrlRow -> UrlRow) : Prop :=
  forall r, id (set r) = id r /\ url (set r) = url r.

(** The state after the record for [existing] has been marked pending. *)
Definition marked_pending (env : Env) (existing : UrlRow) (w : World) : World :=
  {| db := {| urls := map (fun r => if id r =? id existing
                                    then set_pending (iso_time env (clock w)) r else r)
                          (urls (db w));
              tags := tags (db w);
              next_url_id := next_url_id (db w);
              next_tag_id := next_tag_id (db w) |};
     clock := S (clock w); trace := trace w; console := console w |}.

(** The pending row a first analysis of [u] inserts, and the state after. *)
Definition pending_row (env : Env) (u : string) (w : World) : UrlRow :=
  Store.new_row (next_url_id (db w)) u pending None
                (iso_time env (clock w)) (iso_time env (S (clock w))).

Definition inserted_pending (env : Env) (u : string) (w : World) : World :=
  {| db := {| urls := urls (db w) ++ [pending_row env u w];
              tags := tags (db w);
              next_url_id := S (next_url_id (db w));
              next_tag_id := next_tag_id (db w) |};
     clock := S (S (clock w)); trace := trace w; console := console w |}.

(** The record the pipeline works on, and the state it starts from, when
    the url is not cached. *)
Definition working_record (env : Env) (u : string) (w : World) : UrlRow :=
  match Store.find_url u (db w) with
  | Some existing => as_pending existing
  | None => pending_row env u w
  end.

Definition started (env : Env) (u : string) (w : World) : World :=
  match Store.find_url u (db w) with
  | Some existing => marked_pending env existing w
  | None => inserted_pending env u w
  end.

(** [u] has no completed record in [d]. *)
Definition not_cached (u : string) (d : Db) : Prop :=
  forall r, Store.find_url u d = Some r -> status r <> completed.

Definition with_id (i : nat) (rows : list UrlRow) : list UrlRow :=
  filter (fun r => id r =? i) rows.

Fixpoint tag_rows (env : Env) (owner n c : nat) (l : list string) : list TagRow :=
  match l with
  | [] => []
  | t :: l' =>
      {| tag_id := n; urlId := owner; tag := t; confidence := Some (8 # 10);
         tag_createdAt := iso_time env c |} :: tag_rows env owner (S n) (S c) l'
  end.

Definition tagged (env : Env) (owner : nat) (l : list string) (w : World) : World :=
  {| db := {| urls := urls (db w);
              tags := tags (db w) ++ tag_rows env owner (next_tag_id (db w)) (clock w) l;
              next_url_id := next_url_id (db w);
              next_tag_id := List.length l + next_tag_id (db w) |};
     clock := List.length l + clock w; trace := trace w; console := console w |}.

(** The patch of the success commit, with the two clock reads it makes. *)
Definition completed_patch (env : Env) (u : string) (ex : Extract.Extracted) (s : Summary)
           (w : World) : UrlRow -> UrlRow :=
  set_completed (Extract.ex_title ex) (Extract.ex_content ex) (sum_summary s)
                (Extract.ex_wordCount ex) (iso_time env (clock w)) (classify u)
                (iso_time env (S (clock w))).

Definition written (env : Env) (u : string) (i : nat) (ex : Extract.Extracted) (s : Summary)
           (w : World) : World :=
  {| db := {| urls := map (fun r => if id r =? i then completed_patch env u ex s w r else r)
                          (urls (db w));
              tags := tags (db w);
              next_url_id := next_url_id (db w);
              next_tag_id := next_tag_id (db w) |};
     clock := S (S (clock w)); trace := trace w; console := console w |}.

Definition committed (env : Env) (u : string) (options : Options) (i : nat)
           (ex : Extract.Extracted) (s : Summary) (w : World) : World :=
  if truthy (generate_tags options) && (0 <? List.length (sum_tags s))
  then tagged env i (sum_tags s) (written env u i ex s w)
  else written env u i ex s w.

Definition failure_committed (env : Env) (i : nat) (e : JsError) (w : World) : World :=
  {| db := {| urls := map (fun r => if id r =? i
                                    then set_failed (message_of e) (iso_time env (clock w)) r
                                    else r)
                          (urls (db w));
              tags := tags (db w);
              next_url_id := next_url_id (db w);
              next_tag_id := next_tag_id (db w) |};
     clock := S (clock w); trace := trace w; console := console w |}.

Definition reply_text (response : option string) : string :=
  match response with Some r => r | None => EmptyString end.

Definition summarized (env : Env) (c : string) (l : option string) (tr : list Event) : Summary :=
  match ai_run env tr system_prompt (summary_prompt c l) with
  | Ok response => parse_reply (reply_text response)
  | Throw _ => fallback_summary c
  end.

Definition after_summary (env : Env) (c : string) (l : option string) (w : World) : World :=
  match ai_run env (trace w) system_prompt (summary_prompt c l) with
  | Ok _ => emit (EvAiRun system_prompt (summary_prompt c l)) w
  | Throw _ =>
      {| db := db w; clock := clock w;
         trace := trace w ++ [EvAiRun system_prompt (summary_prompt c l)];
         console := console w ++ ["AI summarization failed:"] |}
  end.

(** What fetching and extracting give on the calls [tr] made so far: the
    extracted page, or the error of the fatal step. *)
Definition fetch_extract (env : Env) (u : string) (tr : list Event)
  : Outcome Extract.Extracted :=
  match http_get env tr u with
  | Throw e => Throw e
  | Ok response =>
      if negb (resp_ok response) then
        Throw (ErrorObj ("HTTP " ++ Str.of_nat (resp_status response) ++ ": "
                         ++ resp_statusText response))
      else
        match resp_text response with
        | Throw e => Throw e
        | Ok html =>
            if insufficient (Extract.ex_content (Extract.extractContent html))
            then Throw (ErrorObj "Insufficient content extracted from URL")
            else Ok (Extract.extractContent html)
        end
  end.

(** The state in which the pipeline commits, after the fetch and the
    model call. *)
Definition summarizing (env : Env) (u : string) (options : Options)
           (ex : Extract.Extracted) (w : World) : World :=
  after_summary env (Extract.ex_content ex) (summary_length options)
                (emit (EvFetch u) (started env u w)).

Module Demo.

Definition page : string :=
  "<html><head><title> Rocq news </title><style>p { color: red }</style></head>"
  ++ "<body><p>Hello world this is a sufficiently long test paragraph for extraction</p>"
  ++ "</body></html>".

Definition reply_8_tags : string :=
  "SUMMARY: A test page." ++ nl ++ "TAGS: a, b, c, d, e, f, g, h".

Definition env : Env :=
  {| http_get := fun _ _ => Ok {| resp_status := 200; resp_statusText := "OK";
                                  resp_text := Ok page |};
     ai_run := fun _ _ _ => Ok (Some reply_8_tags);
     resend_post := fun _ _ _ _ _ => Ok {| mail_status := 200; mail_text := Ok "{}";
                                           mail_id := Ok "mail-1" |};
     callback_post := fun _ _ => Ok tt;
     iso_time := fun n => "2025-01-01T00:00:" ++ Str.of_nat n ++ "Z";
     RESEND_API_KEY := Some "re_key";
     render_summary_email := fun r _ => "<div>" ++ show (summary r) ++ "</div>";
     render_batch_email := fun _ => "<div>batch</div>";
     unique_violation := ErrorObj "UNIQUE constraint failed: analyzed_urls.url";
     foreign_key_violation := ErrorObj "FOREIGN KEY constraint failed" |}.

(** The same, with a model that throws. *)
Definition env_model_down : Env :=
  {| http_get := http_get env;
     ai_run := fun _ _ _ => Throw (ErrorObj "model unavailable");
     resend_post := resend_post env;
     callback_post := callback_post env;
     iso_time := iso_time env;
     RESEND_API_KEY := RESEND_API_KEY env;
     render_summary_email := render_summary_email env;
     render_batch_email := render_batch_email env;
     unique_violation := unique_violation env;
     foreign_key_violation := foreign_key_violation env |}.

(** The same, with a page that says next to nothing. *)
Definition env_short_page : Env :=
  {| http_get := fun _ _ => Ok {| resp_status := 200; resp_statusText := "OK";
                                  resp_text := Ok "<body><p>Too short</p></body>" |};
     ai_run := ai_run env;
     resend_post := resend_post env;
     callback_post := callback_post env;
     iso_time := iso_time env;
     RESEND_API_KEY := RESEND_API_KEY env;
     render_summary_email := render_summary_email env;
     render_batch_email := render_batch_email env;
     unique_violation := unique_violation env;
     foreign_key_violation := foreign_key_violation env |}.

Definition address : string := "https://example.com/blog/news-of-the-day".

Definition start : World :=
  {| db := empty_db; clock := 0; trace := []; console := [] |}.

Definition done_row : UrlRow :=
  {| id := 1; url := address; title := Some "Rocq news";
     content := Some "Hello world"; summary := Some "A test page.";
     wordCount := Some 2; analysisDate := Some "2024-12-31T00:00:00Z";
     status := completed; errorMessage := None;
     contentType := Some "blog"; language := Some "en";
     createdAt := "2024-12-31T00:00:00Z"; updatedAt := "2024-12-31T00:00:00Z" |}.

(** A store holding one analysis that failed, with text from before. *)
Definition failed_row : UrlRow :=
    {| id := 1; url := address; title := Some "Rocq news";
       content := Some "Hello world"; summary := Some "A test page.";
       wordCount := Some 2; analysisDate := Some "2024-12-31T00:00:00Z";
       status := failed; errorMessage := Some "HTTP 503: Service Unavailable";
       contentType := Some "blog"; language := Some "en";
       createdAt := "2024-12-31T00:00:00Z"; updatedAt := "2024-12-31T08:00:00Z" |}.

Definition to_retry : World :=
    {| db := {| urls := [failed_row]; tags := []; next_url_id := 2; next_tag_id := 1 |};
       clock := 0; trace := []; console := [] |}.

(** A store holding one completed analysis. *)
Definition analysed : World :=
  {| db := {| urls := [done_row]; tags := []; next_url_id := 2; next_tag_id := 1 |};
     clock := 0; trace := []; console := [] |}.

End Demo.

(** [r'] is [r] in every column but status, errorMessage and updatedAt. *)
Definition same_but_outcome (r r' : UrlRow) : Prop :=
  id r' = id r /\ url r' = url r /\ title r' = title r /\ content r' = content r
  /\ summary r' = summary r /\ wordCount r' = wordCount r
  /\ analysisDate r' = analysisDate r /\ contentType r' = contentType r
  /\ language r' = language r /\ createdAt r' = createdAt r.

(** [r'] is [r] after the failure commit for the error [e]. *)
Definition failed_from (e : JsError) (r r' : UrlRow) : Prop :=
  same_but_outcome r r' /\ status r' = failed /\ errorMessage r' = Some (message_of e).

Module MailCase.

(** POST /webhook/analyze { url, email }, with the provider key set. *)
Definition body : Body :=
  {| b_url := Some Demo.address; b_urls := None; b_options := None;
     b_callback_url := None; b_email := Some "reader@example.com";
     b_subject := None; b_subject_prefix := None; b_generate_tags := Some true;
     b_summary_length := None; b_include_full_content := None |}.

Definition request : Request :=
  {| req_method := POST; req_path := "/webhook/analyze"; req_json := Ok body |}.

End MailCase.

(** What can happen to the store: a run of the pipeline, a request to a
    route, a call of the tool, a delete; and, for requests that overlap,
    any single statement of theirs on [analyzed_urls] or [content_tags]. *)
Inductive step : World -> World -> Prop :=
| step_analyze env u options w o w' :
    analyzeUrl env u options w = (o, w') -> step w w'
| step_request env req w o w' :
    handle env req w = (o, w') -> step w w'
| step_tool env u l w o w' :
    tool_analyze_url env u l w = (o, w') -> step w w'
| step_delete i w o w' :
    delete_analysis i w = (o, w') -> step w w'
| step_insert env u st err created updated w o w' :
    Store.insert_url env u st err created updated w = (o, w') -> step w w'
| step_update i set w o w' :
    keeps_key set -> Store.update_url i set w = (o, w') -> step w w'
| step_insert_tag env owner t c created w o w' :
    Store.insert_tag env owner t c created w = (o, w') -> step w w'.

Inductive reachable : World -> Prop :=
| reachable_start w : db w = empty_db -> reachable w
| reachable_step w w' : reachable w -> step w w' -> reachable w'.

(** The rows are the same rows: same ids, same urls, in the same order. *)
Definition same_keys (w w' : World) : Prop :=
  map id (urls (db w')) = map id (urls (db w))
  /\ map url (urls (db w')) = map url (urls (db w)).

Module AsSpecified.
Import Str Regex Extract.

Definition is_name_char (c : ascii) : bool :=
  let n := nat_of_ascii c in
  ((97 <=? n) && (n <=? 122)) || ((65 <=? n) && (n <=? 90))
  || ((48 <=? n) && (n <=? 57)) || (n =? 45).

(** The third and fourth patterns as the specification words them: an
    element of any name whose class attribute contains [kw], up to the
    first closing tag. *)
Definition any_class_re (kw : string) : regex :=
  [Lit "<"; Plus is_name_char; Star true not_gt; Lit ("class=" ++ dquote);
   Star true not_dquote; Lit kw; Star true not_dquote; Lit dquote; Star true not_gt;
   Lit ">"; Cap (Star false any_char); Lit "</"; Plus is_name_char; Lit ">"].

Definition specified_patterns : list regex :=
  [ element_re "article";
    element_re "main";
    any_class_re "content";
    any_class_re "post";
    element_re "body" ].

(** A page whose text sits in a [section] of class "content". *)
Definition page : string :=
  "<body><nav>Menu</nav><section class=" ++ dquote ++ "content" ++ dquote
  ++ ">The text</section></body>".

End AsSpecified.

(** An expression that starts with literal text never matches the empty
    string. *)
Definition starts_with_text (r : Regex.regex) : Prop :=
  exists c p r', r = Regex.Lit (String c p) :: r'.

(** ** More of the delivery surface: reading, deleting, mailing *)

(** db.select().from(analyzedUrls).where(eq(analyzedUrls.id, i)) *)
Definition select_by_id (i : nat) : M (list UrlRow) :=
  fun w => (Ok (filter (fun r => id r =? i) (urls (db w))), w).

(** db.select().from(contentTags).where(eq(contentTags.urlId, i)) *)
Definition select_tags_of (i : nat) : M (list TagRow) :=
  fun w => (Ok (filter (fun t => urlId t =? i) (tags (db w))), w).

(** The bodies of the /api/analysis/:id answers. *)
Inductive ApiJson : Type :=
| AError (error : string) (message : option string)
| ARecord (result : UrlRow) (tags : list TagRow)      (* { ...result, tags } *)
| AMessage (message : string).

Record ApiReply : Type := { api_code : nat; api_json : ApiJson }.

Definition api_reply (c : nat) (j : ApiJson) : M ApiReply :=
  ret {| api_code := c; api_json := j |}.

(** Lines 755-779: [app.get("/api/analysis/:id", ...)], on the parsed
    [id]. *)
Definition api_get_analysis (i : nat) : M ApiReply :=
  try_catch
    (rows <- select_by_id i ;;
     match hd_error rows with
     | None => api_reply 404 (AError "Analysis not found" None)
     | Some result =>
         tags <- select_tags_of i ;;
         api_reply 200 (ARecord result tags)
     end)
    (fun error =>
       api_reply 500 (AError "Failed to retrieve analysis" (Some (message_of error)))).

(** Lines 782-798: [app.delete("/api/analysis/:id", ...)], on the parsed
    [id]. *)
Definition api_delete_analysis (i : nat) : M ApiReply :=
  try_catch
    (delete_analysis (Some i) ;;;
     api_reply 200 (AMessage "Analysis deleted successfully"))
    (fun error =>
       api_reply 500 (AError "Failed to delete analysis" (Some (message_of error)))).

(** [l.join(sep)] *)
Fixpoint join (sep : string) (l : list string) : string :=
  match l with
  | [] => EmptyString
  | [x] => x
  | x :: l' => x ++ sep ++ join sep l'
  end.

(** Lines 444-485: the MCP tool [get_url_details]. *)
Definition tool_get_url_details (u : string) : M ToolResult :=
  try_catch
    (rows <- Store.select_by_url u ;;
     match hd_error rows with
     | None =>
         ret {| text := "No analysis found for URL: " ++ u; isError := false |}
     | Some result =>
         tags <- select_tags_of (id result) ;;
         let tagsList := join ", " (map tag tags) in
         ret {| text := "URL: " ++ url result ++ nl
                        ++ "Title: " ++ show (title result) ++ nl
                        ++ "Summary: " ++ show (summary result) ++ nl
                        ++ "Word Count: " ++ show (option_map Str.of_nat (wordCount result))
                        ++ nl
                        ++ "Content Type: " ++ show (contentType result) ++ nl
                        ++ "Language: " ++ show (language result) ++ nl
                        ++ "Tags: " ++ tagsList ++ nl
                        ++ "Status: " ++ Status_name (status result) ++ nl
                        ++ "Analysis Date: " ++ show (analysisDate result);
                isError := false |}
     end)
    (fun error =>
       ret {| text := "Error getting URL details: " ++ message_of error; isError := true |}).

(** The bytes of the two other pictograms of the tool's answer. *)
Definition check_mark : string :=
  String (ascii_of_nat 226) (String (ascii_of_nat 156) (String (ascii_of_nat 133) EmptyString)).

Definition mail_mark : string :=
  String (ascii_of_nat 240) (String (ascii_of_nat 159)
    (String (ascii_of_nat 147) (String (ascii_of_nat 167) EmptyString))).

(** A value that may be [undefined] inside a template literal. *)
Definition show_undefined (s : option string) : string :=
  match s with Some x => x | None => "undefined" end.

(** Lines 488-548: the MCP tool [email_analysis]. *)
Definition tool_email_analysis (env : Env) (u email : string) (subject : option string)
           (include_full_content : bool) : M ToolResult :=
  try_catch
    (match given (RESEND_API_KEY env) with
     | None =>
         ret {| text := "Email functionality is not configured. Please set RESEND_API_KEY.";
                isError := true |}
     | Some key =>
         analysis <- analyzeUrl env u {| generate_tags := Some true;
                                           summary_length := None |} ;;
         emailSubject <-
           match given subject with
           | Some s => ret s
           | None =>
               r <- defined analysis undefined_title ;;
               ret (page_mark ++ " Analysis: " ++ or_else (title r) "Web Content")
           end ;;
         emailResult <- sendSummaryEmail env key email emailSubject analysis
                          include_full_content ;;
         if negb (success emailResult) then
           ret {| text := "Failed to send email: " ++ show_undefined (error emailResult);
                  isError := true |}
         else
           r <- defined analysis
                  (ErrorObj "Cannot read properties of undefined (reading 'url')") ;;
           ret {| text := check_mark ++ " Analysis completed and emailed successfully!"
                          ++ nl ++ nl
                          ++ "URL: " ++ url r ++ nl
                          ++ "Title: " ++ show (title r) ++ nl
                          ++ "Summary: " ++ show (summary r) ++ nl ++ nl
                          ++ mail_mark ++ " Email sent to: " ++ email ++ nl
                          ++ "Email ID: " ++ show_undefined (emailId emailResult);
                  isError := false |}
     end)
    (fun error =>
       ret {| text := "Error analyzing and emailing URL: " ++ message_of error;
              isError := true |}).

(** ** More sample inputs *)

Module Cases.

(** [env] with another answer of the analysed site. *)
Definition with_site (site : list Event -> string -> Outcome Response) (env : Env) : Env :=
  {| http_get := site;
     ai_run := ai_run env;
     resend_post := resend_post env;
     callback_post := callback_post env;
     iso_time := iso_time env;
     RESEND_API_KEY := RESEND_API_KEY env;
     render_summary_email := render_summary_email env;
     render_batch_email := render_batch_email env;
     unique_violation := unique_violation env;
     foreign_key_violation := foreign_key_violation env |}.

(** [env] with another mail provider and key. *)
Definition with_mail (key : option string)
           (provider : list Event -> string -> string -> string -> string
                       -> Outcome MailResponse)
           (env : Env) : Env :=
  {| http_get := http_get env;
     ai_run := ai_run env;
     resend_post := provider;
     callback_post := callback_post env;
     iso_time := iso_time env;
     RESEND_API_KEY := key;
     render_summary_email := render_summary_email env;
     render_batch_email := render_batch_email env;
     unique_violation := unique_violation env;
     foreign_key_violation := foreign_key_violation env |}.

(** A site that answers 404. *)
Definition env_404 : Env :=
  with_site (fun _ _ => Ok {| resp_status := 404; resp_statusText := "Not Found";
                              resp_text := Ok "<html><body>gone</body></html>" |})
            Demo.env.

(** A site that is good for one address only. *)
Definition env_one_good : Env :=
  with_site (fun _ target =>
               if String.eqb target Demo.address
               then Ok {| resp_status := 200; resp_statusText := "OK";
                          resp_text := Ok Demo.page |}
               else Throw (ErrorObj "fetch failed"))
            Demo.env.

(** No provider key. *)
Definition env_no_key : Env := with_mail None (resend_post Demo.env) Demo.env.

(** A provider that refuses the mail. *)
Definition env_mail_refused : Env :=
  with_mail (Some "re_key")
            (fun _ _ _ _ _ => Ok {| mail_status := 422; mail_text := Ok "invalid";
                                    mail_id := Throw NonError |})
            Demo.env.

(** POST /webhook/analyze { url, callback_url }. *)
Definition with_callback : Body :=
  {| b_url := Some Demo.address; b_urls := None; b_options := None;
     b_callback_url := Some "https://n8n.example.com/hook";
     b_email := None; b_subject := None; b_subject_prefix := None;
     b_generate_tags := None; b_summary_length := None;
     b_include_full_content := None |}.

(** A batch of two urls, the first of which is down. *)
Definition two_urls : Body :=
  {| b_url := None;
     b_urls := Some ["https://down.example.com/a"; Demo.address];
     b_options := None; b_callback_url := None; b_email := None;
     b_subject := None; b_subject_prefix := None; b_generate_tags := None;
     b_summary_length := None; b_include_full_content := None |}.

(** Options that ask for a length named like a member every object
    inherits. *)
Definition odd_length : Options :=
  {| generate_tags := None; summary_length := Some "constructor" |}.

Definition empty_body : Body :=
  {| b_url := None; b_urls := None; b_options := None; b_callback_url := None;
     b_email := None; b_subject := None; b_subject_prefix := None;
     b_generate_tags := None; b_summary_length := None; b_include_full_content := None |}.

Definition post (path : string) (b : Body) : Request :=
  {| req_method := POST; req_path := path; req_json := Ok b |}.

End Cases.

(** ** More vocabulary for the statements *)

(** The results of a batch, told url by url: each url is analysed in the
    state the urls before it have left; its entry is completed, with the id
    of the record its analysis returned, or failed, with the message of the
    error its analysis threw. *)
Inductive batch_told (env : Env) (options : Options)
  : list string -> World -> list BatchItem -> World -> Prop :=
| told_none w : batch_told env options [] w [] w
| told_completed u us w r w1 items w2 :
    analyzeUrl env u options w = (Ok (Some r), w1) ->
    batch_told env options us w1 items w2 ->
    batch_told env options (u :: us) w
      ({| bi_url := u; bi_status := completed;
          bi_analysis_id := Some (id r); bi_error := None |} :: items) w2
| told_failed u us w e w1 items w2 :
    analyzeUrl env u options w = (Throw e, w1) ->
    batch_told env options us w1 items w2 ->
    batch_told env options (u :: us) w
      ({| bi_url := u; bi_status := failed;
          bi_analysis_id := None; bi_error := Some (message_of e) |} :: items) w2.

(** The tag table is what it was. *)
Definition same_tags (w w' : World) : Prop := tags (db w') = tags (db w).

(** The callbacks posted so far. *)
Definition is_callback (e : Event) : bool :=
  match e with EvCallback _ _ => true | _ => false end.

Definition callbacks (w : World) : list Event := filter is_callback (trace w).

(** Every tag row belongs to a record that is there. *)
Definition owned (d : Db) : Prop :=
  Forall (fun t => Store.has_id (urlId t) (urls d) = true) (tags d).

Definition keeps_owned (w w' : World) : Prop := owned (db w) -> owned (db w').

(** What [sendSummaryEmail] makes of the provider's answer. *)
Definition mail_result (o : Outcome MailResponse) : EmailResult :=
  match o with
  | Throw e =>
      {| success := false; emailId := None;
         error := Some (match e with ErrorObj m => m | NonError => "Unknown email error" end) |}
  | Ok response =>
      if mail_ok response then
        match mail_id response with
        | Ok i => {| success := true; emailId := Some i; error := None |}
        | Throw e =>
            {| success := false; emailId := None;
               error := Some (match e with
                              | ErrorObj m => m
                              | NonError => "Unknown email error"
                              end) |}
        end
      else
        match mail_text response with
        | Ok errorData =>
            {| success := false; emailId := None;
               error := Some ("Resend API error: " ++ Str.of_nat (mail_status response)
                              ++ " " ++ errorData) |}
        | Throw e =>
            {| success := false; emailId := None;
               error := Some (match e with
                              | ErrorObj m => m
                              | NonError => "Unknown email error"
                              end) |}
        end
  end.

(** [s] does not start with white space. *)
Definition clean_start (s : string) : Prop :=
  match s with
  | String c _ => Str.is_space c = false
  | EmptyString => True
  end.

(** [d] occurs in [s]. *)
Fixpoint mem_char (d : ascii) (s : string) : bool :=
  match s with
  | EmptyString => false
  | String c s' => Ascii.eqb c d || mem_char d s'
  end.

(** [s] cut at the first occurrence of [p]: what is before it and what
    is after it. *)
Fixpoint split_at_first (p s : string) : option (string * string) :=
  match Str.strip_prefix false p s with
  | Some rest => Some (EmptyString, rest)
  | None =>
      match s with
      | EmptyString => None
      | String c s' =>
          match split_at_first p s' with
          | Some (a, b) => Some (String c a, b)
          | None => None
          end
      end
  end.

(** The reply read by its markers, without regular expressions: the
    summary is the text after the first "SUMMARY:" up to the next "TAGS:"
    (or the end), the tags are what follows the first "TAGS:" of the
    reply. *)
Definition summary_by_markers (reply : string) : string :=
  match split_at_first "SUMMARY:" reply with
  | None => Str.take 300 reply
  | Some (_, x) =>
      Str.trim (match split_at_first "TAGS:" (Str.trim_start x) with
                | Some (body, _) => body
                | None => Str.trim_start x
                end)
  end.

Definition tags_by_markers (reply : string) : list string :=
  match split_at_first "TAGS:" reply with
  | None => []
  | Some (_, rest) =>
      firstn 5 (filter nonempty (map Str.trim (Str.split_on "," (Str.trim rest))))
  end.

(** The group a search finds, if it finds a match. *)
Definition found_group (r : Regex.regex) (s : string) : option (option string) :=
  match Regex.search false r s with
  | Some (_, h) => Some (Regex.group1 h)
  | None => None
  end.

(** What the lookahead of the summary expression accepts: "TAGS:" next,
    or the end of the reply. *)
Definition looks_at_tags (b : string) : bool :=
  match Str.strip_prefix false "TAGS:" b with Some _ => true | None => false end
  || Regex.is_empty b.

(** ** The content region, told without the matcher *)

(** The text an expression matches at the start of [s]. *)
Definition run (icase : bool) (r : Regex.regex) (s : string) : option string :=
  option_map Regex.matched (Regex.exec icase r s).

(** What [extractContent] takes its text from, said in words and computed
    by plain searches in the string: no regular expression is run here.
    Letter case is ignored wherever a text is looked for. *)
Module InWords.
Import Str.

Definition gt : ascii := ascii_of_nat 62.
Definition dq : ascii := ascii_of_nat 34.

(** [s] cut at its first [d]: what is before it and what is after it. *)
Fixpoint cut_at (d : ascii) (s : string) : option (string * string) :=
  match s with
  | EmptyString => None
  | String c s' =>
      if Ascii.eqb c d then Some (EmptyString, s')
      else match cut_at d s' with
           | Some (a, b) => Some (String c a, b)
           | None => None
           end
  end.

(** [s] cut at the first place where [p] stands: what is before it, the
    text that stands there, and what is after it. *)
Fixpoint cut_at_text (p s : string) : option (string * string * string) :=
  match strip_prefix true p s with
  | Some rest => Some (EmptyString, take (length p) s, rest)
  | None =>
      match s with
      | EmptyString => None
      | String c s' =>
          match cut_at_text p s' with
          | Some (a, o, b) => Some (String c a, o, b)
          | None => None
          end
      end
  end.

(** [p] stands somewhere in [s]. *)
Definition occurs (p s : string) : bool :=
  match cut_at_text p s with Some _ => true | None => false end.

(** What the first, second and fifth pattern take at the start of [s]:
    [s] starts with [<name]; the tag runs to the first [>] after that,
    whatever is in between (so [<mainframe>] opens a [main]); the element
    runs on to the first [</name>] after the tag. The text from [<name]
    through [</name>]. *)
Definition element_at (name s : string) : option string :=
  match strip_prefix true ("<" ++ name) s with
  | None => None
  | Some s1 =>
      match cut_at gt s1 with
      | None => None
      | Some (attrs, s2) =>
          match cut_at_text ("</" ++ name ++ ">") s2 with
          | None => None
          | Some (body, close, _) =>
              Some (take (length ("<" ++ name)) s ++ attrs ++ ">" ++ body ++ close)
          end
      end
  end.

(** From the value of a class attribute on: the value runs to the next
    double quote and [kw] stands in it; the tag runs on to the next [>];
    the element runs on to the first [</div>] after that. The text from the
    value through [</div>]. *)
Definition class_value_on (kw s : string) : option string :=
  match cut_at dq s with
  | None => None
  | Some (value, s3) =>
      if occurs kw value then
        match cut_at gt s3 with
        | None => None
        | Some (more, s4) =>
            match cut_at_text "</div>" s4 with
            | None => None
            | Some (body, close, _) =>
                Some (value ++ String dq (more ++ ">" ++ body ++ close))
            end
        end
      else None
  end.

(** [class=] and a double quote stand at the start of [s], and what
    follows is a class value with [kw] in it. *)
Definition class_here (kw s : string) : option string :=
  match strip_prefix true ("class=" ++ String dq EmptyString) s with
  | Some s2 =>
      option_map (append (take (length ("class=" ++ String dq EmptyString)) s))
                 (class_value_on kw s2)
  | None => None
  end.

(** The last place of [s], not after its first [>], from which [here]
    gives a text; the text from the start of [s]. *)
Fixpoint last_in_tag (here : string -> option string) (s : string) : option string :=
  match match s with
        | String c s' =>
            if Ascii.eqb c gt then None
            else option_map (String c) (last_in_tag here s')
        | EmptyString => None
        end
  with
  | Some m => Some m
  | None => here s
  end.

(** What the third and fourth pattern take at the start of [s]: [s]
    starts with [<div] (so [<divider] will do); before any [>], the text
    [class=] with a double quote stands (so [data-class=] will do), followed
    by a value up to the next double quote in which [kw] stands, the rest of
    the tag up to the next [>], and the element up to the first [</div>].
    Of several such places, the last one counts. *)
Definition div_class_at (kw s : string) : option string :=
  match strip_prefix true "<div" s with
  | Some s1 => option_map (append (take (length "<div") s)) (last_in_tag (class_here kw) s1)
  | None => None
  end.

(** The first place of [s] where there is something to take. *)
Fixpoint leftmost (at_ : string -> option string) (s : string) : option string :=
  match at_ s with
  | Some m => Some m
  | None =>
      match s with
      | EmptyString => None
      | String _ s' => leftmost at_ s'
      end
  end.

(** [s] without what [at_] takes, from left to right: where something is
    taken it is dropped and the reading goes on behind it. [skip] counts
    the characters still to be dropped. *)
Fixpoint without_from (at_ : string -> option string) (skip : nat) (s : string) : string :=
  match s with
  | EmptyString => EmptyString
  | String c s' =>
      match skip with
      | S k => without_from at_ k s'
      | O =>
          match at_ s with
          | Some (String _ m) => without_from at_ (length m) s'
          | _ => String c (without_from at_ 0 s')
          end
      end
  end.

Definition without (at_ : string -> option string) (s : string) : string :=
  without_from at_ 0 s.

(** The document without its [script] elements, and then without the
    [style] elements of what is left. *)
Definition stripped (html : string) : string :=
  without (element_at "style") (without (element_at "script") html).

(** The five places the text is looked for, in the order of their
    priority. *)
Definition places : list (string -> option string) :=
  [ element_at "article"; element_at "main";
    div_class_at "content"; div_class_at "post";
    element_at "body" ].

Fixpoint first_found (ps : list (string -> option string)) (clean : string) : option string :=
  match ps with
  | [] => None
  | at_ :: ps' =>
      match leftmost at_ clean with
      | Some m => Some m
      | None => first_found ps' clean
      end
  end.

(** The region: the leftmost text of the first place that has one, and
    the whole stripped document when none has. *)
Definition region (clean : string) : string :=
  match first_found places clean with
  | Some m => m
  | None => clean
  end.

(** Two pages on which the third pattern takes more than a [div] with a
    class "content". *)
Definition teaser_page : string :=
  "<div data-class=" ++ String dq EmptyString ++ "content" ++ String dq EmptyString
  ++ ">Teaser</div><p>Story</p>".

Definition divider_page : string :=
  "<divider class=" ++ String dq EmptyString ++ "content" ++ String dq EmptyString
  ++ ">X</divider><div>Y</div>".

End InWords.

(** * Properties *)

Arguments Extract.extractContent : simpl never.
Arguments insufficient : simpl never.
Arguments classify : simpl never.
Arguments summary_prompt : simpl never.
Arguments parse_reply : simpl never.
Arguments Str.of_nat : simpl never.

(** ** Reasoning about computations *)

Lemma bind_inv {A B : Type} (m : M A) (k : A -> M B) w o w' :
  bind m k w = (o, w') ->
  (exists a w1, m w = (Ok a, w1) /\ k a w1 = (o, w')) \/
  (exists e, m w = (Throw e, w') /\ o = Throw e).
Proof.
  unfold bind. destruct (m w) as [[a | e] w1]; intros H.
  - left. eauto.
  - right. inversion H; subst. eauto.
Qed.

Lemma try_catch_inv {A : Type} (m : M A) (h : JsError -> M A) w o w' :
  try_catch m h w = (o, w') ->
  (exists a, m w = (Ok a, w') /\ o = Ok a) \/
  (exists e w1, m w = (Throw e, w1) /\ h e w1 = (o, w')).
Proof.
  unfold try_catch. destruct (m w) as [[a | e] w1]; intros H.
  - left. inversion H; subst. eauto.
  - right. eauto.
Qed.

Lemma bind_ok {A B : Type} (m : M A) (k : A -> M B) w a w1 :
  m w = (Ok a, w1) -> bind m k w = k a w1.
Proof. unfold bind. intros ->. reflexivity. Qed.

Lemma try_catch_ok {A : Type} (m : M A) h w a w1 :
  m w = (Ok a, w1) -> try_catch m h w = (Ok a, w1).
Proof. unfold try_catch. intros ->. reflexivity. Qed.

Lemma mails_emit e w : is_email e = false -> mails (emit e w) = mails w.
Proof.
  intros H. unfold mails, emit. simpl. rewrite filter_app. simpl. rewrite H.
  apply app_nil_r.
Qed.

Section KeepsRules.
Variable R : World -> World -> Prop.
Hypothesis R_refl : forall w, R w w.
Hypothesis R_trans : forall a b c, R a b -> R b c -> R a c.

Lemma Keeps_ret {A : Type} (a : A) : Keeps R (ret a).
Proof. intros w o w' H. inversion H; subst. apply R_refl. Qed.

Lemma Keeps_throw {A : Type} (e : JsError) : Keeps R (@throw A e).
Proof. intros w o w' H. inversion H; subst. apply R_refl. Qed.

Lemma Keeps_bind {A B : Type} (m : M A) (k : A -> M B) :
  Keeps R m -> (forall a, Keeps R (k a)) -> Keeps R (bind m k).
Proof.
  intros Hm Hk w o w' H.
  destruct (bind_inv _ _ _ _ _ H) as [(a & w1 & H1 & H2) | (e & H1 & _)].
  - eapply R_trans; [eapply Hm | eapply Hk]; eauto.
  - eapply Hm; eauto.
Qed.

Lemma Keeps_try_catch {A : Type} (m : M A) (h : JsError -> M A) :
  Keeps R m -> (forall e, Keeps R (h e)) -> Keeps R (try_catch m h).
Proof.
  intros Hm Hh w o w' H.
  destruct (try_catch_inv _ _ _ _ _ H) as [(a & H1 & _) | (e & w1 & H1 & H2)].
  - eapply Hm; eauto.
  - eapply R_trans; [eapply Hm | eapply Hh]; eauto.
Qed.

Lemma Keeps_for_each {A : Type} (l : list A) (body : A -> M unit) :
  (forall x, Keeps R (body x)) -> Keeps R (for_each l body).
Proof.
  intros Hb. induction l as [| x l IH]; simpl.
  - apply Keeps_ret.
  - apply Keeps_bind; auto.
Qed.

Lemma Keeps_await {A : Type} (o : Outcome A) : Keeps R (await o).
Proof. destruct o; [apply Keeps_ret | apply Keeps_throw]. Qed.

Lemma Keeps_defined {A : Type} (o : option A) e : Keeps R (defined o e).
Proof. destruct o; [apply Keeps_ret | apply Keeps_throw]. Qed.

Lemma Keeps_id_of (r : option UrlRow) : Keeps R (id_of r).
Proof. destruct r; [apply Keeps_ret | apply Keeps_throw]. Qed.

Lemma Keeps_reply c j : Keeps R (reply c j).
Proof. apply Keeps_ret. Qed.

(** A step that leaves the database alone is kept by any relation that
    looks at the database only. *)
Hypothesis R_quiet : forall w w', db w' = db w -> mails w' = mails w -> R w w'.

Lemma Keeps_now env : Keeps R (now env).
Proof. intros w o w' H. inversion H; subst. apply R_quiet; reflexivity. Qed.

Lemma Keeps_fetch_page env u : Keeps R (fetch_page env u).
Proof.
  intros w o w' H. unfold fetch_page in H.
  destruct (http_get env (trace w) u); inversion H; subst;
    (apply R_quiet; [reflexivity | apply mails_emit; reflexivity]).
Qed.

Lemma Keeps_ai_call env s u : Keeps R (ai_call env s u).
Proof.
  intros w o w' H. unfold ai_call in H.
  destruct (ai_run env (trace w) s u); inversion H; subst;
    (apply R_quiet; [reflexivity | apply mails_emit; reflexivity]).
Qed.

Lemma Keeps_console_error msg : Keeps R (console_error msg).
Proof. intros w o w' H. inversion H; subst. apply R_quiet; reflexivity. Qed.

Lemma Keeps_post_callback env t p : Keeps R (post_callback env t p).
Proof.
  intros w o w' H. unfold post_callback in H.
  destruct (callback_post env (trace w) t); inversion H; subst;
    (apply R_quiet; [reflexivity | apply (mails_emit (EvCallback t p)); reflexivity]).
Qed.

Lemma Keeps_select_by_url u : Keeps R (Store.select_by_url u).
Proof. intros w o w' H. inversion H; subst. apply R_refl. Qed.

Lemma Keeps_generateSummary env c l : Keeps R (generateSummary env c l).
Proof.
  unfold generateSummary. apply Keeps_try_catch.
  - apply Keeps_bind; [apply Keeps_ai_call | intros; apply Keeps_ret].
  - intros. apply Keeps_bind; [apply Keeps_console_error | intros; apply Keeps_ret].
Qed.

End KeepsRules.

(** The one step that sends a mail is kept by a relation that looks at
    the database only. *)
Lemma Keeps_resend_call (R : World -> World -> Prop) env k t s h :
  (forall w w', db w' = db w -> R w w') -> Keeps R (resend_call env k t s h).
Proof.
  intros R_db w o w' H. unfold resend_call in H.
  destruct (resend_post env (trace w) k t s h); inversion H; subst; apply R_db; reflexivity.
Qed.

(** ** The store invariant *)

Lemma keeps_wf_refl w : keeps_wf w w.
Proof. unfold keeps_wf. auto. Qed.

Lemma keeps_wf_trans a b c : keeps_wf a b -> keeps_wf b c -> keeps_wf a c.
Proof. unfold keeps_wf. auto. Qed.

Lemma keeps_wf_db w w' : db w' = db w -> keeps_wf w w'.
Proof. unfold keeps_wf. intros ->. auto. Qed.

Lemma keeps_wf_quiet w w' : db w' = db w -> mails w' = mails w -> keeps_wf w w'.
Proof. intros E _. apply keeps_wf_db. exact E. Qed.

Lemma has_url_false u rows :
  Store.has_url u rows = false -> ~ In u (map url rows).
Proof.
  unfold Store.has_url. induction rows as [| r rows IH]; simpl; intros H.
  - tauto.
  - apply orb_false_iff in H. destruct H as [H1 H2].
    intros [E | E].
    + subst u. rewrite String.eqb_refl in H1. discriminate.
    + exact (IH H2 E).
Qed.

Lemma with_url_nil u rows :
  Store.with_url u rows = [] -> Store.has_url u rows = false.
Proof.
  unfold Store.with_url, Store.has_url. induction rows as [| r rows IH]; simpl.
  - reflexivity.
  - destruct (String.eqb (url r) u); simpl; [discriminate | exact IH].
Qed.

Lemma find_url_none u d :
  Store.find_url u d = None -> Store.has_url u (urls d) = false.
Proof.
  unfold Store.find_url. intros H. apply with_url_nil.
  destruct (Store.with_url u (urls d)); [reflexivity | discriminate].
Qed.

Lemma find_url_some u d r :
  Store.find_url u d = Some r -> In r (urls d) /\ url r = u.
Proof.
  unfold Store.find_url, Store.with_url. intros H.
  assert (Hin : In r (filter (fun r0 => String.eqb (url r0) u) (urls d))).
  { destruct (filter _ _); simpl in H; [discriminate |]. inversion H. left. reflexivity. }
  apply filter_In in Hin. destruct Hin as [Hin E]. apply String.eqb_eq in E. auto.
Qed.

Lemma set_pending_key t : keeps_key (set_pending t).
Proof. intros r. split; reflexivity. Qed.

Lemma set_failed_key m t : keeps_key (set_failed m t).
Proof. intros r. split; reflexivity. Qed.

Lemma set_completed_key a b c d e f g : keeps_key (set_completed a b c d e f g).
Proof. intros r. split; reflexivity. Qed.

Lemma map_patch_id i set rows :
  keeps_key set ->
  map id (map (fun r => if id r =? i then set r else r) rows) = map id rows.
Proof.
  intros K. rewrite map_map. apply map_ext. intros r.
  destruct (id r =? i); [apply K | reflexivity].
Qed.

Lemma map_patch_url i set rows :
  keeps_key set ->
  map url (map (fun r => if id r =? i then set r else r) rows) = map url rows.
Proof.
  intros K. rewrite map_map. apply map_ext. intros r.
  destruct (id r =? i); [apply K | reflexivity].
Qed.

Lemma Keeps_wf_update i set :
  keeps_key set -> Keeps keeps_wf (Store.update_url i set).
Proof.
  intros K w o w' H [Hi Hu Hn]. unfold Store.update_url in H. inversion H; subst; clear H.
  constructor; simpl.
  - rewrite map_patch_id; assumption.
  - rewrite map_patch_url; assumption.
  - rewrite Forall_map. eapply Forall_impl; [| exact Hn]. intros r Hr. simpl in *.
    destruct (id r =? i); [rewrite (proj1 (K r)) |]; exact Hr.
Qed.

Lemma Keeps_wf_insert env u st err c t :
  Keeps keeps_wf (Store.insert_url env u st err c t).
Proof.
  intros w o w' H [Hi Hu Hn]. unfold Store.insert_url in H.
  destruct (Store.has_url u (urls (db w))) eqn:E.
  - inversion H; subst. constructor; assumption.
  - inversion H; subst; clear H. constructor; simpl.
    + rewrite map_app. simpl.
      apply Permutation_NoDup with (l := next_url_id (db w) :: map id (urls (db w))).
      * apply Permutation_cons_append.
      * constructor; [| exact Hi]. intros Hin. apply in_map_iff in Hin.
        destruct Hin as (r & E1 & Hin). rewrite Forall_forall in Hn.
        specialize (Hn r Hin). lia.
    + rewrite map_app. simpl.
      apply Permutation_NoDup with (l := u :: map url (urls (db w))).
      * apply Permutation_cons_append.
      * constructor; [apply has_url_false; exact E | exact Hu].
    + apply Forall_app. split.
      * eapply Forall_impl; [| exact Hn]. intros r Hr. simpl in *. lia.
      * constructor; [simpl; lia | constructor].
Qed.

Lemma Keeps_wf_insert_tag env o t c cr :
  Keeps keeps_wf (Store.insert_tag env o t c cr).
Proof.
  intros w r w' H [Hi Hu Hn]. unfold Store.insert_tag in H.
  destruct (Store.has_id o (urls (db w))); inversion H; subst; constructor; assumption.
Qed.

Lemma NoDup_map_filter {A B : Type} (f : A -> B) (p : A -> bool) l :
  NoDup (map f l) -> NoDup (map f (filter p l)).
Proof.
  induction l as [| x l IH]; simpl; intros H.
  - constructor.
  - inversion H as [| ? ? Hx Hl]; subst. destruct (p x); simpl.
    + constructor; [| auto]. intros Hin. apply Hx.
      apply in_map_iff in Hin. destruct Hin as (y & E & Hy).
      apply filter_In in Hy. rewrite <- E. apply in_map. tauto.
    + auto.
Qed.

Lemma Keeps_wf_delete i : Keeps keeps_wf (Store.delete_url i).
Proof.
  intros w r w' H [Hi Hu Hn]. unfold Store.delete_url in H. inversion H; subst; clear H.
  constructor; simpl.
  - apply NoDup_map_filter. exact Hi.
  - apply NoDup_map_filter. exact Hu.
  - rewrite Forall_forall in *. intros r Hr. apply filter_In in Hr. apply Hn. tauto.
Qed.

(** Decompose a computation along its syntax, for a relation [R] given
    with its three closure lemmas. *)
Ltac keeps_step R Hrefl Htrans Hdb :=
  first
    [ apply (Keeps_ret R Hrefl)
    | apply (Keeps_throw R Hrefl)
    | apply (Keeps_reply R Hrefl)
    | apply (Keeps_await R Hrefl)
    | apply (Keeps_defined R Hrefl)
    | apply (Keeps_id_of R Hrefl)
    | apply (Keeps_now R Hdb)
    | apply (Keeps_fetch_page R Hdb)
    | apply (Keeps_console_error R Hdb)
    | apply (Keeps_post_callback R Hdb)
    | apply (Keeps_select_by_url R Hrefl)
    | apply (Keeps_generateSummary R Hrefl Htrans Hdb)
    | apply (Keeps_bind R Htrans)
    | apply (Keeps_try_catch R Htrans)
    | apply (Keeps_for_each R Hrefl Htrans)
    | match goal with
      | |- forall _, _ => intro
      | |- Keeps _ (match ?x with _ => _ end) => destruct x
      end ].

Ltac keeps_wf_tac :=
  cbv zeta;
  repeat first
    [ keeps_step keeps_wf keeps_wf_refl keeps_wf_trans keeps_wf_quiet
    | apply Keeps_wf_insert
    | apply Keeps_wf_insert_tag
    | apply Keeps_wf_update;
      first [ apply set_pending_key | apply set_failed_key | apply set_completed_key ] ].

Lemma Keeps_wf_analyzeUrl env u options : Keeps keeps_wf (analyzeUrl env u options).
Proof.
  unfold analyzeUrl, enter, run_steps, commit_success, insert_tags, on_failure.
  keeps_wf_tac.
Qed.

(** ** How [analyzeUrl] starts *)

Lemma enter_cached env u w existing :
  Store.find_url u (db w) = Some existing ->
  status existing = completed ->
  enter env u w = (Ok (Cached existing), w).
Proof.
  intros F S. unfold enter, bind, Store.select_by_url. unfold Store.find_url in F.
  rewrite F, S. reflexivity.
Qed.

Lemma enter_existing env u w existing :
  Store.find_url u (db w) = Some existing ->
  status existing <> completed ->
  enter env u w = (Ok (Started (Some (as_pending existing))), marked_pending env existing w).
Proof.
  intros F S. unfold enter, bind, Store.select_by_url. unfold Store.find_url in F.
  rewrite F. destruct (status existing) eqn:E; try congruence; reflexivity.
Qed.

Lemma enter_fresh env u w :
  Store.find_url u (db w) = None ->
  enter env u w = (Ok (Started (Some (pending_row env u w))), inserted_pending env u w).
Proof.
  intros F. pose proof (find_url_none _ _ F) as N.
  unfold enter, bind, Store.select_by_url. unfold Store.find_url in F.
  rewrite F. unfold now, Store.insert_url. simpl. rewrite N. reflexivity.
Qed.

Lemma analyzeUrl_cached env u options w existing :
  Store.find_url u (db w) = Some existing ->
  status existing = completed ->
  analyzeUrl env u options w = (Ok (Some existing), w).
Proof.
  intros F S. unfold analyzeUrl.
  rewrite (bind_ok _ _ _ _ _ (try_catch_ok _ _ _ _ _ (enter_cached env u w existing F S))).
  reflexivity.
Qed.

Lemma analyzeUrl_existing env u options w existing :
  Store.find_url u (db w) = Some existing ->
  status existing <> completed ->
  analyzeUrl env u options w
  = try_catch (run_steps env u options (Some (as_pending existing)))
              (on_failure env u (Some (as_pending existing)))
              (marked_pending env existing w).
Proof.
  intros F S. unfold analyzeUrl.
  rewrite (bind_ok _ _ _ _ _ (try_catch_ok _ _ _ _ _ (enter_existing env u w existing F S))).
  reflexivity.
Qed.

Lemma analyzeUrl_fresh env u options w :
  Store.find_url u (db w) = None ->
  analyzeUrl env u options w
  = try_catch (run_steps env u options (Some (pending_row env u w)))
              (on_failure env u (Some (pending_row env u w)))
              (inserted_pending env u w).
Proof.
  intros F. unfold analyzeUrl.
  rewrite (bind_ok _ _ _ _ _ (try_catch_ok _ _ _ _ _ (enter_fresh env u w F))).
  reflexivity.
Qed.

Lemma analyzeUrl_started env u options w :
  not_cached u (db w) ->
  analyzeUrl env u options w
  = try_catch (run_steps env u options (Some (working_record env u w)))
              (on_failure env u (Some (working_record env u w)))
              (started env u w).
Proof.
  intros N. unfold working_record, started.
  destruct (Store.find_url u (db w)) as [existing |] eqn:F.
  - apply analyzeUrl_existing; auto.
  - apply analyzeUrl_fresh; auto.
Qed.

Lemma started_trace env u w : trace (started env u w) = trace w.
Proof. unfold started. destruct (Store.find_url u (db w)); reflexivity. Qed.

Lemma started_tags env u w : tags (db (started env u w)) = tags (db w).
Proof. unfold started. destruct (Store.find_url u (db w)); reflexivity. Qed.

(** ** Looking rows up *)

Lemma in_has_id r rows : In r rows -> Store.has_id (id r) rows = true.
Proof.
  intros Hin. unfold Store.has_id. apply existsb_exists. exists r.
  split; [exact Hin | apply Nat.eqb_refl].
Qed.

Lemma has_id_map i f rows :
  (forall r, id (f r) = id r) ->
  Store.has_id i (map f rows) = Store.has_id i rows.
Proof.
  intros K. unfold Store.has_id. induction rows as [| r rows IH]; simpl.
  - reflexivity.
  - rewrite K, IH. reflexivity.
Qed.

Lemma has_id_app i a b :
  Store.has_id i (a ++ b) = Store.has_id i a || Store.has_id i b.
Proof. unfold Store.has_id. apply existsb_app. Qed.

(** With [id] a key, the rows of a given id are that one row. *)
Lemma with_id_unique rows r :
  NoDup (map id rows) -> In r rows -> with_id (id r) rows = [r].
Proof.
  unfold with_id. induction rows as [| x rows IH]; simpl; intros N Hin.
  - contradiction.
  - inversion N as [| ? ? Hx Hr]; subst. destruct Hin as [E | Hin].
    + subst x. rewrite Nat.eqb_refl. f_equal.
      clear IH N Hr. induction rows as [| y rows IH]; simpl; [reflexivity |].
      destruct (id y =? id r) eqn:E.
      * apply Nat.eqb_eq in E. exfalso. apply Hx. simpl. auto.
      * apply IH. intros Hin. apply Hx. simpl. auto.
    + destruct (id x =? id r) eqn:E.
      * apply Nat.eqb_eq in E. exfalso. apply Hx. rewrite E. apply in_map. exact Hin.
      * auto.
Qed.

(** The first row found under a url is still the first one after a patch
    by id, and carries the patch when its id is the patched one. *)
Lemma find_url_patch u i set rows r :
  keeps_key set ->
  hd_error (Store.with_url u rows) = Some r ->
  hd_error (Store.with_url u (map (fun x => if id x =? i then set x else x) rows))
  = Some (if id r =? i then set r else r).
Proof.
  intros K. unfold Store.with_url. induction rows as [| x rows IH]; simpl; intros H.
  - discriminate.
  - assert (U : url (if id x =? i then set x else x) = url x).
    { destruct (id x =? i); [apply K | reflexivity]. }
    rewrite U. destruct (String.eqb (url x) u); simpl in *.
    + inversion H; subst. reflexivity.
    + auto.
Qed.

Lemma find_url_app_new u rows r :
  Store.with_url u rows = [] -> url r = u ->
  hd_error (Store.with_url u (rows ++ [r])) = Some r.
Proof.
  intros H E. unfold Store.with_url in *. rewrite filter_app, H. simpl.
  rewrite E, String.eqb_refl. reflexivity.
Qed.

(** ** The success commit *)

Lemma insert_tags_ok env r l : forall w,
  Store.has_id (id r) (urls (db w)) = true ->
  insert_tags env (Some r) l w = (Ok tt, tagged env (id r) l w).
Proof.
  unfold insert_tags. induction l as [| t l IH]; intros w H.
  - simpl. unfold ret, tagged. simpl. rewrite app_nil_r.
    destruct w as [[us ts n1 n2] c tr co]. reflexivity.
  - simpl. unfold bind at 1. unfold bind at 1. simpl.
    unfold bind at 1. simpl. unfold Store.insert_tag at 1. simpl. rewrite H.
    rewrite IH by exact H. unfold tagged. simpl.
    rewrite <- app_assoc. simpl. rewrite !Nat.add_succ_r. reflexivity.
Qed.

Lemma with_id_patch i set rows :
  keeps_key set ->
  with_id i (map (fun r => if id r =? i then set r else r) rows) = map set (with_id i rows).
Proof.
  intros K. unfold with_id. induction rows as [| r rows IH]; simpl.
  - reflexivity.
  - destruct (id r =? i) eqn:E.
    + rewrite (proj1 (K r)), E. simpl. f_equal. exact IH.
    + rewrite E. exact IH.
Qed.

Lemma with_id_head i rows :
  Store.has_id i rows = true -> exists r, hd_error (with_id i rows) = Some r /\ id r = i.
Proof.
  unfold Store.has_id, with_id. induction rows as [| x rows IH]; simpl; intros H.
  - discriminate.
  - destruct (id x =? i) eqn:E.
    + exists x. split; [reflexivity | apply Nat.eqb_eq; exact E].
    + simpl in H. auto.
Qed.

Lemma commit_success_ok env u options rec ex s w :
  Store.has_id (id rec) (urls (db w)) = true ->
  exists r0,
    hd_error (with_id (id rec) (urls (db w))) = Some r0 /\
    commit_success env u options (Some rec) ex s w
    = (Ok (Some (completed_patch env u ex s w r0)), committed env u options (id rec) ex s w).
Proof.
  intros H. destruct (with_id_head _ _ H) as (r0 & Hr0 & Hid).
  exists r0. split; [exact Hr0 |].
  unfold commit_success. cbv zeta.
  unfold bind at 1. unfold now at 1. simpl.
  unfold bind at 1. unfold now at 1. simpl.
  unfold bind at 1. simpl.
  unfold bind at 1. unfold Store.update_url at 1. simpl.
  pose proof (with_id_patch (id rec) (completed_patch env u ex s w) (urls (db w))
                            (set_completed_key _ _ _ _ _ _ _)) as P.
  unfold with_id at 1, completed_patch in P. rewrite P. clear P.
  fold (completed_patch env u ex s w).
  destruct (with_id (id rec) (urls (db w))) as [| r1 rest] eqn:E; [discriminate |].
  simpl in Hr0. inversion Hr0; subst r1. simpl.
  unfold committed.
  destruct (truthy (generate_tags options) && (0 <? List.length (sum_tags s))).
  - unfold bind at 1. rewrite insert_tags_ok.
    + change (id (completed_patch env u ex s w r0)) with (id r0). rewrite Hid. reflexivity.
    + change (id (completed_patch env u ex s w r0)) with (id r0). rewrite Hid.
      simpl. rewrite has_id_map.
      * exact H.
      * intros r. destruct (id r =? id rec); reflexivity.
  - reflexivity.
Qed.

(** ** The failure commit *)

Lemma on_failure_record {A : Type} env u rec e w :
  @on_failure A env u (Some rec) e w = (Throw e, failure_committed env (id rec) e w).
Proof. reflexivity. Qed.

(** ** The summarizer never throws *)

Lemma generateSummary_eq env c l w :
  generateSummary env c l w = (Ok (summarized env c l (trace w)), after_summary env c l w).
Proof.
  unfold generateSummary, summarized, after_summary, try_catch, bind, ai_call.
  destruct (ai_run env (trace w) system_prompt (summary_prompt c l)); reflexivity.
Qed.

Lemma after_summary_db env c l w : db (after_summary env c l w) = db w.
Proof. unfold after_summary. destruct (ai_run _ _ _ _); reflexivity. Qed.

Lemma after_summary_clock env c l w : clock (after_summary env c l w) = clock w.
Proof. unfold after_summary. destruct (ai_run _ _ _ _); reflexivity. Qed.

(** ** The steps before the commit *)

Lemma run_steps_eq env u options r w :
  run_steps env u options r w
  = match fetch_extract env u (trace w) with
    | Throw e => (Throw e, emit (EvFetch u) w)
    | Ok ex =>
        commit_success env u options r ex
          (summarized env (Extract.ex_content ex) (summary_length options)
                      (trace w ++ [EvFetch u]))
          (after_summary env (Extract.ex_content ex) (summary_length options)
                         (emit (EvFetch u) w))
    end.
Proof.
  unfold run_steps, fetch_extract, bind at 1, fetch_page.
  destruct (http_get env (trace w) u) as [response | e]; [| reflexivity].
  destruct (negb (resp_ok response)); [reflexivity |].
  destruct (resp_text response) as [html | e]; [| reflexivity].
  unfold bind at 1, await, ret. cbv zeta.
  destruct (insufficient (Extract.ex_content (Extract.extractContent html))); [reflexivity |].
  unfold bind at 1. rewrite generateSummary_eq. reflexivity.
Qed.

(** ** One run of the pipeline, end to end *)

Lemma cached_or_not u d :
  (exists existing, Store.find_url u d = Some existing /\ status existing = completed)
  \/ not_cached u d.
Proof.
  unfold not_cached. destruct (Store.find_url u d) as [existing |].
  - destruct (status existing) eqn:E.
    + right. intros r H. inversion H; subst. congruence.
    + left. eauto.
    + right. intros r H. inversion H; subst. congruence.
  - right. intros r H. discriminate.
Qed.

Lemma started_find env u w :
  not_cached u (db w) ->
  exists r1,
    Store.find_url u (db (started env u w)) = Some r1
    /\ id r1 = id (working_record env u w)
    /\ status r1 = pending /\ errorMessage r1 = None.
Proof.
  intros N. unfold started, working_record.
  destruct (Store.find_url u (db w)) as [existing |] eqn:F.
  - exists (set_pending (iso_time env (clock w)) existing).
    split; [| repeat split].
    unfold Store.find_url, marked_pending. simpl.
    rewrite (find_url_patch u (id existing) (set_pending (iso_time env (clock w)))
                            (urls (db w)) existing (set_pending_key _) F).
    rewrite Nat.eqb_refl. reflexivity.
  - exists (pending_row env u w). split; [| repeat split].
    unfold Store.find_url, inserted_pending. simpl.
    apply find_url_app_new; [| reflexivity].
    unfold Store.find_url in F. destruct (Store.with_url u (urls (db w))); [reflexivity | discriminate].
Qed.

Lemma started_has_record env u w :
  Store.has_id (id (working_record env u w)) (urls (db (started env u w))) = true.
Proof.
  unfold started, working_record.
  destruct (Store.find_url u (db w)) as [existing |] eqn:F.
  - apply find_url_some in F. destruct F as [Hin _].
    unfold marked_pending. simpl. rewrite has_id_map.
    + apply in_has_id. exact Hin.
    + intros r. destruct (id r =? id existing); reflexivity.
  - unfold inserted_pending. simpl. rewrite has_id_app.
    apply orb_true_iff. right. simpl. rewrite Nat.eqb_refl. reflexivity.
Qed.

Lemma summarizing_db env u options ex w :
  db (summarizing env u options ex w) = db (started env u w).
Proof. unfold summarizing. rewrite after_summary_db. reflexivity. Qed.

(** Every run on a url that is not cached: the fatal step's error after
    the failure commit, or the updated record after the success commit. *)
Lemma analyzeUrl_run env u options w :
  not_cached u (db w) ->
  exists r0,
    hd_error (with_id (id (working_record env u w)) (urls (db (started env u w)))) = Some r0
    /\ analyzeUrl env u options w
       = match fetch_extract env u (trace w) with
         | Throw e =>
             (Throw e,
              failure_committed env (id (working_record env u w)) e
                                (emit (EvFetch u) (started env u w)))
         | Ok ex =>
             let s := summarized env (Extract.ex_content ex) (summary_length options)
                                 (trace w ++ [EvFetch u]) in
             let w1 := summarizing env u options ex w in
             (Ok (Some (completed_patch env u ex s w1 r0)),
              committed env u options (id (working_record env u w)) ex s w1)
         end.
Proof.
  intros N.
  pose proof (started_has_record env u w) as H.
  destruct (with_id_head _ _ H) as (r0 & Hr0 & _).
  exists r0. split; [exact Hr0 |].
  rewrite (analyzeUrl_started env u options w N).
  unfold try_catch. rewrite run_steps_eq, started_trace.
  destruct (fetch_extract env u (trace w)) as [ex | e].
  - cbv zeta.
    assert (H' : Store.has_id (id (working_record env u w))
                   (urls (db (summarizing env u options ex w))) = true).
    { rewrite summarizing_db. exact H. }
    destruct (commit_success_ok env u options (working_record env u w) ex
                (summarized env (Extract.ex_content ex) (summary_length options)
                            (trace w ++ [EvFetch u]))
                (summarizing env u options ex w) H') as (r0' & Hr0' & E).
    rewrite summarizing_db, Hr0 in Hr0'. inversion Hr0'; subst r0'.
    unfold summarizing in *. rewrite E. reflexivity.
  - reflexivity.
Qed.

(** With the store invariant, the row the commit works on is the record
    found under the url. *)
Lemma Keeps_wf_enter env u : Keeps keeps_wf (enter env u).
Proof. unfold enter. keeps_wf_tac. Qed.

Lemma started_wf env u w : wf_db (db w) -> not_cached u (db w) -> wf_db (db (started env u w)).
Proof.
  intros W N. unfold started.
  destruct (Store.find_url u (db w)) as [existing |] eqn:F.
  - assert (S : status existing <> completed) by (apply N; exact F).
    exact (Keeps_wf_enter env u w _ _ (enter_existing env u w existing F S) W).
  - exact (Keeps_wf_enter env u w _ _ (enter_fresh env u w F) W).
Qed.

Lemma started_record env u w :
  wf_db (db w) -> not_cached u (db w) ->
  exists r1,
    hd_error (with_id (id (working_record env u w)) (urls (db (started env u w)))) = Some r1
    /\ Store.find_url u (db (started env u w)) = Some r1
    /\ status r1 = pending /\ errorMessage r1 = None.
Proof.
  intros W N. destruct (started_find env u w N) as (r1 & F & I & S & E).
  exists r1. split; [| auto].
  destruct (find_url_some _ _ _ F) as [Hin _].
  rewrite <- I. rewrite (with_id_unique _ _ (wf_ids _ (started_wf env u w W N)) Hin).
  reflexivity.
Qed.

Lemma committed_urls env u options i ex s w :
  urls (db (committed env u options i ex s w))
  = map (fun r => if id r =? i then completed_patch env u ex s w r else r) (urls (db w)).
Proof.
  unfold committed. destruct (truthy (generate_tags options) && _); reflexivity.
Qed.

(** A run that returns a record leaves it stored under the url, completed. *)
Lemma analyzeUrl_ok_found env u options w r w' :
  wf_db (db w) ->
  analyzeUrl env u options w = (Ok (Some r), w') ->
  Store.find_url u (db w') = Some r /\ status r = completed.
Proof.
  intros W H. destruct (cached_or_not u (db w)) as [(existing & F & S) | N].
  - rewrite (analyzeUrl_cached env u options w existing F S) in H.
    inversion H; subst. auto.
  - destruct (analyzeUrl_run env u options w N) as (r0 & Hr0 & E).
    destruct (started_record env u w W N) as (r1 & Hr1 & F1 & _).
    rewrite Hr0 in Hr1. inversion Hr1; subst r1; clear Hr1.
    rewrite E in H. destruct (fetch_extract env u (trace w)) as [ex | e]; [| discriminate].
    cbv zeta in H. inversion H; subst; clear H. split; [| reflexivity].
    unfold Store.find_url. rewrite committed_urls, summarizing_db.
    erewrite find_url_patch;
      [| unfold completed_patch; apply set_completed_key | exact F1].
    destruct (started_find env u w N) as (r1 & F1' & I & _).
    rewrite F1 in F1'. inversion F1'; subst r1. rewrite I, Nat.eqb_refl. reflexivity.
Qed.

(** ** Concrete inputs *)

Lemma wf_empty : wf_db empty_db.
Proof. constructor; simpl; constructor. Qed.

(** ** C1 and C9: a completed record is returned as it is *)

(** C1. When the record stored for the url is completed, [analyzeUrl]
    returns that record and leaves the whole state as it was, whatever the
    options: the trace is the same, so no page was fetched and no model was
    called. And after a call that returned a record, any further call for
    the url returns that very record (summary and content with it) and
    changes nothing, the tag rows included. *)
Theorem analyze_completed_is_cached :
  (forall env u options w existing,
      Store.find_url u (db w) = Some existing ->
      status existing = completed ->
      analyzeUrl env u options w = (Ok (Some existing), w))
  /\
  (forall env1 options1 env2 options2 u w r w1,
      wf_db (db w) ->
      analyzeUrl env1 u options1 w = (Ok (Some r), w1) ->
      analyzeUrl env2 u options2 w1 = (Ok (Some r), w1)).
Proof.
  split.
  - intros. apply analyzeUrl_cached; assumption.
  - intros env1 options1 env2 options2 u w r w1 W H.
    destruct (analyzeUrl_ok_found env1 u options1 w r w1 W H) as [F S].
    apply analyzeUrl_cached; assumption.
Qed.

Lemma analyze_completed_is_cached_witness :
  analyzeUrl Demo.env Demo.address no_options Demo.analysed
  = (Ok (Some Demo.done_row), Demo.analysed)
  /\ exists r w1,
      analyzeUrl Demo.env Demo.address no_options Demo.start = (Ok (Some r), w1)
      /\ analyzeUrl Demo.env_model_down Demo.address
                    {| generate_tags := Some true; summary_length := Some "long" |} w1
         = (Ok (Some r), w1).
Proof.
  split.
  - apply (proj1 analyze_completed_is_cached Demo.env Demo.address no_options
                 Demo.analysed Demo.done_row); reflexivity.
  - eexists. eexists. split.
    + vm_compute. reflexivity.
    + apply (proj2 analyze_completed_is_cached Demo.env no_options Demo.env_model_down
                   {| generate_tags := Some true; summary_length := Some "long" |}
                   Demo.address Demo.start).
      * exact wf_empty.
      * vm_compute. reflexivity.
Defined.

(** C9. When the record stored for the url is completed, [analyzeUrl]
    writes nothing: both tables and both counters are what they were,
    whatever the options. *)
Theorem analyze_completed_writes_nothing env u options w existing :
  Store.find_url u (db w) = Some existing ->
  status existing = completed ->
  let w' := snd (analyzeUrl env u options w) in
  urls (db w') = urls (db w) /\ tags (db w') = tags (db w)
  /\ next_url_id (db w') = next_url_id (db w)
  /\ next_tag_id (db w') = next_tag_id (db w).
Proof.
  intros F S. rewrite (analyzeUrl_cached env u options w existing F S). simpl. auto.
Qed.

Lemma analyze_completed_writes_nothing_witness :
  let w' := snd (analyzeUrl Demo.env Demo.address
                            {| generate_tags := Some true; summary_length := None |}
                            Demo.analysed) in
  urls (db w') = urls (db Demo.analysed) /\ tags (db w') = tags (db Demo.analysed)
  /\ next_url_id (db w') = next_url_id (db Demo.analysed)
  /\ next_tag_id (db w') = next_tag_id (db Demo.analysed).
Proof.
  apply (analyze_completed_writes_nothing Demo.env Demo.address
           {| generate_tags := Some true; summary_length := None |}
           Demo.analysed Demo.done_row); reflexivity.
Defined.

(** ** C2: too little content *)

Lemma failure_committed_find env u w e :
  not_cached u (db w) ->
  exists r1,
    Store.find_url u (db (started env u w)) = Some r1
    /\ Store.find_url u
         (db (failure_committed env (id (working_record env u w)) e
                                (emit (EvFetch u) (started env u w))))
       = Some (set_failed (message_of e) (iso_time env (clock (started env u w))) r1).
Proof.
  intros N. destruct (started_find env u w N) as (r1 & F & I & _).
  exists r1. split; [exact F |].
  unfold Store.find_url, failure_committed. simpl.
  erewrite find_url_patch; [| apply set_failed_key | exact F].
  rewrite I, Nat.eqb_refl. reflexivity.
Qed.

(** C2. When the page fetched for a url that is not cached answers 2xx
    and the text extracted from it is empty or shorter than 50 characters,
    [analyzeUrl] throws the "insufficient content" error, and the record of
    the url is left with status failed and that message as errorMessage. *)
Theorem insufficient_content_fails env u options w response html :
  not_cached u (db w) ->
  http_get env (trace w) u = Ok response ->
  resp_ok response = true ->
  resp_text response = Ok html ->
  (Extract.ex_content (Extract.extractContent html) = EmptyString
   \/ String.length (Extract.ex_content (Extract.extractContent html)) < 50) ->
  exists w' r,
    analyzeUrl env u options w
    = (Throw (ErrorObj "Insufficient content extracted from URL"), w')
    /\ Store.find_url u (db w') = Some r
    /\ status r = failed
    /\ errorMessage r = Some "Insufficient content extracted from URL"
    /\ errorMessage r <> None.
Proof.
  intros N G K T L.
  destruct (analyzeUrl_run env u options w N) as (r0 & _ & E).
  assert (X : fetch_extract env u (trace w)
              = Throw (ErrorObj "Insufficient content extracted from URL")).
  { unfold fetch_extract. rewrite G, K, T. unfold negb. cbv beta iota.
    replace (insufficient (Extract.ex_content (Extract.extractContent html))) with true;
      [reflexivity |].
    symmetry. unfold insufficient. destruct L as [L | L].
    - rewrite L. reflexivity.
    - apply orb_true_iff. right. apply Nat.ltb_lt. exact L. }
  rewrite X in E.
  destruct (failure_committed_find env u w
              (ErrorObj "Insufficient content extracted from URL") N) as (r1 & _ & F).
  eexists. eexists. split; [exact E |]. split; [exact F |].
  repeat split. discriminate.
Qed.

Lemma insufficient_content_fails_witness :
  exists w' r,
    analyzeUrl Demo.env_short_page Demo.address no_options Demo.start
    = (Throw (ErrorObj "Insufficient content extracted from URL"), w')
    /\ Store.find_url Demo.address (db w') = Some r
    /\ status r = failed
    /\ errorMessage r = Some "Insufficient content extracted from URL"
    /\ errorMessage r <> None.
Proof.
  apply (insufficient_content_fails Demo.env_short_page Demo.address no_options Demo.start
           {| resp_status := 200; resp_statusText := "OK";
              resp_text := Ok "<body><p>Too short</p></body>" |}
           "<body><p>Too short</p></body>").
  - intros r H. discriminate.
  - reflexivity.
  - reflexivity.
  - reflexivity.
  - right. vm_compute. lia.
Defined.

(** ** C3: a model that throws *)

Lemma fetch_extract_ok env u tr response html :
  http_get env tr u = Ok response ->
  resp_ok response = true ->
  resp_text response = Ok html ->
  50 <= String.length (Extract.ex_content (Extract.extractContent html)) ->
  fetch_extract env u tr = Ok (Extract.extractContent html).
Proof.
  intros G K T L. unfold fetch_extract. rewrite G, K, T. unfold negb. cbv beta iota.
  replace (insufficient (Extract.ex_content (Extract.extractContent html))) with false;
    [reflexivity |].
  symmetry. unfold insufficient. apply orb_false_iff. split.
  - destruct (Extract.ex_content (Extract.extractContent html)); [simpl in L; lia | reflexivity].
  - apply Nat.ltb_ge. exact L.
Qed.

(** C3. When the model call throws, [generateSummary] returns normally:
    the summary is the content cut to its first 300 characters followed by
    "..." when the content is longer than 300, the content itself
    otherwise, and there are no tags. [generateSummary] returns normally
    whatever the model does. So a run of [analyzeUrl] whose page is good and
    whose model call throws returns the record completed, with that summary,
    and stores no tag. *)
Theorem model_failure_degrades :
  (forall env c l w e,
      ai_run env (trace w) system_prompt (summary_prompt c l) = Throw e ->
      exists w',
        generateSummary env c l w
        = (Ok {| sum_summary := if 300 <? String.length c
                                then Str.take 300 c ++ "..." else c;
                 sum_tags := [] |}, w'))
  /\ (forall env c l w, exists s w', generateSummary env c l w = (Ok s, w'))
  /\ (forall env u options w response html e,
         wf_db (db w) ->
         not_cached u (db w) ->
         http_get env (trace w) u = Ok response ->
         resp_ok response = true ->
         resp_text response = Ok html ->
         50 <= String.length (Extract.ex_content (Extract.extractContent html)) ->
         ai_run env (trace w ++ [EvFetch u]) system_prompt
                (summary_prompt (Extract.ex_content (Extract.extractContent html))
                                (summary_length options)) = Throw e ->
         exists r w',
           let c := Extract.ex_content (Extract.extractContent html) in
           analyzeUrl env u options w = (Ok (Some r), w')
           /\ Store.find_url u (db w') = Some r
           /\ status r = completed
           /\ summary r = Some (if 300 <? String.length c then Str.take 300 c ++ "..." else c)
           /\ tags (db w') = tags (db w)).
Proof.
  split; [| split].
  - intros env c l w e H. rewrite generateSummary_eq. unfold summarized. rewrite H.
    eexists. reflexivity.
  - intros env c l w. rewrite generateSummary_eq. eauto.
  - intros env u options w response html e W N G K T L A.
    destruct (analyzeUrl_run env u options w N) as (r0 & _ & E).
    rewrite (fetch_extract_ok env u (trace w) response html G K T L) in E.
    cbv zeta in E.
    eexists. eexists. cbv zeta. split; [exact E |].
    destruct (analyzeUrl_ok_found env u options w _ _ W E) as [F S].
    split; [exact F |]. split; [exact S |].
    unfold summarized. rewrite A. split; [reflexivity |].
    unfold committed. simpl. rewrite andb_false_r. simpl.
    rewrite summarizing_db. apply started_tags.
Qed.

Lemma model_failure_degrades_witness :
  (exists w',
      generateSummary Demo.env_model_down "Some text." None Demo.start
      = (Ok {| sum_summary := "Some text."; sum_tags := [] |}, w'))
  /\ (exists s w', generateSummary Demo.env "Some text." (Some "short") Demo.start = (Ok s, w'))
  /\ (exists r w',
         analyzeUrl Demo.env_model_down Demo.address
                    {| generate_tags := Some true; summary_length := None |} Demo.start
         = (Ok (Some r), w')
         /\ Store.find_url Demo.address (db w') = Some r
         /\ status r = completed
         /\ summary r
            = Some "Hello world this is a sufficiently long test paragraph for extraction"
         /\ tags (db w') = []).
Proof.
  split; [| split].
  - apply (proj1 model_failure_degrades Demo.env_model_down "Some text." None Demo.start
                 (ErrorObj "model unavailable")).
    reflexivity.
  - apply (proj1 (proj2 model_failure_degrades)).
  - apply (proj2 (proj2 model_failure_degrades) Demo.env_model_down Demo.address
                 {| generate_tags := Some true; summary_length := None |} Demo.start
                 {| resp_status := 200; resp_statusText := "OK"; resp_text := Ok Demo.page |}
                 Demo.page (ErrorObj "model unavailable")).
    + exact wf_empty.
    + intros r H. discriminate.
    + reflexivity.
    + reflexivity.
    + reflexivity.
    + vm_compute. lia.
    + reflexivity.
Defined.

(** ** C4: what the failure commit writes *)

Lemma Forall2_map_same {A : Type} (P : A -> A -> Prop) (f : A -> A) (l : list A) :
  (forall x, P x (f x)) -> Forall2 P l (map f l).
Proof. intros H. induction l; simpl; constructor; auto. Qed.

(** C4. When [analyzeUrl] throws [e], the record of the url existed by
    then (it was stored before the call, or was inserted pending by this
    call), and the state the call leaves differs from that only as follows:
    the row of that record has status failed and errorMessage the message
    of [e], with every column other than status, errorMessage and updatedAt
    as it was; every other row and the tag table are as they were. The
    error thrown to the caller is [e] itself. *)
Theorem failure_commit_frame env u options w e w' :
  analyzeUrl env u options w = (Throw e, w') ->
  exists before rec,
    (before = urls (db w)
     \/ exists created updated,
         before = (urls (db w) ++ [Store.new_row (next_url_id (db w)) u pending None
                                                 created updated])%list)
    /\ In rec before /\ url rec = u
    /\ Forall2 (fun r r' => if id r =? id rec then failed_from e r r' else r' = r)
               before (urls (db w'))
    /\ tags (db w') = tags (db w).
Proof.
  intros H. destruct (cached_or_not u (db w)) as [(existing & F & S) | N].
  { rewrite (analyzeUrl_cached env u options w existing F S) in H. discriminate. }
  destruct (analyzeUrl_run env u options w N) as (r0 & _ & E).
  rewrite E in H. clear E.
  destruct (fetch_extract env u (trace w)) as [ex | e0]; [discriminate |].
  inversion H; subst; clear H.
  unfold failure_committed, started, working_record. simpl.
  destruct (Store.find_url u (db w)) as [existing |] eqn:F.
  - exists (urls (db w)), existing.
    destruct (find_url_some _ _ _ F) as [Hin Hu].
    split; [left; reflexivity |]. split; [exact Hin |]. split; [exact Hu |].
    split; [| reflexivity].
    simpl. rewrite map_map. apply Forall2_map_same. intros r.
    destruct (id r =? id existing) eqn:I.
    + simpl. rewrite I. repeat split.
    + rewrite I. reflexivity.
  - exists (urls (db w) ++ [pending_row env u w])%list, (pending_row env u w).
    split; [right; eexists; eexists; reflexivity |].
    split; [apply in_or_app; right; left; reflexivity |].
    split; [reflexivity |]. split; [| reflexivity].
    simpl. apply Forall2_map_same. intros r.
    destruct (id r =? next_url_id (db w)) eqn:I.
    + repeat split.
    + reflexivity.
Qed.

Lemma failure_commit_frame_witness :
  exists w' before rec,
    (before = urls (db Demo.to_retry)
     \/ exists created updated,
         before = (urls (db Demo.to_retry)
                   ++ [Store.new_row (next_url_id (db Demo.to_retry)) Demo.address pending
                                     None created updated])%list)
    /\ In rec before /\ url rec = Demo.address
    /\ Forall2 (fun r r' =>
                  if id r =? id rec
                  then failed_from (ErrorObj "Insufficient content extracted from URL") r r'
                  else r' = r)
               before (urls (db w'))
    /\ tags (db w') = tags (db Demo.to_retry).
Proof.
  eexists.
  apply (failure_commit_frame Demo.env_short_page Demo.address no_options Demo.to_retry
           (ErrorObj "Insufficient content extracted from URL")).
  vm_compute. reflexivity.
Defined.

(** ** C8: the batch ceiling *)

(** C8. A POST to /webhook/batch-analyze whose [urls] array has more than
    10 entries is answered 400, and the state after it is the state before:
    nothing was fetched, no model was called, no row was written. *)
Theorem batch_over_ten_rejected env b urls w :
  b_urls b = Some urls ->
  10 < List.length urls ->
  handle env {| req_method := POST; req_path := "/webhook/batch-analyze";
                req_json := Ok b |} w
  = (Ok (Some {| code := 400; json := JError "Maximum 10 URLs per batch" None |}), w).
Proof.
  intros U L. unfold handle, dispatch. simpl.
  unfold webhook_batch_analyze, bind, try_catch. simpl. rewrite U.
  destruct urls as [| x urls]; [simpl in L; lia |].
  apply Nat.ltb_lt in L. rewrite L. reflexivity.
Qed.

Lemma batch_over_ten_rejected_witness :
  handle Demo.env
         {| req_method := POST; req_path := "/webhook/batch-analyze";
            req_json := Ok {| b_url := None;
                              b_urls := Some (repeat Demo.address 11);
                              b_options := None; b_callback_url := None;
                              b_email := None; b_subject := None;
                              b_subject_prefix := None; b_generate_tags := None;
                              b_summary_length := None;
                              b_include_full_content := None |} |}
         Demo.start
  = (Ok (Some {| code := 400; json := JError "Maximum 10 URLs per batch" None |}), Demo.start).
Proof.
  apply (batch_over_ten_rejected Demo.env _ (repeat Demo.address 11) Demo.start).
  - reflexivity.
  - simpl. lia.
Defined.

(** ** C5: the mail of /webhook/analyze *)

Lemma no_mail_refl w : no_mail w w.
Proof. reflexivity. Qed.

Lemma no_mail_trans a b c : no_mail a b -> no_mail b c -> no_mail a c.
Proof. unfold no_mail. congruence. Qed.

Lemma no_mail_quiet w w' : db w' = db w -> mails w' = mails w -> no_mail w w'.
Proof. intros _ E. exact E. Qed.

Lemma Keeps_no_mail_update i set : Keeps no_mail (Store.update_url i set).
Proof. intros w o w' H. inversion H; subst. reflexivity. Qed.

Lemma Keeps_no_mail_insert env u st err c t :
  Keeps no_mail (Store.insert_url env u st err c t).
Proof.
  intros w o w' H. unfold Store.insert_url in H.
  destruct (Store.has_url u (urls (db w))); inversion H; subst; reflexivity.
Qed.

Lemma Keeps_no_mail_insert_tag env o t c cr : Keeps no_mail (Store.insert_tag env o t c cr).
Proof.
  intros w r w' H. unfold Store.insert_tag in H.
  destruct (Store.has_id o (urls (db w))); inversion H; subst; reflexivity.
Qed.

Ltac no_mail_tac :=
  cbv zeta;
  repeat first
    [ keeps_step no_mail no_mail_refl no_mail_trans no_mail_quiet
    | apply Keeps_no_mail_insert
    | apply Keeps_no_mail_insert_tag
    | apply Keeps_no_mail_update ].

Lemma Keeps_no_mail_analyzeUrl env u options : Keeps no_mail (analyzeUrl env u options).
Proof.
  unfold analyzeUrl, enter, run_steps, commit_success, insert_tags, on_failure.
  no_mail_tac.
Qed.

(** The first registration of /webhook/analyze sends no mail. *)
Lemma Keeps_no_mail_webhook_analyze env req : Keeps no_mail (webhook_analyze env req).
Proof.
  unfold webhook_analyze, waitUntil, callback_task.
  cbv zeta.
  repeat first
    [ apply Keeps_no_mail_analyzeUrl
    | keeps_step no_mail no_mail_refl no_mail_trans no_mail_quiet
    | apply Keeps_no_mail_insert ].
Qed.

(** C5, on the code. Every POST to /webhook/analyze is answered by the
    first registration of the route, which reads neither [email] nor the
    provider key: whatever the body, no mail is sent. On the request with
    an address and the key set, the analysis is returned and the answer
    carries no delivery outcome; the second registration, which is never
    reached, would have sent the mail. *)
Theorem webhook_analyze_sends_no_mail :
  (forall env j w,
      handle env {| req_method := POST; req_path := "/webhook/analyze"; req_json := j |} w
      = bind (webhook_analyze env j) (fun r => ret (Some r)) w
      /\ mails (snd (handle env {| req_method := POST; req_path := "/webhook/analyze";
                                   req_json := j |} w))
         = mails w)
  /\ (exists r w',
         given (b_email MailCase.body) = Some "reader@example.com"
         /\ given (RESEND_API_KEY Demo.env) = Some "re_key"
         /\ handle Demo.env MailCase.request Demo.start
            = (Ok (Some {| code := 200; json := JSync 1 completed r |}), w')
         /\ mails w' = [])
  /\ (exists a m w',
         webhook_analyze_email Demo.env (Ok MailCase.body) Demo.start
         = (Ok {| code := 200; json := JAnalysis a (Some m) |}, w')
         /\ success m = true
         /\ mails w'
            = [EvEmail "reader@example.com" "Analysis Summary: Rocq news"
                       "<div>A test page.</div>"]).
Proof.
  split; [| split].
  - intros env j w. split; [reflexivity |].
    change (handle env {| req_method := POST; req_path := "/webhook/analyze";
                          req_json := j |} w)
      with (bind (webhook_analyze env j) (fun r => ret (Some r)) w).
    unfold bind. destruct (webhook_analyze env j w) as [[r | e] w1] eqn:E; simpl;
      exact (Keeps_no_mail_webhook_analyze env j w _ _ E).
  - eexists. eexists. split; [reflexivity |]. split; [reflexivity |]. split.
    + vm_compute. reflexivity.
    + vm_compute. reflexivity.
  - eexists. eexists. eexists. split; [| split].
    + vm_compute. reflexivity.
    + reflexivity.
    + vm_compute. reflexivity.
Qed.

(** ** C7: one record per url *)

Create HintDb keeps_wf.

#[local] Hint Resolve Keeps_wf_analyzeUrl Keeps_wf_insert Keeps_wf_insert_tag
  Keeps_wf_delete : keeps_wf.

Ltac keeps_wf_more :=
  cbv zeta;
  repeat first
    [ solve [auto with keeps_wf nocore]
    | keeps_step keeps_wf keeps_wf_refl keeps_wf_trans keeps_wf_quiet
    | match goal with
      | |- Keeps _ (if ?b then _ else _) => destruct b
      end ].

Lemma Keeps_wf_resend_call env k t s h : Keeps keeps_wf (resend_call env k t s h).
Proof. apply Keeps_resend_call. exact keeps_wf_db. Qed.

#[local] Hint Resolve Keeps_wf_resend_call : keeps_wf.

Lemma Keeps_wf_sendSummaryEmail env k t s r f :
  Keeps keeps_wf (sendSummaryEmail env k t s r f).
Proof. unfold sendSummaryEmail. keeps_wf_more. Qed.

Lemma Keeps_wf_callback_task env u o c r : Keeps keeps_wf (callback_task env u o c r).
Proof. unfold callback_task. keeps_wf_more. Qed.

#[local] Hint Resolve Keeps_wf_sendSummaryEmail Keeps_wf_callback_task : keeps_wf.

Lemma Keeps_wf_batch_loop env o urls : Keeps keeps_wf (batch_loop env o urls).
Proof. induction urls as [| u urls IH]; simpl; keeps_wf_more. Qed.

Lemma Keeps_wf_batch_results env urls : Keeps keeps_wf (batch_results env urls).
Proof. induction urls as [| u urls IH]; simpl; keeps_wf_more. Qed.

#[local] Hint Resolve Keeps_wf_batch_loop Keeps_wf_batch_results : keeps_wf.

Lemma Keeps_wf_webhook_analyze env req : Keeps keeps_wf (webhook_analyze env req).
Proof. unfold webhook_analyze, waitUntil. keeps_wf_more. Qed.

Lemma Keeps_wf_webhook_batch_analyze env req : Keeps keeps_wf (webhook_batch_analyze env req).
Proof. unfold webhook_batch_analyze, waitUntil. keeps_wf_more. Qed.

Lemma Keeps_wf_webhook_analyze_email env req : Keeps keeps_wf (webhook_analyze_email env req).
Proof. unfold webhook_analyze_email. keeps_wf_more. Qed.

Lemma Keeps_wf_webhook_analyze_and_email env req :
  Keeps keeps_wf (webhook_analyze_and_email env req).
Proof. unfold webhook_analyze_and_email. keeps_wf_more. Qed.

Lemma Keeps_wf_webhook_batch_email env req : Keeps keeps_wf (webhook_batch_email env req).
Proof. unfold webhook_batch_email. keeps_wf_more. Qed.

Lemma Keeps_wf_handle env req : Keeps keeps_wf (handle env req).
Proof.
  unfold handle, dispatch.
  destruct (find (matches req) app) as [rt |] eqn:F.
  - apply find_some in F. destruct F as [Hin _].
    apply (Keeps_bind keeps_wf keeps_wf_trans);
      [| intros; apply (Keeps_ret keeps_wf keeps_wf_refl)].
    unfold app in Hin. simpl in Hin.
    destruct Hin as [E | [E | [E | [E | [E | []]]]]]; subst rt; simpl.
    + apply Keeps_wf_webhook_analyze.
    + apply Keeps_wf_webhook_batch_analyze.
    + apply Keeps_wf_webhook_analyze_email.
    + apply Keeps_wf_webhook_analyze_and_email.
    + apply Keeps_wf_webhook_batch_email.
  - apply (Keeps_ret keeps_wf keeps_wf_refl).
Qed.

Lemma Keeps_wf_tool_analyze_url env u l : Keeps keeps_wf (tool_analyze_url env u l).
Proof. unfold tool_analyze_url. keeps_wf_more. Qed.

Lemma Keeps_wf_delete_analysis i : Keeps keeps_wf (delete_analysis i).
Proof. unfold delete_analysis. keeps_wf_more. Qed.

Lemma step_wf w w' : step w w' -> wf_db (db w) -> wf_db (db w').
Proof.
  intros S. destruct S as [env u options w o w' H | env req w o w' H | env u l w o w' H
                          | i w o w' H | env u st err c t w o w' H | i set w o w' K H
                          | env owner t c cr w o w' H].
  - exact (Keeps_wf_analyzeUrl env u options w o w' H).
  - exact (Keeps_wf_handle env req w o w' H).
  - exact (Keeps_wf_tool_analyze_url env u l w o w' H).
  - exact (Keeps_wf_delete_analysis i w o w' H).
  - exact (Keeps_wf_insert env u st err c t w o w' H).
  - exact (Keeps_wf_update i set K w o w' H).
  - exact (Keeps_wf_insert_tag env owner t c cr w o w' H).
Qed.

Lemma reachable_wf w : reachable w -> wf_db (db w).
Proof.
  induction 1 as [w E | w w' _ IH S].
  - rewrite E. exact wf_empty.
  - exact (step_wf w w' S IH).
Qed.

Lemma same_keys_refl w : same_keys w w.
Proof. split; reflexivity. Qed.

Lemma same_keys_trans a b c : same_keys a b -> same_keys b c -> same_keys a c.
Proof. intros [A1 A2] [B1 B2]. split; congruence. Qed.

Lemma same_keys_quiet w w' : db w' = db w -> mails w' = mails w -> same_keys w w'.
Proof. intros E _. unfold same_keys. rewrite E. split; reflexivity. Qed.

Lemma Keeps_keys_update i set :
  keeps_key set -> Keeps same_keys (Store.update_url i set).
Proof.
  intros K w o w' H. unfold Store.update_url in H. inversion H; subst; clear H.
  split; simpl; [apply map_patch_id | apply map_patch_url]; exact K.
Qed.

Lemma Keeps_keys_insert_tag env o t c cr : Keeps same_keys (Store.insert_tag env o t c cr).
Proof.
  intros w r w' H. unfold Store.insert_tag in H.
  destruct (Store.has_id o (urls (db w))); inversion H; subst; split; reflexivity.
Qed.

Ltac keeps_keys_tac :=
  cbv zeta;
  repeat first
    [ keeps_step same_keys same_keys_refl same_keys_trans same_keys_quiet
    | apply Keeps_keys_insert_tag
    | apply Keeps_keys_update;
      first [ apply set_pending_key | apply set_failed_key | apply set_completed_key ] ].

Lemma Keeps_keys_pipeline env u options r :
  Keeps same_keys (try_catch (run_steps env u options (Some r)) (on_failure env u (Some r))).
Proof.
  unfold run_steps, commit_success, insert_tags, on_failure. keeps_keys_tac.
Qed.

Lemma find_same_keys u : forall rows rows' r,
  map id rows' = map id rows ->
  map url rows' = map url rows ->
  hd_error (Store.with_url u rows) = Some r ->
  exists r', hd_error (Store.with_url u rows') = Some r' /\ id r' = id r.
Proof.
  unfold Store.with_url.
  induction rows as [| x rows IH]; intros rows' r I U H; simpl in H.
  - discriminate.
  - destruct rows' as [| x' rows']; [discriminate |].
    simpl in I, U. inversion I. inversion U. simpl.
    replace (url x') with (url x) by congruence.
    destruct (String.eqb (url x) u).
    + simpl in H. inversion H; subst. exists x'. split; [reflexivity | assumption].
    + eapply IH; eauto.
Qed.

(** C7. In every state that can be reached, no two rows of
    [analyzed_urls] have the same url. Analysing a url that has a record
    inserts nothing: the rows after are the rows before, each with its id
    and url, and the record found under the url has the id it had. An
    insert of a url that is there is rejected and changes nothing; so the
    insert of the callback mode, on a url that has a record, ends in the
    500 answer with the tables as they were. *)
Theorem one_record_per_url :
  (forall w, reachable w -> NoDup (map url (urls (db w))))
  /\ (forall env u options w existing o w',
         Store.find_url u (db w) = Some existing ->
         analyzeUrl env u options w = (o, w') ->
         map id (urls (db w')) = map id (urls (db w))
         /\ map url (urls (db w')) = map url (urls (db w))
         /\ exists r', Store.find_url u (db w') = Some r' /\ id r' = id existing)
  /\ (forall env u st err created updated w,
         Store.has_url u (urls (db w)) = true ->
         Store.insert_url env u st err created updated w = (Throw (unique_violation env), w))
  /\ (forall env b u callback_url w,
         given (b_url b) = Some u ->
         given (b_callback_url b) = Some callback_url ->
         Store.has_url u (urls (db w)) = true ->
         exists w',
           handle env {| req_method := POST; req_path := "/webhook/analyze";
                         req_json := Ok b |} w
           = (Ok (Some {| code := 500;
                          json := JError "Analysis failed"
                                         (Some (message_of (unique_violation env))) |}), w')
           /\ db w' = db w).
Proof.
  split; [| split; [| split]].
  - intros w R. exact (wf_urls _ (reachable_wf w R)).
  - intros env u options w existing o w' F H.
    assert (K : same_keys w w').
    { destruct (status existing) eqn:S.
      - rewrite (analyzeUrl_existing env u options w existing F) in H by congruence.
        apply (same_keys_trans w (marked_pending env existing w) w').
        + split; simpl; [apply map_patch_id | apply map_patch_url]; apply set_pending_key.
        + exact (Keeps_keys_pipeline env u options _ _ _ _ H).
      - rewrite (analyzeUrl_cached env u options w existing F S) in H.
        inversion H; subst. apply same_keys_refl.
      - rewrite (analyzeUrl_existing env u options w existing F) in H by congruence.
        apply (same_keys_trans w (marked_pending env existing w) w').
        + split; simpl; [apply map_patch_id | apply map_patch_url]; apply set_pending_key.
        + exact (Keeps_keys_pipeline env u options _ _ _ _ H). }
    destruct K as [K1 K2]. split; [exact K1 |]. split; [exact K2 |].
    exact (find_same_keys u _ _ existing K1 K2 F).
  - intros env u st err created updated w H. unfold Store.insert_url. rewrite H. reflexivity.
  - intros env b u callback_url w U C H. eexists.
    unfold handle, dispatch. simpl.
    unfold webhook_analyze, bind, try_catch. simpl. rewrite U, C.
    unfold Store.insert_url. simpl. rewrite H. split; reflexivity.
Qed.

Lemma one_record_per_url_witness :
  NoDup (map url (urls (db (snd (analyzeUrl Demo.env Demo.address no_options Demo.start)))))
  /\ (let w' := snd (analyzeUrl Demo.env Demo.address no_options Demo.to_retry) in
      map id (urls (db w')) = map id (urls (db Demo.to_retry))
      /\ map url (urls (db w')) = map url (urls (db Demo.to_retry))
      /\ exists r', Store.find_url Demo.address (db w') = Some r'
                    /\ id r' = id Demo.failed_row)
  /\ Store.insert_url Demo.env Demo.address pending None "t0" "t1" Demo.analysed
     = (Throw (unique_violation Demo.env), Demo.analysed).
Proof.
  split; [| split].
  - apply (proj1 one_record_per_url).
    apply (reachable_step Demo.start).
    + apply reachable_start. reflexivity.
    + apply (step_analyze Demo.env Demo.address no_options Demo.start
                          (fst (analyzeUrl Demo.env Demo.address no_options Demo.start))).
      apply surjective_pairing.
  - apply (proj1 (proj2 one_record_per_url) Demo.env Demo.address no_options
                 Demo.to_retry Demo.failed_row
                 (fst (analyzeUrl Demo.env Demo.address no_options Demo.to_retry))).
    + reflexivity.
    + apply surjective_pairing.
  - apply (proj1 (proj2 (proj2 one_record_per_url))). reflexivity.
Defined.

(** ** C10: the tool always asks for tags *)

Lemma tag_rows_fields env owner l : forall n c,
  map (fun t => (urlId t, tag t, confidence t)) (tag_rows env owner n c l)
  = map (fun t => (owner, t, Some (8 # 10))) l.
Proof.
  induction l as [| t l IH]; intros n c; simpl.
  - reflexivity.
  - rewrite IH. reflexivity.
Qed.

Lemma tag_rows_length env owner l : forall n c,
  List.length (tag_rows env owner n c l) = List.length l.
Proof.
  induction l as [| t l IH]; intros n c; simpl; [reflexivity | rewrite IH; reflexivity].
Qed.

Lemma parse_reply_tags_le_5 s : List.length (sum_tags (parse_reply s)) <= 5.
Proof. unfold parse_reply. cbv zeta. unfold sum_tags. apply firstn_le_length. Qed.

(** The record a successful run leaves under the url. *)
Lemma committed_find env u options ex s w :
  not_cached u (db w) ->
  exists r1,
    Store.find_url u (db (started env u w)) = Some r1
    /\ id r1 = id (working_record env u w)
    /\ Store.find_url u
         (db (committed env u options (id (working_record env u w)) ex s
                        (summarizing env u options ex w)))
       = Some (completed_patch env u ex s (summarizing env u options ex w) r1).
Proof.
  intros N. destruct (started_find env u w N) as (r1 & F & I & _).
  exists r1. split; [exact F |]. split; [exact I |].
  unfold Store.find_url. rewrite committed_urls, summarizing_db.
  erewrite find_url_patch; [| unfold completed_patch; apply set_completed_key | exact F].
  rewrite I, Nat.eqb_refl. reflexivity.
Qed.

(** C10. The tool runs the pipeline with [generate_tags] true and the
    chosen length, whatever its arguments: the state it leaves is the one
    [analyzeUrl] leaves with those options. So when the url is not cached,
    the page is good and the model has answered or thrown, the call
    succeeds, the record is completed, and the tag table grows by exactly
    one row per tag read from the model's answer (none when it threw), each
    owned by the record and with confidence 0.8, at most 5 of them. *)
Theorem tool_analyze_url_stores_tags :
  (forall env u l w,
      snd (tool_analyze_url env u l w)
      = snd (analyzeUrl env u {| generate_tags := Some true;
                                 summary_length := Some (SummaryLength_name l) |} w))
  /\ (forall env u l w response html model,
         not_cached u (db w) ->
         http_get env (trace w) u = Ok response ->
         resp_ok response = true ->
         resp_text response = Ok html ->
         50 <= String.length (Extract.ex_content (Extract.extractContent html)) ->
         ai_run env (trace w ++ [EvFetch u]) system_prompt
                (summary_prompt (Extract.ex_content (Extract.extractContent html))
                                (Some (SummaryLength_name l))) = model ->
         exists res w' r new,
           let parsed := match model with
                         | Ok reply => sum_tags (parse_reply (reply_text reply))
                         | Throw _ => []
                         end in
           tool_analyze_url env u l w = (Ok res, w')
           /\ isError res = false
           /\ Store.find_url u (db w') = Some r
           /\ status r = completed
           /\ tags (db w') = (tags (db w) ++ new)%list
           /\ map (fun t => (urlId t, tag t, confidence t)) new
              = map (fun t => (id r, t, Some (8 # 10))) parsed
           /\ List.length new <= 5).
Proof.
  split.
  - intros env u l w. unfold tool_analyze_url, try_catch, bind.
    destruct (analyzeUrl env u _ w) as [[[r |] | e] w1]; reflexivity.
  - intros env u l w response html model N G K T L A.
    set (options := {| generate_tags := Some true;
                       summary_length := Some (SummaryLength_name l) |}).
    destruct (analyzeUrl_run env u options w N) as (r0 & _ & E).
    rewrite (fetch_extract_ok env u (trace w) response html G K T L) in E.
    cbv zeta in E.
    set (ex := Extract.extractContent html) in *.
    set (s := summarized env (Extract.ex_content ex) (summary_length options)
                         (trace w ++ [EvFetch u])) in *.
    destruct (committed_find env u options ex s w N) as (r1 & _ & I & F).
    assert (P : sum_tags s = match model with
                             | Ok reply => sum_tags (parse_reply (reply_text reply))
                             | Throw _ => []
                             end).
    { unfold s, summarized. simpl summary_length. rewrite A. destruct model; reflexivity. }
    assert (L5 : List.length (sum_tags s) <= 5).
    { rewrite P. destruct model; [apply parse_reply_tags_le_5 | simpl; lia]. }
    eexists. eexists. exists (completed_patch env u ex s (summarizing env u options ex w) r1).
    exists (if 0 <? List.length (sum_tags s)
            then tag_rows env (id (working_record env u w))
                          (next_tag_id (db w)) (S (S (clock (started env u w)))) (sum_tags s)
            else []).
    cbv zeta. split; [| split; [| split; [| split; [| split; [| split]]]]].
    + unfold tool_analyze_url, try_catch. fold options.
      rewrite (bind_ok _ _ _ _ _ E). reflexivity.
    + reflexivity.
    + exact F.
    + reflexivity.
    + unfold committed. simpl truthy. simpl andb.
      destruct (0 <? List.length (sum_tags s)).
      * unfold tagged, written. simpl. rewrite summarizing_db.
        unfold summarizing. rewrite after_summary_clock. simpl.
        rewrite started_tags. f_equal. f_equal.
        unfold started. destruct (Store.find_url u (db w)); reflexivity.
      * unfold written. simpl. rewrite summarizing_db, started_tags, app_nil_r. reflexivity.
    + rewrite <- P. change (id (completed_patch env u ex s _ r1)) with (id r1). rewrite I.
      destruct (0 <? List.length (sum_tags s)) eqn:Z.
      * apply tag_rows_fields.
      * apply Nat.ltb_ge in Z. destruct (sum_tags s); [reflexivity | simpl in Z; lia].
    + destruct (0 <? List.length (sum_tags s)).
      * rewrite tag_rows_length. exact L5.
      * simpl. lia.
Qed.

Lemma tool_analyze_url_stores_tags_witness :
  exists res w' r new,
    tool_analyze_url Demo.env Demo.address medium Demo.start = (Ok res, w')
    /\ isError res = false
    /\ Store.find_url Demo.address (db w') = Some r
    /\ status r = completed
    /\ tags (db w') = (tags (db Demo.start) ++ new)%list
    /\ map (fun t => (urlId t, tag t, confidence t)) new
       = map (fun t => (id r, t, Some (8 # 10))) ["a"; "b"; "c"; "d"; "e"]
    /\ List.length new <= 5.
Proof.
  apply (proj2 tool_analyze_url_stores_tags Demo.env Demo.address medium Demo.start
               {| resp_status := 200; resp_statusText := "OK"; resp_text := Ok Demo.page |}
               Demo.page (Ok (Some Demo.reply_8_tags))).
  - intros r H. discriminate.
  - reflexivity.
  - reflexivity.
  - reflexivity.
  - vm_compute. lia.
  - reflexivity.
Defined.

(** ** C6: where the text is taken from *)

(** C6, as stated, fails: on a page whose class "content" element is a
    [section], the code takes the whole [body] (menu included), not that
    element. What the code does take is the subject of the last section of
    this file. *)
Lemma region_is_not_any_element :
  Extract.region Extract.contentPatterns (Extract.strip_scripts AsSpecified.page)
  = AsSpecified.page
  /\ Extract.region AsSpecified.specified_patterns (Extract.strip_scripts AsSpecified.page)
     = "<section class=" ++ Extract.dquote ++ "content" ++ Extract.dquote
       ++ ">The text</section>"
  /\ Extract.ex_content (Extract.extractContent AsSpecified.page) = "Menu The text"
  /\ Extract.region Extract.contentPatterns (Extract.strip_scripts AsSpecified.page)
     <> Extract.region AsSpecified.specified_patterns (Extract.strip_scripts AsSpecified.page).
Proof.
  split; [| split; [| split]].
  - vm_compute. reflexivity.
  - vm_compute. reflexivity.
  - vm_compute. reflexivity.
  - vm_compute. discriminate.
Qed.

Lemma exec_lit_nonempty icase c p r s h :
  Regex.exec icase (Regex.Lit (String c p) :: r) s = Some h ->
  Regex.is_empty (Regex.matched h) = false.
Proof.
  simpl. destruct s as [| b s']; [discriminate |].
  destruct (Str.char_eq icase c b); [| discriminate].
  destruct (Str.strip_prefix icase p s') as [rest |]; [| discriminate].
  simpl. destruct (Regex.exec icase r rest) as [h' |]; [| discriminate].
  intros H. inversion H; subst. reflexivity.
Qed.

Lemma search_exec icase r : forall s pre h,
  Regex.search icase r s = Some (pre, h) -> exists s', Regex.exec icase r s' = Some h.
Proof.
  induction s as [| c s IH]; intros pre h H; simpl in H.
  - destruct (Regex.exec icase r EmptyString) as [h0 |] eqn:E; [| discriminate].
    inversion H; subst. eauto.
  - destruct (Regex.exec icase r (String c s)) as [h0 |] eqn:E.
    + inversion H; subst. eauto.
    + destruct (Regex.search icase r s) as [[pre' h'] |] eqn:E'; [| discriminate].
      inversion H; subst. eapply IH. reflexivity.
Qed.

Lemma match_g0_nonempty r s m :
  starts_with_text r -> Regex.match_g0 true r s = Some m -> Regex.is_empty m = false.
Proof.
  intros (c & p & r' & ->) H. unfold Regex.match_g0 in H.
  destruct (Regex.search true _ s) as [[pre h] |] eqn:E; [| discriminate].
  inversion H; subst. destruct (search_exec _ _ _ _ _ E) as (s' & X).
  exact (exec_lit_nonempty _ _ _ _ _ _ X).
Qed.

(** ** Every run of the pipeline, from its entry to its outcome *)

Lemma committed_trace env u options i ex s w :
  trace (committed env u options i ex s w) = trace w.
Proof.
  unfold committed. destruct (truthy (generate_tags options) && _); reflexivity.
Qed.

Lemma summarizing_trace env u options ex w :
  trace (summarizing env u options ex w)
  = (trace w ++ [EvFetch u;
                 EvAiRun system_prompt
                         (summary_prompt (Extract.ex_content ex) (summary_length options))])%list.
Proof.
  unfold summarizing, after_summary.
  destruct (ai_run env _ _ _); simpl; rewrite started_trace, <- app_assoc; reflexivity.
Qed.

Lemma fetch_extract_sufficient env u tr ex :
  fetch_extract env u tr = Ok ex -> 50 <= String.length (Extract.ex_content ex).
Proof.
  unfold fetch_extract. destruct (http_get env tr u) as [response | e]; [| discriminate].
  destruct (negb (resp_ok response)); [discriminate |].
  destruct (resp_text response) as [html | e]; [| discriminate].
  destruct (insufficient (Extract.ex_content (Extract.extractContent html))) eqn:I;
    [discriminate |].
  intros H. inversion H; subst. unfold insufficient in I.
  apply orb_false_iff in I. destruct I as [_ I]. apply Nat.ltb_ge in I. exact I.
Qed.

(** X1. However a run of [analyzeUrl] ends, the url has a record
    afterwards and that record is not pending: when a record is returned,
    the stored record is completed; when an error is thrown, the stored
    record is failed with that error's message. No run returns without a
    record. *)
Theorem run_ends_completed_or_failed env u options w o w' :
  analyzeUrl env u options w = (o, w') ->
  exists r,
    Store.find_url u (db w') = Some r
    /\ ((exists r0, o = Ok (Some r0) /\ status r0 = completed /\ status r = completed)
        \/ (exists e, o = Throw e /\ status r = failed
                      /\ errorMessage r = Some (message_of e))).
Proof.
  intros H. destruct (cached_or_not u (db w)) as [(existing & F & S) | N].
  - rewrite (analyzeUrl_cached env u options w existing F S) in H.
    inversion H; subst. exists existing. split; [exact F |]. left. eauto.
  - destruct (analyzeUrl_run env u options w N) as (r0 & _ & E).
    rewrite E in H. clear E.
    destruct (fetch_extract env u (trace w)) as [ex | e].
    + cbv zeta in H. inversion H; subst; clear H.
      destruct (committed_find env u options ex
                  (summarized env (Extract.ex_content ex) (summary_length options)
                              (trace w ++ [EvFetch u])) w N) as (r1 & _ & _ & F).
      eexists. split; [exact F |]. left. eexists. split; [reflexivity |].
      split; reflexivity.
    + inversion H; subst; clear H.
      destruct (failure_committed_find env u w e N) as (r1 & _ & F).
      eexists. split; [exact F |]. right. exists e. repeat split.
Qed.

Lemma run_ends_completed_or_failed_witness :
  exists r,
    Store.find_url Demo.address
      (db (snd (analyzeUrl Demo.env_short_page Demo.address no_options Demo.to_retry)))
    = Some r
    /\ ((exists r0, fst (analyzeUrl Demo.env_short_page Demo.address no_options Demo.to_retry)
                    = Ok (Some r0) /\ status r0 = completed /\ status r = completed)
        \/ (exists e, fst (analyzeUrl Demo.env_short_page Demo.address no_options
                                      Demo.to_retry) = Throw e
                      /\ status r = failed /\ errorMessage r = Some (message_of e))).
Proof.
  apply (run_ends_completed_or_failed Demo.env_short_page Demo.address no_options
           Demo.to_retry).
  apply surjective_pairing.
Defined.

Lemma analyzeUrl_uncached_calls env u options w o w' :
  not_cached u (db w) ->
  analyzeUrl env u options w = (o, w') ->
  (exists e, o = Throw e /\ trace w' = (trace w ++ [EvFetch u])%list)
  \/ (exists r c, o = Ok (Some r) /\ content r = Some c
                  /\ trace w' = (trace w ++ [EvFetch u;
                                             EvAiRun system_prompt
                                               (summary_prompt c (summary_length options))])%list).
Proof.
  intros N H. destruct (analyzeUrl_run env u options w N) as (r0 & _ & E).
  rewrite E in H. clear E.
  destruct (fetch_extract env u (trace w)) as [ex | e].
  - cbv zeta in H. inversion H; subst; clear H. right.
    eexists. exists (Extract.ex_content ex). split; [reflexivity |].
    split; [reflexivity |].
    rewrite committed_trace. apply summarizing_trace.
  - inversion H; subst; clear H. left. exists e. split; [reflexivity |].
    simpl. rewrite started_trace. reflexivity.
Qed.

(** X2. The outbound calls of one run: none when the url has a completed
    record; exactly one fetch of the url, and nothing else, when the run
    throws; exactly one fetch followed by one model call when it returns a
    record, the model being asked about the very content that is stored,
    with the instruction that the lookup of [summary_length] in
    [lengthInstructions] gives (an own key, a member the object literal
    inherits, and the medium wording otherwise). A run sends no mail and
    posts no callback. *)
Theorem run_outbound_calls env u options w o w' :
  analyzeUrl env u options w = (o, w') ->
  (exists existing, Store.find_url u (db w) = Some existing /\ status existing = completed
                    /\ trace w' = trace w)
  \/ (exists e, o = Throw e /\ trace w' = (trace w ++ [EvFetch u])%list)
  \/ (exists r c, o = Ok (Some r) /\ content r = Some c
                  /\ trace w' = (trace w ++ [EvFetch u;
                                             EvAiRun system_prompt
                                               (summary_prompt c (summary_length options))])%list).
Proof.
  intros H. destruct (cached_or_not u (db w)) as [(existing & F & S) | N].
  - rewrite (analyzeUrl_cached env u options w existing F S) in H.
    inversion H; subst. left. eauto.
  - right. exact (analyzeUrl_uncached_calls env u options w o w' N H).
Qed.

Lemma run_outbound_calls_witness :
  (exists existing, Store.find_url Demo.address (db Demo.start) = Some existing
                    /\ status existing = completed
                    /\ trace (snd (analyzeUrl Demo.env Demo.address Cases.odd_length Demo.start))
                       = trace Demo.start)
  \/ (exists e, fst (analyzeUrl Demo.env Demo.address Cases.odd_length Demo.start) = Throw e
                /\ trace (snd (analyzeUrl Demo.env Demo.address Cases.odd_length Demo.start))
                   = (trace Demo.start ++ [EvFetch Demo.address])%list)
  \/ (exists r c, fst (analyzeUrl Demo.env Demo.address Cases.odd_length Demo.start) = Ok (Some r)
                  /\ content r = Some c
                  /\ trace (snd (analyzeUrl Demo.env Demo.address Cases.odd_length Demo.start))
                     = (trace Demo.start
                        ++ [EvFetch Demo.address;
                            EvAiRun system_prompt
                                    (summary_prompt c (summary_length Cases.odd_length))])%list).
Proof.
  apply (run_outbound_calls Demo.env Demo.address Cases.odd_length Demo.start).
  apply surjective_pairing.
Defined.

(** X3. When the fetch of a url that is not cached throws, or answers
    with a status outside 200-299, the run throws that error (for a bad
    status: the message "HTTP <status>: <statusText>"), the record of the
    url is failed with the error's message, and the model is not called. *)
Theorem fetch_failure_recorded env u options w err :
  not_cached u (db w) ->
  (http_get env (trace w) u = Throw err
   \/ exists response,
       http_get env (trace w) u = Ok response /\ resp_ok response = false
       /\ err = ErrorObj ("HTTP " ++ Str.of_nat (resp_status response) ++ ": "
                          ++ resp_statusText response)) ->
  exists w' r,
    analyzeUrl env u options w = (Throw err, w')
    /\ Store.find_url u (db w') = Some r
    /\ status r = failed
    /\ errorMessage r = Some (message_of err)
    /\ trace w' = (trace w ++ [EvFetch u])%list.
Proof.
  intros N G.
  destruct (analyzeUrl_run env u options w N) as (r0 & _ & E).
  assert (X : fetch_extract env u (trace w) = Throw err).
  { unfold fetch_extract. destruct G as [G | (response & G & K & ->)].
    - rewrite G. reflexivity.
    - rewrite G, K. reflexivity. }
  rewrite X in E.
  destruct (failure_committed_find env u w err N) as (r1 & _ & F).
  eexists. eexists. split; [exact E |]. split; [exact F |].
  repeat split. simpl. rewrite started_trace. reflexivity.
Qed.

Lemma fetch_failure_recorded_witness :
  exists w' r,
    analyzeUrl Cases.env_404 Demo.address no_options Demo.start
    = (Throw (ErrorObj "HTTP 404: Not Found"), w')
    /\ Store.find_url Demo.address (db w') = Some r
    /\ status r = failed
    /\ errorMessage r = Some "HTTP 404: Not Found"
    /\ trace w' = (trace Demo.start ++ [EvFetch Demo.address])%list.
Proof.
  apply (fetch_failure_recorded Cases.env_404 Demo.address no_options Demo.start
           (ErrorObj "HTTP 404: Not Found")).
  - intros r H. discriminate.
  - right. eexists. split; [reflexivity |]. split; reflexivity.
Defined.

(** X4. A run that gets a good page for a url that is not cached returns
    the record with the extracted title, content and word count, the
    content type read from the url, language "en", status completed and no
    errorMessage (the one of an earlier failure is gone). The record keeps
    the id and createdAt it had when it existed, and takes the next id when
    it did not. *)
Theorem successful_run_record env u options w response html :
  wf_db (db w) ->
  not_cached u (db w) ->
  http_get env (trace w) u = Ok response ->
  resp_ok response = true ->
  resp_text response = Ok html ->
  50 <= String.length (Extract.ex_content (Extract.extractContent html)) ->
  exists r w',
    analyzeUrl env u options w = (Ok (Some r), w')
    /\ Store.find_url u (db w') = Some r
    /\ url r = u /\ status r = completed /\ errorMessage r = None
    /\ title r = Some (Extract.ex_title (Extract.extractContent html))
    /\ content r = Some (Extract.ex_content (Extract.extractContent html))
    /\ wordCount r = Some (Extract.ex_wordCount (Extract.extractContent html))
    /\ contentType r = Some (classify u)
    /\ language r = Some "en"
    /\ match Store.find_url u (db w) with
       | Some existing => id r = id existing /\ createdAt r = createdAt existing
       | None => id r = next_url_id (db w)
       end.
Proof.
  intros W N G K T L.
  destruct (analyzeUrl_run env u options w N) as (r0 & Hr0 & E).
  rewrite (fetch_extract_ok env u (trace w) response html G K T L) in E.
  cbv zeta in E.
  destruct (started_record env u w W N) as (r1 & Hr1 & F1 & S1 & E1).
  rewrite Hr0 in Hr1. inversion Hr1; subst r1; clear Hr1.
  destruct (analyzeUrl_ok_found env u options w _ _ W E) as [F _].
  eexists. eexists. split; [exact E |]. split; [exact F |].
  destruct (find_url_some _ _ _ F1) as [_ U].
  split; [exact U |]. split; [reflexivity |]. split; [exact E1 |].
  repeat (split; [reflexivity |]).
  unfold started in F1.
  destruct (Store.find_url u (db w)) as [existing |] eqn:F0.
  - unfold Store.find_url, marked_pending in F1. simpl in F1.
    erewrite find_url_patch in F1; [| apply set_pending_key | exact F0].
    rewrite Nat.eqb_refl in F1. inversion F1; subst r0. split; reflexivity.
  - unfold Store.find_url, inserted_pending in F1. simpl in F1.
    rewrite find_url_app_new with (r := pending_row env u w) in F1.
    + inversion F1; subst r0. reflexivity.
    + unfold Store.find_url in F0.
      destruct (Store.with_url u (urls (db w))); [reflexivity | discriminate].
    + reflexivity.
Qed.

Lemma successful_run_record_witness :
  exists r w',
    analyzeUrl Demo.env Demo.address no_options Demo.to_retry = (Ok (Some r), w')
    /\ Store.find_url Demo.address (db w') = Some r
    /\ url r = Demo.address /\ status r = completed /\ errorMessage r = None
    /\ title r = Some "Rocq news"
    /\ content r
       = Some "Hello world this is a sufficiently long test paragraph for extraction"
    /\ wordCount r = Some 11
    /\ contentType r = Some "blog"
    /\ language r = Some "en"
    /\ (id r = 1 /\ createdAt r = "2024-12-31T00:00:00Z").
Proof.
  apply (successful_run_record Demo.env Demo.address no_options Demo.to_retry
           {| resp_status := 200; resp_statusText := "OK"; resp_text := Ok Demo.page |}
           Demo.page).
  - constructor; simpl; repeat constructor; simpl; auto.
  - intros r H. inversion H; subst. discriminate.
  - reflexivity.
  - reflexivity.
  - reflexivity.
  - vm_compute. lia.
Defined.

(** ** Classification *)

Lemma strip_prefix_app p b : Str.strip_prefix false p (p ++ b) = Some b.
Proof.
  induction p as [| c p IH]; simpl; [reflexivity |].
  unfold Str.char_eq. rewrite Ascii.eqb_refl. exact IH.
Qed.

Lemma strip_prefix_exact p : forall s rest,
  Str.strip_prefix false p s = Some rest -> s = p ++ rest.
Proof.
  induction p as [| c p IH]; simpl; intros s rest H.
  - inversion H. reflexivity.
  - destruct s as [| d s]; [discriminate |].
    unfold Str.char_eq in H. destruct (Ascii.eqb c d) eqn:E; [| discriminate].
    apply Ascii.eqb_eq in E. subst d. f_equal. apply IH. exact H.
Qed.

Lemma includes_intro p a b : Str.includes p (a ++ p ++ b) = true.
Proof.
  induction a as [| c a IH].
  - simpl. destruct p; simpl.
    + destruct b; reflexivity.
    + unfold Str.char_eq. rewrite Ascii.eqb_refl.
      rewrite strip_prefix_app. reflexivity.
  - simpl. destruct (Str.strip_prefix false p (String c (a ++ p ++ b))); [reflexivity |].
    exact IH.
Qed.

Lemma includes_elim p : forall s,
  Str.includes p s = true -> exists a b, s = a ++ p ++ b.
Proof.
  induction s as [| c s IH]; simpl; intros H.
  - destruct (Str.strip_prefix false p EmptyString) as [rest |] eqn:E; [| discriminate].
    exists EmptyString, rest. simpl. apply strip_prefix_exact. exact E.
  - destruct (Str.strip_prefix false p (String c s)) as [rest |] eqn:E.
    + exists EmptyString, rest. simpl. apply strip_prefix_exact. exact E.
    + destruct (IH H) as (a & b & ->). exists (String c a), b. reflexivity.
Qed.

Lemma not_substring_includes p s :
  (forall a b, s <> a ++ p ++ b) -> Str.includes p s = false.
Proof.
  intros H. destruct (Str.includes p s) eqn:E; [| reflexivity].
  destruct (includes_elim p s E) as (a & b & X). exfalso. exact (H a b X).
Qed.

(** X5. The content type is read from the url text, case-sensitively: a
    url that contains "blog" is a "blog", even when it also contains
    "news"; a url that contains "news" and not "blog" is "news"; any other
    url is an "article". *)
Theorem classify_precedence :
  (forall a b, classify (a ++ "blog" ++ b) = "blog")
  /\ (forall u a b,
         (forall a' b', u <> a' ++ "blog" ++ b') ->
         u = a ++ "news" ++ b ->
         classify u = "news")
  /\ (forall u,
         (forall a b, u <> a ++ "blog" ++ b) ->
         (forall a b, u <> a ++ "news" ++ b) ->
         classify u = "article").
Proof.
  split; [| split].
  - intros a b. unfold classify. rewrite includes_intro. reflexivity.
  - intros u a b NB E. unfold classify.
    rewrite (not_substring_includes "blog" u NB). subst u.
    rewrite includes_intro. reflexivity.
  - intros u NB NN. unfold classify.
    rewrite (not_substring_includes "blog" u NB), (not_substring_includes "news" u NN).
    reflexivity.
Qed.

Lemma classify_precedence_witness :
  classify ("https://" ++ "blog" ++ ".example.com/news/today") = "blog"
  /\ classify "https://example.com/news/today" = "news"
  /\ classify "https://example.com/Blog/News" = "article".
Proof.
  assert (X : forall p s, Str.includes p s = false -> forall a b, s <> a ++ p ++ b).
  { intros p s H a b E. subst s. rewrite includes_intro in H. discriminate. }
  split; [| split].
  - apply (proj1 classify_precedence).
  - apply (proj1 (proj2 classify_precedence) _ "https://example.com/" "/today").
    + apply X. reflexivity.
    + reflexivity.
  - apply (proj2 (proj2 classify_precedence)); apply X; reflexivity.
Defined.

(** ** The routes: validation, errors, batches *)

(** A [try] whose [catch] answers never throws. *)
Lemma try_catch_answers {A : Type} (m : M A) (h : JsError -> M A) w :
  (forall e w1, exists a w2, h e w1 = (Ok a, w2)) ->
  exists a w2, try_catch m h w = (Ok a, w2).
Proof.
  intros H. unfold try_catch. destruct (m w) as [[a | e] w1]; [eauto | apply H].
Qed.

Lemma webhook_handlers_answer rt :
  In rt app -> forall env j w, exists r w', rt_handler rt env j w = (Ok r, w').
Proof.
  unfold app. simpl. intros Hin env j w.
  destruct Hin as [E | [E | [E | [E | [E | []]]]]]; subst rt; simpl;
    apply try_catch_answers; intros e w1; eexists; eexists; reflexivity.
Qed.

(** X6. Nothing at the delivery surface throws: every POST to one of
    the webhook routes is answered with a response, and the tools
    [analyze_url], [email_analysis] and [get_url_details], the two
    /api/analysis/:id handlers and [sendSummaryEmail] always return a
    result: whatever the page, the model, the mail provider and the store
    do, the error ends in the answer. *)
Theorem delivery_surface_never_throws :
  (forall env req w, exists r w', handle env req w = (Ok r, w'))
  /\ (forall env u l w, exists r w', tool_analyze_url env u l w = (Ok r, w'))
  /\ (forall env u email subject full w,
         exists r w', tool_email_analysis env u email subject full w = (Ok r, w'))
  /\ (forall u w, exists r w', tool_get_url_details u w = (Ok r, w'))
  /\ (forall i w, exists r w', api_get_analysis i w = (Ok r, w'))
  /\ (forall i w, exists r w', api_delete_analysis i w = (Ok r, w'))
  /\ (forall env key to subject summary full w,
         exists r w', sendSummaryEmail env key to subject summary full w = (Ok r, w')).
Proof.
  split; [| split; [| split; [| split; [| split; [| split]]]]].
  - intros env req w. unfold handle, dispatch.
    destruct (find (matches req) app) as [rt |] eqn:F.
    + apply find_some in F. destruct F as [Hin _].
      destruct (webhook_handlers_answer rt Hin env (req_json req) w) as (r & w' & E).
      exists (Some r), w'. unfold bind. rewrite E. reflexivity.
    + eexists. eexists. reflexivity.
  - intros. apply try_catch_answers. intros; eexists; eexists; reflexivity.
  - intros. apply try_catch_answers. intros; eexists; eexists; reflexivity.
  - intros. apply try_catch_answers. intros; eexists; eexists; reflexivity.
  - intros. apply try_catch_answers. intros; eexists; eexists; reflexivity.
  - intros. apply try_catch_answers. intros; eexists; eexists; reflexivity.
  - intros. apply try_catch_answers. intros; eexists; eexists; reflexivity.
Qed.

(** X7. What the two first-registered routes answer to a body they
    cannot use, without touching the state: /webhook/analyze answers 400
    "URL is required" when [url] is absent or the empty string, and 500
    "Analysis failed" when reading the body as JSON throws;
    /webhook/batch-analyze answers 400 "URLs array is required" when [urls]
    is absent or the empty array, and 500 "Batch analysis failed" when
    reading the body as JSON throws. *)
Theorem webhook_bodies_validated env w :
  (forall b, given (b_url b) = None ->
             handle env (Cases.post "/webhook/analyze" b) w
             = (Ok (Some {| code := 400; json := JError "URL is required" None |}), w))
  /\ (forall b, (b_urls b = None \/ b_urls b = Some []) ->
                handle env (Cases.post "/webhook/batch-analyze" b) w
                = (Ok (Some {| code := 400; json := JError "URLs array is required" None |}),
                   w))
  /\ (forall e,
         handle env {| req_method := POST; req_path := "/webhook/analyze";
                       req_json := Throw e |} w
         = (Ok (Some {| code := 500;
                        json := JError "Analysis failed" (Some (message_of e)) |}), w))
  /\ (forall e,
         handle env {| req_method := POST; req_path := "/webhook/batch-analyze";
                       req_json := Throw e |} w
         = (Ok (Some {| code := 500;
                        json := JError "Batch analysis failed" (Some (message_of e)) |}), w)).
Proof.
  split; [| split; [| split]].
  - intros b U. unfold handle, dispatch. simpl.
    unfold webhook_analyze, bind, try_catch. simpl. rewrite U. reflexivity.
  - intros b U. unfold handle, dispatch. simpl.
    unfold webhook_batch_analyze, bind, try_catch. simpl.
    destruct U as [U | U]; rewrite U; reflexivity.
  - intros e. reflexivity.
  - intros e. reflexivity.
Qed.

Lemma webhook_bodies_validated_witness :
  handle Demo.env (Cases.post "/webhook/analyze" Cases.empty_body) Demo.analysed
  = (Ok (Some {| code := 400; json := JError "URL is required" None |}), Demo.analysed)
  /\ handle Demo.env (Cases.post "/webhook/batch-analyze" Cases.empty_body) Demo.analysed
     = (Ok (Some {| code := 400; json := JError "URLs array is required" None |}),
        Demo.analysed).
Proof.
  split.
  - apply (proj1 (webhook_bodies_validated Demo.env Demo.analysed)). reflexivity.
  - apply (proj1 (proj2 (webhook_bodies_validated Demo.env Demo.analysed))).
    left. reflexivity.
Defined.

(** X8. /webhook/analyze-and-email answers 400 "URL and email are
    required" when either is missing or empty, and 500 "Email functionality
    not configured" when both are there and the provider key is not; the
    MCP tool [email_analysis] reports the missing key as an error. In all
    three cases the state is untouched: nothing is fetched or analysed
    before the mail is known to be possible. *)
Theorem mail_needs_address_and_key env w :
  (forall b, (given (b_url b) = None \/ given (b_email b) = None) ->
             handle env (Cases.post "/webhook/analyze-and-email" b) w
             = (Ok (Some {| code := 400;
                            json := JError "URL and email are required" None |}), w))
  /\ (forall b u email,
         given (b_url b) = Some u -> given (b_email b) = Some email ->
         given (RESEND_API_KEY env) = None ->
         handle env (Cases.post "/webhook/analyze-and-email" b) w
         = (Ok (Some {| code := 500;
                        json := JError "Email functionality not configured" None |}), w))
  /\ (forall u email subject full,
         given (RESEND_API_KEY env) = None ->
         tool_email_analysis env u email subject full w
         = (Ok {| text := "Email functionality is not configured. Please set RESEND_API_KEY.";
                  isError := true |}, w)).
Proof.
  split; [| split].
  - intros b H. unfold handle, dispatch. simpl.
    unfold webhook_analyze_and_email, bind, try_catch. simpl.
    destruct H as [H | H]; rewrite H; [| destruct (given (b_url b))]; reflexivity.
  - intros b u email U E K. unfold handle, dispatch. simpl.
    unfold webhook_analyze_and_email, bind, try_catch. simpl. rewrite U, E, K. reflexivity.
  - intros u email subject full K.
    unfold tool_email_analysis, try_catch. rewrite K. reflexivity.
Qed.

Lemma mail_needs_address_and_key_witness :
  handle Cases.env_no_key (Cases.post "/webhook/analyze-and-email" Cases.empty_body)
         Demo.start
  = (Ok (Some {| code := 400; json := JError "URL and email are required" None |}),
     Demo.start)
  /\ handle Cases.env_no_key (Cases.post "/webhook/analyze-and-email" MailCase.body)
            Demo.start
     = (Ok (Some {| code := 500;
                    json := JError "Email functionality not configured" None |}),
        Demo.start)
  /\ tool_email_analysis Cases.env_no_key Demo.address "reader@example.com" None false
                         Demo.start
     = (Ok {| text := "Email functionality is not configured. Please set RESEND_API_KEY.";
              isError := true |}, Demo.start).
Proof.
  split; [| split].
  - apply (proj1 (mail_needs_address_and_key Cases.env_no_key Demo.start)).
    left. reflexivity.
  - apply (proj1 (proj2 (mail_needs_address_and_key Cases.env_no_key Demo.start))
                 MailCase.body Demo.address "reader@example.com"); reflexivity.
  - apply (proj2 (proj2 (mail_needs_address_and_key Cases.env_no_key Demo.start)));
      reflexivity.
Defined.

Lemma analyzeUrl_returns_a_record env u options w w' :
  analyzeUrl env u options w <> (Ok None, w').
Proof.
  intros H. destruct (cached_or_not u (db w)) as [(existing & F & S) | N].
  - rewrite (analyzeUrl_cached env u options w existing F S) in H. discriminate.
  - destruct (analyzeUrl_run env u options w N) as (r0 & _ & E).
    rewrite E in H. destruct (fetch_extract env u (trace w)); discriminate.
Qed.

Lemma batch_loop_told env options : forall us w,
  exists items w',
    batch_loop env options us w = (Ok items, w')
    /\ batch_told env options us w items w'.
Proof.
  induction us as [| u us IH]; intros w.
  - exists [], w. split; [reflexivity | constructor].
  - cbn [batch_loop]. unfold bind at 1, try_catch. unfold bind at 1.
    destruct (analyzeUrl env u options w) as [[[r |] | e] w1] eqn:A.
    + cbn [id_of]. unfold bind at 1, ret.
      destruct (IH w1) as (items & w2 & E & T).
      unfold bind. rewrite E. eexists. exists w2. split; [reflexivity |].
      exact (told_completed env options u us w r w1 items w2 A T).
    + exfalso. exact (analyzeUrl_returns_a_record env u options w w1 A).
    + unfold ret. destruct (IH w1) as (items & w2 & E & T).
      unfold bind. rewrite E. eexists. exists w2. split; [reflexivity |].
      exact (told_failed env options u us w e w1 items w2 A T).
Qed.

Lemma batch_told_urls env options us w items w' :
  batch_told env options us w items w' -> map bi_url items = us.
Proof. induction 1; simpl; congruence. Qed.

(** X9. The loop of /webhook/batch-analyze analyses the urls one after
    the other, each in the state the ones before it have left, and gives
    every url its own entry, in order: completed, with the id of the record
    its analysis returned, when the analysis returned; failed, with the
    message of the error, when the analysis threw; and then it goes on with
    the next url. So a batch of 1 to 10 urls is always answered 200 with
    exactly these entries, one per url, and the store is as the last
    analysis left it. *)
Theorem batch_isolates_failures :
  (forall env options urls w,
      exists items w',
        batch_loop env options urls w = (Ok items, w')
        /\ batch_told env options urls w items w')
  /\ (forall env b urls w,
         b_urls b = Some urls ->
         1 <= List.length urls <= 10 ->
         exists items w1 w',
           handle env (Cases.post "/webhook/batch-analyze" b) w
           = (Ok (Some {| code := 200; json := JBatch items |}), w')
           /\ batch_told env (match b_options b with Some o => o | None => no_options end)
                         urls w items w1
           /\ db w' = db w1)
  /\ (forall env options urls w items w',
         batch_told env options urls w items w' -> map bi_url items = urls).
Proof.
  split; [intros; apply batch_loop_told |]. split; [| apply batch_told_urls].
  intros env b urls w U [L1 L2].
  destruct (batch_loop_told env
              (match b_options b with Some o => o | None => no_options end) urls w)
    as (items & w1 & E & T).
  unfold handle, dispatch. simpl.
  unfold webhook_batch_analyze, try_catch. unfold bind at 1. simpl. unfold bind at 1.
  simpl. rewrite U.
  destruct urls as [| u urls]; [simpl in L1; lia |].
  replace (10 <? List.length (u :: urls)) with false
    by (symmetry; apply Nat.ltb_ge; exact L2).
  unfold bind at 1. rewrite E.
  destruct (given (b_callback_url b)) as [cb |].
  - unfold bind at 1, waitUntil, try_catch, post_callback.
    destruct (callback_post env (trace w1) cb); simpl;
      (exists items, w1; eexists; split; [reflexivity | split; [exact T | reflexivity]]).
  - exists items, w1. eexists. split; [reflexivity |]. split; [exact T | reflexivity].
Qed.

Lemma batch_isolates_failures_witness :
  exists items w1 w',
    handle Cases.env_one_good (Cases.post "/webhook/batch-analyze" Cases.two_urls)
           Demo.start
    = (Ok (Some {| code := 200; json := JBatch items |}), w')
    /\ batch_told Cases.env_one_good no_options
                  ["https://down.example.com/a"; Demo.address] Demo.start items w1
    /\ db w' = db w1.
Proof.
  apply (proj1 (proj2 batch_isolates_failures) Cases.env_one_good Cases.two_urls
               ["https://down.example.com/a"; Demo.address] Demo.start).
  - reflexivity.
  - simpl. lia.
Defined.

(** ** Relations every store statement keeps are kept by every step *)

Create HintDb store_rel.

Section StoreRelation.

Variable R : World -> World -> Prop.
Hypothesis R_refl : forall w, R w w.
Hypothesis R_trans : forall a b c, R a b -> R b c -> R a c.
Hypothesis R_db : forall w w', db w' = db w -> R w w'.
Hypothesis K_insert : forall env u st err c t, Keeps R (Store.insert_url env u st err c t).
Hypothesis K_update : forall i set, keeps_key set -> Keeps R (Store.update_url i set).
Hypothesis K_tag : forall env o t c cr, Keeps R (Store.insert_tag env o t c cr).
Hypothesis K_delete : forall i, Keeps R (Store.delete_url i).

Lemma SR_quiet w w' : db w' = db w -> mails w' = mails w -> R w w'.
Proof. intros E _. exact (R_db w w' E). Qed.

Lemma SR_resend env k t s h : Keeps R (resend_call env k t s h).
Proof. apply Keeps_resend_call. exact R_db. Qed.

Lemma SR_update_pending i t : Keeps R (Store.update_url i (set_pending t)).
Proof. apply K_update. apply set_pending_key. Qed.

Lemma SR_update_failed i m t : Keeps R (Store.update_url i (set_failed m t)).
Proof. apply K_update. apply set_failed_key. Qed.

Lemma SR_update_completed i a b c d e f g :
  Keeps R (Store.update_url i (set_completed a b c d e f g)).
Proof. apply K_update. apply set_completed_key. Qed.

#[local] Hint Resolve K_insert K_tag K_delete SR_resend SR_update_pending SR_update_failed
  SR_update_completed : store_rel.

Ltac store_rel_tac :=
  cbv zeta;
  repeat first
    [ solve [auto with store_rel nocore]
    | keeps_step R R_refl R_trans SR_quiet
    | match goal with
      | |- Keeps _ (if ?b then _ else _) => destruct b
      end ].

Lemma SR_analyzeUrl env u options : Keeps R (analyzeUrl env u options).
Proof.
  unfold analyzeUrl, enter, run_steps, commit_success, insert_tags, on_failure.
  store_rel_tac.
Qed.

#[local] Hint Resolve SR_analyzeUrl : store_rel.

Lemma SR_sendSummaryEmail env k t s r f : Keeps R (sendSummaryEmail env k t s r f).
Proof. unfold sendSummaryEmail. store_rel_tac. Qed.

Lemma SR_callback_task env u o c r : Keeps R (callback_task env u o c r).
Proof. unfold callback_task. store_rel_tac. Qed.

#[local] Hint Resolve SR_sendSummaryEmail SR_callback_task : store_rel.

Lemma SR_batch_loop env o us : Keeps R (batch_loop env o us).
Proof. induction us as [| u us IH]; simpl; store_rel_tac. Qed.

Lemma SR_batch_results env us : Keeps R (batch_results env us).
Proof. induction us as [| u us IH]; simpl; store_rel_tac. Qed.

#[local] Hint Resolve SR_batch_loop SR_batch_results : store_rel.

Lemma SR_handle env req : Keeps R (handle env req).
Proof.
  unfold handle, dispatch.
  destruct (find (matches req) app) as [rt |] eqn:F; [| apply (Keeps_ret R R_refl)].
  apply find_some in F. destruct F as [Hin _].
  apply (Keeps_bind R R_trans); [| intros; apply (Keeps_ret R R_refl)].
  unfold app in Hin. simpl in Hin.
  destruct Hin as [E | [E | [E | [E | [E | []]]]]]; subst rt; simpl.
  - unfold webhook_analyze, waitUntil. store_rel_tac.
  - unfold webhook_batch_analyze, waitUntil. store_rel_tac.
  - unfold webhook_analyze_email. store_rel_tac.
  - unfold webhook_analyze_and_email. store_rel_tac.
  - unfold webhook_batch_email. store_rel_tac.
Qed.

Lemma SR_tool_analyze_url env u l : Keeps R (tool_analyze_url env u l).
Proof. unfold tool_analyze_url. store_rel_tac. Qed.

Lemma SR_tool_email_analysis env u e s f : Keeps R (tool_email_analysis env u e s f).
Proof. unfold tool_email_analysis. store_rel_tac. Qed.

Lemma SR_delete_analysis i : Keeps R (delete_analysis i).
Proof. unfold delete_analysis. store_rel_tac. Qed.

Lemma SR_step w w' : step w w' -> R w w'.
Proof.
  intros S. destruct S as [env u options w o w' H | env req w o w' H | env u l w o w' H
                          | i w o w' H | env u st err c t w o w' H | i set w o w' K H
                          | env owner t c cr w o w' H].
  - exact (SR_analyzeUrl env u options w o w' H).
  - exact (SR_handle env req w o w' H).
  - exact (SR_tool_analyze_url env u l w o w' H).
  - exact (SR_delete_analysis i w o w' H).
  - exact (K_insert env u st err c t w o w' H).
  - exact (K_update i set K w o w' H).
  - exact (K_tag env owner t c cr w o w' H).
Qed.

End StoreRelation.

(** ** No tag without its record *)

Lemma keeps_owned_refl w : keeps_owned w w.
Proof. unfold keeps_owned. auto. Qed.

Lemma keeps_owned_trans a b c : keeps_owned a b -> keeps_owned b c -> keeps_owned a c.
Proof. unfold keeps_owned. auto. Qed.

Lemma keeps_owned_db w w' : db w' = db w -> keeps_owned w w'.
Proof. unfold keeps_owned. intros ->. auto. Qed.

Lemma Keeps_owned_insert env u st err c t :
  Keeps keeps_owned (Store.insert_url env u st err c t).
Proof.
  intros w o w' H O. unfold Store.insert_url in H.
  destruct (Store.has_url u (urls (db w))); inversion H; subst; [exact O |].
  unfold owned in *. simpl. eapply Forall_impl; [| exact O].
  intros t0 Ht. simpl in Ht. rewrite has_id_app, Ht. reflexivity.
Qed.

Lemma Keeps_owned_update i set :
  keeps_key set -> Keeps keeps_owned (Store.update_url i set).
Proof.
  intros K w o w' H O. unfold Store.update_url in H. inversion H; subst; clear H.
  unfold owned in *. simpl. eapply Forall_impl; [| exact O].
  intros t0 Ht. simpl in Ht. rewrite has_id_map; [exact Ht |].
  intros r. destruct (id r =? i); [apply K | reflexivity].
Qed.

Lemma Keeps_owned_insert_tag env o t c cr :
  Keeps keeps_owned (Store.insert_tag env o t c cr).
Proof.
  intros w r w' H O. unfold Store.insert_tag in H.
  destruct (Store.has_id o (urls (db w))) eqn:E; inversion H; subst; [| exact O].
  unfold owned in *. simpl. apply Forall_app. split; [exact O |].
  constructor; [exact E | constructor].
Qed.

Lemma has_id_filter_other i j rows :
  j <> i ->
  Store.has_id j (filter (fun r => negb (id r =? i)) rows) = Store.has_id j rows.
Proof.
  intros N. unfold Store.has_id. induction rows as [| r rows IH]; simpl; [reflexivity |].
  destruct (id r =? i) eqn:E; simpl.
  - apply Nat.eqb_eq in E. rewrite IH.
    replace (id r =? j) with false; [reflexivity |].
    symmetry. apply Nat.eqb_neq. congruence.
  - rewrite IH. reflexivity.
Qed.

Lemma Keeps_owned_delete i : Keeps keeps_owned (Store.delete_url i).
Proof.
  intros w r w' H O. unfold Store.delete_url in H. inversion H; subst; clear H.
  unfold owned in *. simpl. rewrite Forall_forall in *. intros t Ht.
  apply filter_In in Ht. destruct Ht as [Ht N].
  apply negb_true_iff, Nat.eqb_neq in N.
  rewrite has_id_filter_other by exact N. apply O. exact Ht.
Qed.

(** X10. In every state that can be reached, every row of
    [content_tags] belongs to a record that is there: a tag is inserted only
    for a record that exists, and deleting a record deletes its tags. *)
Theorem no_tag_without_record w :
  reachable w ->
  Forall (fun t => exists r, In r (urls (db w)) /\ id r = urlId t) (tags (db w)).
Proof.
  intros Rw.
  assert (O : owned (db w)).
  { induction Rw as [w E | w w' _ IH S].
    - rewrite E. constructor.
    - exact (SR_step keeps_owned keeps_owned_refl keeps_owned_trans keeps_owned_db
                     Keeps_owned_insert Keeps_owned_update Keeps_owned_insert_tag
                     Keeps_owned_delete w w' S IH). }
  unfold owned in O. eapply Forall_impl; [| exact O].
  intros t Ht. simpl in Ht. unfold Store.has_id in Ht. apply existsb_exists in Ht.
  destruct Ht as (r & Hin & E). apply Nat.eqb_eq in E. eauto.
Qed.

Lemma no_tag_without_record_witness :
  Forall (fun t => exists r,
              In r (urls (db (snd (tool_analyze_url Demo.env Demo.address medium
                                                    Demo.start))))
              /\ id r = urlId t)
         (tags (db (snd (tool_analyze_url Demo.env Demo.address medium Demo.start)))).
Proof.
  apply no_tag_without_record.
  apply (reachable_step Demo.start).
  - apply reachable_start. reflexivity.
  - apply (step_tool Demo.env Demo.address medium Demo.start
                     (fst (tool_analyze_url Demo.env Demo.address medium Demo.start))).
    apply surjective_pairing.
Defined.

(** ** What the first registrations leave out *)

Lemma Keeps_no_mail_batch_loop env o us : Keeps no_mail (batch_loop env o us).
Proof.
  induction us as [| u us IH]; simpl;
    repeat first
      [ apply Keeps_no_mail_analyzeUrl
      | exact IH
      | keeps_step no_mail no_mail_refl no_mail_trans no_mail_quiet ].
Qed.

Lemma Keeps_no_mail_webhook_batch_analyze env req :
  Keeps no_mail (webhook_batch_analyze env req).
Proof.
  unfold webhook_batch_analyze, waitUntil. cbv zeta.
  repeat first
    [ apply Keeps_no_mail_batch_loop
    | keeps_step no_mail no_mail_refl no_mail_trans no_mail_quiet
    | match goal with
      | |- Keeps _ (if ?b then _ else _) => destruct b
      end ].
Qed.

(** X11. Every POST to /webhook/batch-analyze is answered by the first
    registration of the route, which reads neither [email] nor
    [subject_prefix]: whatever the body and the provider key, the batch
    route sends no mail. *)
Theorem batch_route_sends_no_mail env j w :
  handle env {| req_method := POST; req_path := "/webhook/batch-analyze"; req_json := j |} w
  = bind (webhook_batch_analyze env j) (fun r => ret (Some r)) w
  /\ mails (snd (handle env {| req_method := POST; req_path := "/webhook/batch-analyze";
                               req_json := j |} w))
     = mails w.
Proof.
  split; [reflexivity |].
  change (handle env {| req_method := POST; req_path := "/webhook/batch-analyze";
                        req_json := j |} w)
    with (bind (webhook_batch_analyze env j) (fun r => ret (Some r)) w).
  unfold bind. destruct (webhook_batch_analyze env j w) as [[r | e] w1] eqn:E; simpl;
    exact (Keeps_no_mail_webhook_batch_analyze env j w _ _ E).
Qed.

Lemma same_tags_refl w : same_tags w w.
Proof. reflexivity. Qed.

Lemma same_tags_trans a b c : same_tags a b -> same_tags b c -> same_tags a c.
Proof. unfold same_tags. congruence. Qed.

Lemma same_tags_quiet w w' : db w' = db w -> mails w' = mails w -> same_tags w w'.
Proof. intros E _. unfold same_tags. rewrite E. reflexivity. Qed.

Lemma Keeps_same_tags_update i set : Keeps same_tags (Store.update_url i set).
Proof. intros w o w' H. inversion H; subst. reflexivity. Qed.

Lemma Keeps_same_tags_insert env u st err c t :
  Keeps same_tags (Store.insert_url env u st err c t).
Proof.
  intros w o w' H. unfold Store.insert_url in H.
  destruct (Store.has_url u (urls (db w))); inversion H; subst; reflexivity.
Qed.

(** Without [generate_tags] the pipeline writes no tag. *)
Lemma Keeps_same_tags_analyzeUrl env u options :
  truthy (generate_tags options) = false ->
  Keeps same_tags (analyzeUrl env u options).
Proof.
  intros G. unfold analyzeUrl, enter, run_steps, commit_success, on_failure.
  rewrite G. cbv zeta. simpl andb.
  repeat first
    [ keeps_step same_tags same_tags_refl same_tags_trans same_tags_quiet
    | apply Keeps_same_tags_insert
    | apply Keeps_same_tags_update ].
Qed.

(** X12. /webhook/analyze hands [analyzeUrl] the [options] object of the
    body and nothing else of it, and line 188 stores tags only when
    [options.generate_tags] is truthy. So a request whose body has no
    [options], or an [options] whose [generate_tags] is absent or [false],
    leaves the tag table as it was, in the synchronous and in the callback
    mode, whatever the top-level [generate_tags] of the body says. *)
Theorem webhook_analyze_tags_need_options env b w :
  (forall o, b_options b = Some o -> truthy (generate_tags o) = false) ->
  tags (db (snd (handle env (Cases.post "/webhook/analyze" b) w))) = tags (db w).
Proof.
  intros H.
  set (options := match b_options b with Some o => o | None => no_options end).
  assert (G : truthy (generate_tags options) = false).
  { unfold options. destruct (b_options b) as [o |]; [| reflexivity].
    exact (H o eq_refl). }
  assert (K : Keeps same_tags (webhook_analyze env (Ok b))).
  { unfold webhook_analyze, waitUntil, callback_task. fold options. cbv zeta.
    repeat first
      [ match goal with
        | |- Keeps ?R (bind (await (Ok ?x)) ?k) => change (Keeps R (k x)); cbv beta
        end
      | apply (Keeps_same_tags_analyzeUrl _ _ _ G)
      | keeps_step same_tags same_tags_refl same_tags_trans same_tags_quiet
      | apply Keeps_same_tags_insert ]. }
  change (handle env (Cases.post "/webhook/analyze" b) w)
    with (bind (webhook_analyze env (Ok b)) (fun r => ret (Some r)) w).
  unfold bind. destruct (webhook_analyze env (Ok b) w) as [[r | e] w1] eqn:E; simpl;
    exact (K w _ _ E).
Qed.

Lemma webhook_analyze_tags_need_options_witness :
  tags (db (snd (handle Demo.env (Cases.post "/webhook/analyze" MailCase.body) Demo.start)))
  = tags (db Demo.start).
Proof.
  apply (webhook_analyze_tags_need_options Demo.env MailCase.body Demo.start).
  intros o H. discriminate.
Defined.

(** ** A run and the other records *)

Lemma same_id_same_row rows a b :
  NoDup (map id rows) -> In a rows -> In b rows -> id a = id b -> a = b.
Proof.
  induction rows as [| x rows IH]; simpl; intros N Ha Hb E; [contradiction |].
  inversion N as [| ? ? Hx Hr]; subst.
  destruct Ha as [Ha | Ha]; destruct Hb as [Hb | Hb]; subst.
  - reflexivity.
  - exfalso. apply Hx. rewrite E. apply in_map. exact Hb.
  - exfalso. apply Hx. rewrite <- E. apply in_map. exact Ha.
  - auto.
Qed.

Lemma same_url_same_row rows a b :
  NoDup (map url rows) -> In a rows -> In b rows -> url a = url b -> a = b.
Proof.
  induction rows as [| x rows IH]; simpl; intros N Ha Hb E; [contradiction |].
  inversion N as [| ? ? Hx Hr]; subst.
  destruct Ha as [Ha | Ha]; destruct Hb as [Hb | Hb]; subst.
  - reflexivity.
  - exfalso. apply Hx. rewrite E. apply in_map. exact Hb.
  - exfalso. apply Hx. rewrite <- E. apply in_map. exact Ha.
  - auto.
Qed.

Lemma with_url_patch_other v i set rows :
  keeps_key set ->
  (forall r, In r rows -> url r = v -> id r <> i) ->
  Store.with_url v (map (fun r => if id r =? i then set r else r) rows)
  = Store.with_url v rows.
Proof.
  intros K. unfold Store.with_url. induction rows as [| x rows IH]; simpl; intros H.
  - reflexivity.
  - assert (U : url (if id x =? i then set x else x) = url x).
    { destruct (id x =? i); [apply K | reflexivity]. }
    rewrite U. destruct (String.eqb (url x) v) eqn:E.
    + apply String.eqb_eq in E.
      assert (N : id x <> i) by (apply H; auto).
      apply Nat.eqb_neq in N. rewrite N. f_equal. apply IH. intros r Hr. apply H. auto.
    + apply IH. intros r Hr. apply H. auto.
Qed.

(** In a well-formed table the rows under another url have another id
    than the record of [u]. *)
Lemma other_url_other_id d u v r1 :
  wf_db d -> Store.find_url u d = Some r1 -> v <> u ->
  forall r, In r (urls d) -> url r = v -> id r <> id r1.
Proof.
  intros W F N r Hin U E.
  destruct (find_url_some _ _ _ F) as [Hin1 U1].
  assert (X : r = r1) by (exact (same_id_same_row _ _ _ (wf_ids _ W) Hin Hin1 E)).
  subst r. congruence.
Qed.

Lemma started_other_urls env u w v :
  wf_db (db w) -> not_cached u (db w) -> v <> u ->
  Store.with_url v (urls (db (started env u w))) = Store.with_url v (urls (db w)).
Proof.
  intros W N V. unfold started.
  destruct (Store.find_url u (db w)) as [existing |] eqn:F.
  - unfold marked_pending. simpl. apply with_url_patch_other; [apply set_pending_key |].
    exact (other_url_other_id (db w) u v existing W F V).
  - unfold inserted_pending. simpl. unfold Store.with_url. rewrite filter_app. simpl.
    replace (String.eqb u v) with false; [apply app_nil_r |].
    symmetry. apply String.eqb_neq. congruence.
Qed.

Lemma committed_tags env u options i ex s w :
  tags (db (committed env u options i ex s w))
  = (tags (db w)
     ++ (if truthy (generate_tags options) && (0 <? List.length (sum_tags s))
         then tag_rows env i (next_tag_id (db w)) (S (S (clock w))) (sum_tags s)
         else []))%list.
Proof.
  unfold committed.
  destruct (truthy (generate_tags options) && (0 <? List.length (sum_tags s))).
  - reflexivity.
  - simpl. rewrite app_nil_r. reflexivity.
Qed.

Lemma tag_rows_owner env owner l : forall n c,
  Forall (fun t => urlId t = owner) (tag_rows env owner n c l).
Proof.
  induction l as [| t l IH]; intros n c; simpl; constructor; [reflexivity | apply IH].
Qed.

(** X13. With the store well-formed, a run for the url [u] touches the
    record of [u] only: the rows stored under any other url are what they
    were, no tag row is removed or changed, and every tag row that is added
    belongs to the record of [u]. *)
Theorem run_touches_only_its_record env u options w o w' :
  wf_db (db w) ->
  analyzeUrl env u options w = (o, w') ->
  (forall v, v <> u ->
             Store.with_url v (urls (db w')) = Store.with_url v (urls (db w)))
  /\ exists new,
      tags (db w') = (tags (db w) ++ new)%list
      /\ Forall (fun t => exists r, Store.find_url u (db w') = Some r /\ urlId t = id r) new.
Proof.
  intros W H. destruct (cached_or_not u (db w)) as [(existing & F & S) | N].
  { rewrite (analyzeUrl_cached env u options w existing F S) in H.
    inversion H; subst. split; [reflexivity |]. exists []. split.
    - symmetry. apply app_nil_r.
    - constructor. }
  destruct (analyzeUrl_run env u options w N) as (r0 & _ & E).
  rewrite E in H. clear E.
  pose proof (started_wf env u w W N) as W0.
  destruct (started_find env u w N) as (r1 & F1 & I1 & _).
  assert (O : forall v, v <> u ->
              forall set, keeps_key set ->
                Store.with_url v
                  (map (fun r => if id r =? id (working_record env u w) then set r else r)
                       (urls (db (started env u w))))
                = Store.with_url v (urls (db w))).
  { intros v V set K. rewrite <- (started_other_urls env u w v W N V).
    apply with_url_patch_other; [exact K |]. rewrite <- I1.
    exact (other_url_other_id _ u v r1 W0 F1 V). }
  destruct (fetch_extract env u (trace w)) as [ex | e].
  - cbv zeta in H. inversion H; subst; clear H. split.
    + intros v V. rewrite committed_urls, summarizing_db.
      apply O; [exact V |]. unfold completed_patch. apply set_completed_key.
    + eexists. split.
      * rewrite committed_tags, summarizing_db, started_tags. reflexivity.
      * destruct (committed_find env u options ex
                    (summarized env (Extract.ex_content ex) (summary_length options)
                                (trace w ++ [EvFetch u])) w N) as (r1' & F1' & I1' & F2).
        destruct (truthy (generate_tags options) && _); [| constructor].
        eapply Forall_impl; [| apply tag_rows_owner].
        intros t Ht. simpl in Ht. eexists. split; [exact F2 |].
        change (id (completed_patch env u ex _ _ r1')) with (id r1').
        rewrite I1'. exact Ht.
  - inversion H; subst; clear H. split.
    + intros v V. simpl. apply O; [exact V | apply set_failed_key].
    + exists []. split; [| constructor]. simpl. rewrite started_tags.
      symmetry. apply app_nil_r.
Qed.

Lemma run_touches_only_its_record_witness :
  (forall v, v <> "https://example.com/other" ->
     Store.with_url v
       (urls (db (snd (analyzeUrl Demo.env "https://example.com/other"
                                  {| generate_tags := Some true; summary_length := None |}
                                  Demo.analysed))))
     = Store.with_url v (urls (db Demo.analysed)))
  /\ exists new,
      tags (db (snd (analyzeUrl Demo.env "https://example.com/other"
                                {| generate_tags := Some true; summary_length := None |}
                                Demo.analysed)))
      = (tags (db Demo.analysed) ++ new)%list
      /\ Forall (fun t => exists r,
                     Store.find_url "https://example.com/other"
                       (db (snd (analyzeUrl Demo.env "https://example.com/other"
                                   {| generate_tags := Some true; summary_length := None |}
                                   Demo.analysed))) = Some r
                     /\ urlId t = id r) new.
Proof.
  apply (run_touches_only_its_record Demo.env "https://example.com/other"
           {| generate_tags := Some true; summary_length := None |} Demo.analysed
           (fst (analyzeUrl Demo.env "https://example.com/other"
                            {| generate_tags := Some true; summary_length := None |}
                            Demo.analysed))).
  - constructor; simpl; repeat constructor; simpl; auto.
  - apply surjective_pairing.
Defined.

(** ** Deleting and reading back *)

Lemma filter_none {A : Type} (p : A -> bool) (l : list A) :
  (forall x, In x l -> p x = false) -> filter p l = [].
Proof.
  induction l as [| x l IH]; simpl; intros H; [reflexivity |].
  rewrite (H x (or_introl eq_refl)). apply IH. intros y Hy. apply H. auto.
Qed.

Lemma filter_all {A : Type} (p : A -> bool) (l : list A) :
  (forall x, In x l -> p x = true) -> filter p l = l.
Proof.
  induction l as [| x l IH]; simpl; intros H; [reflexivity |].
  rewrite (H x (or_introl eq_refl)). f_equal. apply IH. intros y Hy. apply H. auto.
Qed.

Lemma api_delete_analysis_eq i w :
  api_delete_analysis i w
  = (Ok {| api_code := 200; api_json := AMessage "Analysis deleted successfully" |},
     snd (Store.delete_url i w)).
Proof. reflexivity. Qed.

Lemma api_get_analysis_eq i w :
  api_get_analysis i w
  = (match hd_error (filter (fun r => id r =? i) (urls (db w))) with
     | None => Ok {| api_code := 404; api_json := AError "Analysis not found" None |}
     | Some result =>
         Ok {| api_code := 200;
               api_json := ARecord result (filter (fun t => urlId t =? i) (tags (db w))) |}
     end, w).
Proof.
  unfold api_get_analysis, try_catch, bind, select_by_id, select_tags_of.
  destruct (hd_error (filter (fun r => id r =? i) (urls (db w)))); reflexivity.
Qed.

(** X14. Deleting the record of a url, in a well-formed store, answers
    200 and leaves nothing of it: no record under the url, no tag row of the
    record, 404 from GET /api/analysis/:id and "No analysis found" from
    [get_url_details]. The next [analyzeUrl] of the url is then not served
    from the store: it fetches the page again. *)
Theorem delete_then_analyze_afresh u w r :
  wf_db (db w) ->
  Store.find_url u (db w) = Some r ->
  exists w1,
    api_delete_analysis (id r) w
    = (Ok {| api_code := 200; api_json := AMessage "Analysis deleted successfully" |}, w1)
    /\ Store.find_url u (db w1) = None
    /\ Forall (fun t => urlId t <> id r) (tags (db w1))
    /\ api_get_analysis (id r) w1
       = (Ok {| api_code := 404; api_json := AError "Analysis not found" None |}, w1)
    /\ tool_get_url_details u w1
       = (Ok {| text := "No analysis found for URL: " ++ u; isError := false |}, w1)
    /\ forall env options o w2,
        analyzeUrl env u options w1 = (o, w2) ->
        exists rest, trace w2 = (trace w1 ++ EvFetch u :: rest)%list.
Proof.
  intros W F. destruct (find_url_some _ _ _ F) as [Hin U].
  eexists. split; [apply api_delete_analysis_eq |].
  assert (NU : Store.with_url u (urls (db (snd (Store.delete_url (id r) w)))) = []).
  { simpl. unfold Store.with_url. apply filter_none. intros x Hx.
    apply filter_In in Hx. destruct Hx as [Hx Nx].
    apply String.eqb_neq. intros E.
    assert (X : x = r).
    { apply (same_url_same_row _ _ _ (wf_urls _ W) Hx Hin). congruence. }
    subst x. rewrite Nat.eqb_refl in Nx. discriminate. }
  assert (NI : filter (fun x => id x =? id r) (urls (db (snd (Store.delete_url (id r) w))))
               = []).
  { simpl. apply filter_none. intros x Hx.
    apply filter_In in Hx. destruct Hx as [_ Nx]. apply negb_true_iff in Nx. exact Nx. }
  assert (FN : Store.find_url u (db (snd (Store.delete_url (id r) w))) = None).
  { unfold Store.find_url. rewrite NU. reflexivity. }
  split; [exact FN |]. split; [| split; [| split]].
  - simpl. rewrite Forall_forall. intros t Ht. apply filter_In in Ht.
    destruct Ht as [_ N]. apply negb_true_iff, Nat.eqb_neq in N. exact N.
  - rewrite api_get_analysis_eq, NI. reflexivity.
  - unfold tool_get_url_details, try_catch, bind, Store.select_by_url. rewrite NU.
    reflexivity.
  - intros env options o w2 H.
    destruct (analyzeUrl_uncached_calls env u options (snd (Store.delete_url (id r) w)) o w2)
      as [(e & _ & T) | (r' & c & _ & _ & T)];
      [intros x Fx; rewrite FN in Fx; discriminate | exact H | |].
    + exists []. exact T.
    + eexists. exact T.
Qed.

Lemma delete_then_analyze_afresh_witness :
  exists w1,
    api_delete_analysis (id Demo.done_row) Demo.analysed
    = (Ok {| api_code := 200; api_json := AMessage "Analysis deleted successfully" |}, w1)
    /\ Store.find_url Demo.address (db w1) = None
    /\ Forall (fun t => urlId t <> id Demo.done_row) (tags (db w1))
    /\ api_get_analysis (id Demo.done_row) w1
       = (Ok {| api_code := 404; api_json := AError "Analysis not found" None |}, w1)
    /\ tool_get_url_details Demo.address w1
       = (Ok {| text := "No analysis found for URL: " ++ Demo.address; isError := false |},
          w1)
    /\ forall env options o w2,
        analyzeUrl env Demo.address options w1 = (o, w2) ->
        exists rest, trace w2 = (trace w1 ++ EvFetch Demo.address :: rest)%list.
Proof.
  apply (delete_then_analyze_afresh Demo.address Demo.analysed Demo.done_row).
  - constructor; simpl; repeat constructor; simpl; auto.
  - reflexivity.
Defined.

(** X15. Deleting an id that no record has answers 200 "Analysis deleted
    successfully" all the same; with no orphan tag in the store, nothing has
    changed. *)
Theorem delete_unknown_id_is_silent i w :
  Store.has_id i (urls (db w)) = false ->
  owned (db w) ->
  api_delete_analysis i w
  = (Ok {| api_code := 200; api_json := AMessage "Analysis deleted successfully" |}, w).
Proof.
  intros H O. rewrite api_delete_analysis_eq. f_equal.
  unfold Store.delete_url. simpl.
  assert (A : filter (fun r => negb (id r =? i)) (urls (db w)) = urls (db w)).
  { apply filter_all. intros x Hx. apply negb_true_iff, Nat.eqb_neq. intros E.
    subst i. rewrite (in_has_id x _ Hx) in H. discriminate. }
  assert (B : filter (fun t => negb (urlId t =? i)) (tags (db w)) = tags (db w)).
  { apply filter_all. intros t Ht. apply negb_true_iff, Nat.eqb_neq. intros E.
    unfold owned in O. rewrite Forall_forall in O. specialize (O t Ht).
    rewrite E in O. congruence. }
  rewrite A, B. destruct w as [[us ts n1 n2] c tr co]. reflexivity.
Qed.

Lemma delete_unknown_id_is_silent_witness :
  api_delete_analysis 7 Demo.analysed
  = (Ok {| api_code := 200; api_json := AMessage "Analysis deleted successfully" |},
     Demo.analysed).
Proof.
  apply (delete_unknown_id_is_silent 7 Demo.analysed).
  - reflexivity.
  - constructor.
Defined.

Lemma wf_has_id_lt d i : wf_db d -> Store.has_id i (urls d) = true -> i < next_url_id d.
Proof.
  intros W H. unfold Store.has_id in H. apply existsb_exists in H.
  destruct H as (r & Hin & E). apply Nat.eqb_eq in E. subst i.
  pose proof (wf_next _ W) as N. rewrite Forall_forall in N. exact (N r Hin).
Qed.

Lemma tag_rows_tags env owner l : forall n c,
  map tag (tag_rows env owner n c l) = l.
Proof.
  induction l as [| t l IH]; intros n c; simpl; [reflexivity | rewrite IH; reflexivity].
Qed.

Lemma tag_rows_confidence env owner l : forall n c,
  Forall (fun t => confidence t = Some (8 # 10) /\ urlId t = owner)
         (tag_rows env owner n c l).
Proof.
  induction l as [| t l IH]; intros n c; simpl; constructor; [split; reflexivity | apply IH].
Qed.

(** X16. Analyse, then read back. In a well-formed store without orphan
    tags, a first analysis of a url with [generate_tags] true and a good
    page returns a record [r] such that GET /api/analysis/:id for its id
    answers 200 with that very record and with exactly the tags read from
    the model's answer, in order, each with confidence 0.8. *)
Theorem analyze_then_get env u options w response html model :
  wf_db (db w) ->
  owned (db w) ->
  Store.find_url u (db w) = None ->
  generate_tags options = Some true ->
  http_get env (trace w) u = Ok response ->
  resp_ok response = true ->
  resp_text response = Ok html ->
  50 <= String.length (Extract.ex_content (Extract.extractContent html)) ->
  ai_run env (trace w ++ [EvFetch u]) system_prompt
         (summary_prompt (Extract.ex_content (Extract.extractContent html))
                         (summary_length options)) = model ->
  exists r w' ts,
    analyzeUrl env u options w = (Ok (Some r), w')
    /\ api_get_analysis (id r) w'
       = (Ok {| api_code := 200; api_json := ARecord r ts |}, w')
    /\ map tag ts = match model with
                    | Ok reply => sum_tags (parse_reply (reply_text reply))
                    | Throw _ => []
                    end
    /\ Forall (fun t => confidence t = Some (8 # 10) /\ urlId t = id r) ts.
Proof.
  intros W O F G Hg K T L A.
  assert (N : not_cached u (db w)).
  { intros r Hr. rewrite F in Hr. discriminate. }
  destruct (analyzeUrl_run env u options w N) as (r0 & _ & E).
  rewrite (fetch_extract_ok env u (trace w) response html Hg K T L) in E.
  cbv zeta in E.
  set (ex := Extract.extractContent html) in *.
  set (s := summarized env (Extract.ex_content ex) (summary_length options)
                       (trace w ++ [EvFetch u])) in *.
  assert (P : sum_tags s = match model with
                           | Ok reply => sum_tags (parse_reply (reply_text reply))
                           | Throw _ => []
                           end).
  { unfold s, summarized. rewrite A. destruct model; reflexivity. }
  destruct (analyzeUrl_ok_found env u options w _ _ W E) as [Ff _].
  pose proof (Keeps_wf_analyzeUrl env u options w _ _ E W) as W'.
  destruct (find_url_some _ _ _ Ff) as [Hin _].
  assert (I : id (completed_patch env u ex s (summarizing env u options ex w) r0)
              = next_url_id (db w)).
  { destruct (committed_find env u options ex s w N) as (r1 & _ & I1 & F2).
    rewrite Ff in F2.
    assert (X : id (completed_patch env u ex s (summarizing env u options ex w) r0)
                = id (completed_patch env u ex s (summarizing env u options ex w) r1))
      by congruence.
    rewrite X.
    change (id (completed_patch env u ex s (summarizing env u options ex w) r1))
      with (id r1).
    rewrite I1. unfold working_record. rewrite F. reflexivity. }
  eexists. eexists.
  exists (if 0 <? List.length (sum_tags s)
          then tag_rows env (next_url_id (db w)) (next_tag_id (db w))
                        (S (S (clock (started env u w)))) (sum_tags s)
          else []).
  split; [exact E |]. split; [| split].
  - rewrite api_get_analysis_eq.
    pose proof (with_id_unique _ _ (wf_ids _ W') Hin) as X. unfold with_id in X.
    rewrite X. simpl hd_error. cbv iota beta. f_equal. f_equal. f_equal. f_equal.
    rewrite committed_tags, summarizing_db, started_tags, G. simpl truthy. simpl andb.
    rewrite filter_app, I.
    rewrite filter_none.
    + simpl. unfold summarizing. rewrite after_summary_clock. simpl.
      unfold working_record. rewrite F. simpl.
      replace (next_tag_id (db (started env u w))) with (next_tag_id (db w))
        by (unfold started; rewrite F; reflexivity).
      destruct (0 <? List.length (sum_tags s)); [| reflexivity].
      apply filter_all. intros t Ht.
      pose proof (tag_rows_owner env (next_url_id (db w)) (sum_tags s)
                                 (next_tag_id (db w)) (S (S (clock (started env u w)))))
        as Q.
      rewrite Forall_forall in Q. rewrite (Q t Ht). apply Nat.eqb_refl.
    + intros t Ht. apply Nat.eqb_neq. intros Et.
      unfold owned in O. rewrite Forall_forall in O. specialize (O t Ht).
      pose proof (wf_has_id_lt _ _ W O). lia.
  - rewrite <- P. destruct (0 <? List.length (sum_tags s)) eqn:Z.
    + apply tag_rows_tags.
    + apply Nat.ltb_ge in Z. destruct (sum_tags s); [reflexivity | simpl in Z; lia].
  - rewrite I. destruct (0 <? List.length (sum_tags s)); [| constructor].
    apply tag_rows_confidence.
Qed.

Lemma analyze_then_get_witness :
  exists r w' ts,
    analyzeUrl Demo.env Demo.address
               {| generate_tags := Some true; summary_length := None |} Demo.start
    = (Ok (Some r), w')
    /\ api_get_analysis (id r) w'
       = (Ok {| api_code := 200; api_json := ARecord r ts |}, w')
    /\ map tag ts = ["a"; "b"; "c"; "d"; "e"]
    /\ Forall (fun t => confidence t = Some (8 # 10) /\ urlId t = id r) ts.
Proof.
  apply (analyze_then_get Demo.env Demo.address
           {| generate_tags := Some true; summary_length := None |} Demo.start
           {| resp_status := 200; resp_statusText := "OK"; resp_text := Ok Demo.page |}
           Demo.page (Ok (Some Demo.reply_8_tags))).
  - exact wf_empty.
  - constructor.
  - reflexivity.
  - reflexivity.
  - reflexivity.
  - reflexivity.
  - reflexivity.
  - vm_compute. lia.
  - reflexivity.
Defined.

(** ** The callback mode *)

Lemma has_url_false_with_url u rows :
  Store.has_url u rows = false -> Store.with_url u rows = [].
Proof.
  unfold Store.has_url, Store.with_url. induction rows as [| r rows IH]; simpl; intros H.
  - reflexivity.
  - apply orb_false_iff in H. destruct H as [H1 H2]. rewrite H1. exact (IH H2).
Qed.

Lemma with_id_hd_id i rows r : hd_error (with_id i rows) = Some r -> id r = i.
Proof.
  unfold with_id. induction rows as [| x rows IH]; simpl; intros H; [discriminate |].
  destruct (id x =? i) eqn:E.
  - simpl in H. inversion H; subst. apply Nat.eqb_eq. exact E.
  - exact (IH H).
Qed.

Lemma callbacks_app w l :
  filter is_callback (trace w ++ l) = (callbacks w ++ filter is_callback l)%list.
Proof. unfold callbacks. apply filter_app. Qed.

(** What a run that is not served from the store leaves: no callback,
    a record of the working id that is not pending, and an id for the
    record it returns. *)
Lemma analyzeUrl_uncached env u options w o w' :
  not_cached u (db w) ->
  analyzeUrl env u options w = (o, w') ->
  callbacks w' = callbacks w
  /\ (exists rec, Store.find_url u (db w') = Some rec
                  /\ id rec = id (working_record env u w) /\ status rec <> pending)
  /\ ((exists r, o = Ok (Some r) /\ id r = id (working_record env u w)
                 /\ status r = completed)
      \/ exists e, o = Throw e).
Proof.
  intros N H. destruct (analyzeUrl_run env u options w N) as (r0 & Hr0 & E).
  rewrite E in H. clear E. apply with_id_hd_id in Hr0.
  destruct (fetch_extract env u (trace w)) as [ex | e].
  - cbv zeta in H. inversion H; subst; clear H. split; [| split].
    + unfold callbacks at 1. rewrite committed_trace, summarizing_trace, callbacks_app.
      simpl. apply app_nil_r.
    + destruct (committed_find env u options ex
                  (summarized env (Extract.ex_content ex) (summary_length options)
                              (trace w ++ [EvFetch u])) w N) as (r1 & _ & I1 & F).
      eexists. split; [exact F |]. split; [exact I1 | discriminate].
    + left. eexists. split; [reflexivity |]. split; [exact Hr0 | reflexivity].
  - inversion H; subst; clear H. split; [| split].
    + unfold callbacks at 1. simpl. rewrite started_trace, callbacks_app. simpl.
      apply app_nil_r.
    + destruct (started_find env u w N) as (r1 & F1 & I1 & _).
      destruct (failure_committed_find env u w e N) as (r1' & F1' & F).
      rewrite F1 in F1'. inversion F1'; subst r1'.
      eexists. split; [exact F |]. split; [exact I1 | discriminate].
    + right. eauto.
Qed.

Lemma post_callback_eq env t p w :
  exists w',
    post_callback env t p w = (Ok tt, w')
    /\ db w' = db w
    /\ trace w' = (trace w ++ [EvCallback t p])%list.
Proof.
  unfold post_callback. destruct (callback_post env (trace w) t);
    eexists; split; try reflexivity; split; reflexivity.
Qed.

Lemma analyzeUrl_uncached_outcome env u options w o w' :
  wf_db (db w) ->
  not_cached u (db w) ->
  analyzeUrl env u options w = (o, w') ->
  callbacks w' = callbacks w
  /\ ((exists r, o = Ok (Some r) /\ Store.find_url u (db w') = Some r
                 /\ id r = id (working_record env u w) /\ status r = completed)
      \/ (exists e rec, o = Throw e /\ Store.find_url u (db w') = Some rec
                        /\ id rec = id (working_record env u w)
                        /\ status rec = failed
                        /\ errorMessage rec = Some (message_of e))).
Proof.
  intros W N H.
  destruct (analyzeUrl_uncached env u options w o w' N H)
    as (Cb & (rec & Fr & Ir & _) & [(r & -> & Idr & Str) | (e & ->)]).
  - split; [exact Cb |]. left. exists r.
    destruct (analyzeUrl_ok_found env u options w r w' W H) as [F _]. auto.
  - split; [exact Cb |]. right. exists e, rec.
    split; [reflexivity |]. split; [exact Fr |]. split; [exact Ir |].
    destruct (analyzeUrl_run env u options w N) as (r0 & _ & E).
    rewrite E in H. clear E.
    destruct (fetch_extract env u (trace w)) as [ex | e']; [discriminate |].
    inversion H; subst; clear H.
    destruct (failure_committed_find env u w e N) as (r1 & _ & F).
    rewrite F in Fr. inversion Fr; subst rec. split; reflexivity.
Qed.

(** X17. The callback mode of /webhook/analyze, for a url that has no
    record yet, in a well-formed store. The route inserts a pending record,
    answers 200 with its id, and the pipeline runs on the state with that
    record. Exactly one callback is posted to [callback_url], and it tells
    how that run ended: when the run returned a record, the callback
    carries the id and that record, which is the completed record now
    stored under the url; when the run threw, the callback carries the id
    and the [message] property of the error, and the record stored under
    the url is failed with the error's message. The store is as the run
    left it. *)
Theorem callback_posted_once env b u callback_url w :
  wf_db (db w) ->
  given (b_url b) = Some u ->
  given (b_callback_url b) = Some callback_url ->
  Store.has_url u (urls (db w)) = false ->
  exists o w2 w',
    analyzeUrl env u (match b_options b with Some o => o | None => no_options end)
               (inserted_pending env u w) = (o, w2)
    /\ handle env (Cases.post "/webhook/analyze" b) w
       = (Ok (Some {| code := 200; json := JStarted (next_url_id (db w)) |}), w')
    /\ db w' = db w2
    /\ ((exists r,
            o = Ok (Some r)
            /\ callbacks w'
               = (callbacks w
                  ++ [EvCallback callback_url (CbCompleted (next_url_id (db w)) r)])%list
            /\ Store.find_url u (db w') = Some r
            /\ id r = next_url_id (db w)
            /\ status r = completed)
        \/ (exists e rec,
               o = Throw e
               /\ callbacks w'
                  = (callbacks w
                     ++ [EvCallback callback_url
                                    (CbFailed (next_url_id (db w)) (message_property e))])%list
               /\ Store.find_url u (db w') = Some rec
               /\ id rec = next_url_id (db w)
               /\ status rec = failed
               /\ errorMessage rec = Some (message_of e))).
Proof.
  intros W U C H.
  set (options := match b_options b with Some o => o | None => no_options end).
  set (w1 := inserted_pending env u w).
  assert (F0 : Store.find_url u (db w) = None).
  { unfold Store.find_url. rewrite (has_url_false_with_url _ _ H). reflexivity. }
  assert (F1 : Store.find_url u (db w1) = Some (pending_row env u w)).
  { unfold Store.find_url, w1, inserted_pending. simpl.
    apply find_url_app_new; [apply has_url_false_with_url; exact H | reflexivity]. }
  assert (W1 : wf_db (db w1)).
  { assert (N0 : not_cached u (db w)) by (intros r Hr; rewrite F0 in Hr; discriminate).
    pose proof (started_wf env u w W N0) as X. unfold started in X.
    rewrite F0 in X. exact X. }
  assert (N : not_cached u (db w1)).
  { intros r Hr. rewrite F1 in Hr. inversion Hr; subst. discriminate. }
  assert (I : id (working_record env u w1) = next_url_id (db w)).
  { unfold working_record. rewrite F1. reflexivity. }
  assert (Cw : callbacks w1 = callbacks w) by reflexivity.
  destruct (analyzeUrl env u options w1) as [o w2] eqn:E.
  exists o, w2.
  assert (T : exists w3,
             callback_task env u options callback_url (Some (pending_row env u w)) w1
             = (Ok tt, w3)
             /\ db w3 = db w2
             /\ callbacks w3
                = (callbacks w
                   ++ [EvCallback callback_url
                         (match o with
                          | Ok (Some r) => CbCompleted (id r) r
                          | Ok None => CbFailed (next_url_id (db w))
                                                (message_property undefined_id)
                          | Throw e => CbFailed (next_url_id (db w)) (message_property e)
                          end)])%list).
  { unfold callback_task, try_catch. unfold bind at 1. rewrite E.
    destruct (analyzeUrl_uncached_outcome env u options w1 o w2 W1 N E)
      as (Cb & [(r & -> & _) | (e & rec & -> & _)]).
    - change ((r0 <- defined (Some r) undefined_id;;
               post_callback env callback_url (CbCompleted (id r0) r0)) w2)
        with (post_callback env callback_url (CbCompleted (id r) r) w2).
      destruct (post_callback_eq env callback_url (CbCompleted (id r) r) w2)
        as (w3 & P & D & Tr).
      rewrite P. exists w3. split; [reflexivity |]. split; [exact D |].
      unfold callbacks at 1. rewrite Tr, callbacks_app, Cb, Cw. reflexivity.
    - change ((i <- id_of (Some (pending_row env u w));;
               post_callback env callback_url (CbFailed i (message_property e))) w2)
        with (post_callback env callback_url
                (CbFailed (next_url_id (db w)) (message_property e)) w2).
      destruct (post_callback_eq env callback_url
                  (CbFailed (next_url_id (db w)) (message_property e)) w2)
        as (w3 & P & D & Tr).
      rewrite P. exists w3. split; [reflexivity |]. split; [exact D |].
      unfold callbacks at 1. rewrite Tr, callbacks_app, Cb, Cw. reflexivity. }
  destruct T as (w3 & Et & D & Cb).
  exists w3. split; [reflexivity |]. split; [| split; [exact D |]].
  - unfold handle, dispatch. simpl.
    unfold webhook_analyze, try_catch. unfold bind at 1. simpl. unfold bind at 1. simpl.
    rewrite U, C. fold options.
    unfold bind at 1. unfold now at 1. simpl.
    unfold bind at 1. unfold now at 1. simpl.
    unfold bind at 1. unfold Store.insert_url at 1. simpl. rewrite H.
    unfold bind at 1. unfold waitUntil, try_catch.
    change (callback_task env u options callback_url
              (hd_error [Store.new_row (next_url_id (db w)) u pending None
                                       (iso_time env (clock w))
                                       (iso_time env (S (clock w)))]) _)
      with (callback_task env u options callback_url (Some (pending_row env u w)) w1).
    rewrite Et. reflexivity.
  - destruct (analyzeUrl_uncached_outcome env u options w1 o w2 W1 N E)
      as (_ & [(r & -> & Fr & Ir & Sr) | (e & rec & -> & Fr & Ir & Sr & Er)]).
    + left. exists r. split; [reflexivity |].
      split; [rewrite Cb; cbv iota; rewrite Ir, I; reflexivity |].
      rewrite D. split; [exact Fr |]. split; [congruence | exact Sr].
    + right. exists e, rec. split; [reflexivity |]. split; [exact Cb |].
      rewrite D. split; [exact Fr |]. split; [congruence |]. split; assumption.
Qed.

Lemma callback_posted_once_witness :
  exists o w2 w',
    analyzeUrl Demo.env Demo.address
               (match b_options Cases.with_callback with
                | Some o => o
                | None => no_options
                end)
               (inserted_pending Demo.env Demo.address Demo.start) = (o, w2)
    /\ handle Demo.env (Cases.post "/webhook/analyze" Cases.with_callback) Demo.start
       = (Ok (Some {| code := 200; json := JStarted (next_url_id (db Demo.start)) |}), w')
    /\ db w' = db w2
    /\ ((exists r,
            o = Ok (Some r)
            /\ callbacks w'
               = (callbacks Demo.start
                  ++ [EvCallback "https://n8n.example.com/hook"
                                 (CbCompleted (next_url_id (db Demo.start)) r)])%list
            /\ Store.find_url Demo.address (db w') = Some r
            /\ id r = next_url_id (db Demo.start)
            /\ status r = completed)
        \/ (exists e rec,
               o = Throw e
               /\ callbacks w'
                  = (callbacks Demo.start
                     ++ [EvCallback "https://n8n.example.com/hook"
                                    (CbFailed (next_url_id (db Demo.start))
                                              (message_property e))])%list
               /\ Store.find_url Demo.address (db w') = Some rec
               /\ id rec = next_url_id (db Demo.start)
               /\ status rec = failed
               /\ errorMessage rec = Some (message_of e))).
Proof.
  apply (callback_posted_once Demo.env Cases.with_callback Demo.address
                              "https://n8n.example.com/hook" Demo.start).
  - exact wf_empty.
  - reflexivity.
  - reflexivity.
  - reflexivity.
Defined.

(** ** The notifier *)

Lemma sendSummaryEmail_eq env key to subject s full w :
  sendSummaryEmail env key to subject (Some s) full w
  = (Ok (mail_result (resend_post env (trace w) key to subject
                                  (render_summary_email env s full))),
     emit (EvEmail to subject (render_summary_email env s full)) w).
Proof.
  unfold sendSummaryEmail, try_catch, mail_result. unfold bind at 1. simpl.
  unfold bind at 1, resend_call.
  destruct (resend_post env (trace w) key to subject (render_summary_email env s full))
    as [response | e]; [| reflexivity].
  destruct (mail_ok response); simpl.
  - unfold bind, await. destruct (mail_id response); reflexivity.
  - unfold bind, await. destruct (mail_text response); reflexivity.
Qed.

(** X18. [sendSummaryEmail] on a record makes exactly one call to the
    provider, with the recipient, the subject and the rendered record, and
    touches no table. It reports success exactly when the provider answered
    2xx and the id could be read from the answer, and then carries that id;
    every other outcome (a throw, another status, an unreadable body) is
    reported as [success: false] with an error text, a refusal as
    "Resend API error: <status> <body>". Without a record nothing is sent. *)
Theorem mail_delivery_outcome env key to subject full w :
  (forall s,
      exists res w',
        sendSummaryEmail env key to subject (Some s) full w = (Ok res, w')
        /\ db w' = db w
        /\ trace w' = (trace w ++ [EvEmail to subject (render_summary_email env s full)])%list
        /\ (success res = true <->
            exists response i,
              resend_post env (trace w) key to subject (render_summary_email env s full)
              = Ok response
              /\ mail_ok response = true /\ mail_id response = Ok i
              /\ emailId res = Some i)
        /\ (success res = false -> error res <> None)
        /\ (forall response errorData,
               resend_post env (trace w) key to subject (render_summary_email env s full)
               = Ok response ->
               mail_ok response = false -> mail_text response = Ok errorData ->
               error res = Some ("Resend API error: " ++ Str.of_nat (mail_status response)
                                 ++ " " ++ errorData)))
  /\ exists res,
      sendSummaryEmail env key to subject None full w = (Ok res, w)
      /\ success res = false /\ error res <> None.
Proof.
  split.
  - intros s. rewrite sendSummaryEmail_eq. eexists. eexists.
    split; [reflexivity |]. split; [reflexivity |]. split; [reflexivity |].
    unfold mail_result.
    destruct (resend_post env (trace w) key to subject (render_summary_email env s full))
      as [response | e].
    + destruct (mail_ok response) eqn:K.
      * destruct (mail_id response) as [i | e] eqn:I; simpl.
        -- split; [| split].
           ++ split; [intros _; exists response, i; auto | reflexivity].
           ++ discriminate.
           ++ intros r' d X. inversion X; subst. congruence.
        -- split; [| split].
           ++ split; [discriminate |].
              intros (r' & i & X & _ & Y & _). inversion X; subst. congruence.
           ++ intros _. discriminate.
           ++ intros r' d X. inversion X; subst. congruence.
      * destruct (mail_text response) as [t | e] eqn:T; simpl.
        -- split; [| split].
           ++ split; [discriminate |].
              intros (r' & i & X & Y & _). inversion X; subst. congruence.
           ++ intros _. discriminate.
           ++ intros r' d X _ Y. inversion X; subst. rewrite T in Y.
              inversion Y; subst. reflexivity.
        -- split; [| split].
           ++ split; [discriminate |].
              intros (r' & i & X & Y & _). inversion X; subst. congruence.
           ++ intros _. discriminate.
           ++ intros r' d X _ Y. inversion X; subst. congruence.
    + simpl. split; [| split].
      * split; [discriminate |]. intros (r' & i & X & _). discriminate.
      * intros _. discriminate.
      * intros r' d X. discriminate.
  - eexists. split; [reflexivity |]. split; [reflexivity | discriminate].
Qed.

Lemma mail_delivery_outcome_witness :
  exists res w',
    sendSummaryEmail Cases.env_mail_refused "re_key" "reader@example.com" "Summary"
                     (Some Demo.done_row) false Demo.start
    = (Ok res, w')
    /\ db w' = db Demo.start
    /\ error res = Some ("Resend API error: " ++ Str.of_nat 422 ++ " " ++ "invalid").
Proof.
  destruct (proj1 (mail_delivery_outcome Cases.env_mail_refused "re_key"
                     "reader@example.com" "Summary" false Demo.start) Demo.done_row)
    as (res & w' & E & D & _ & _ & _ & R).
  exists res, w'. split; [exact E |]. split; [exact D |].
  exact (R {| mail_status := 422; mail_text := Ok "invalid"; mail_id := Throw NonError |}
           "invalid" eq_refl eq_refl eq_refl).
Defined.

(** X19. /webhook/analyze-and-email answers 500 when the mail is
    refused, although the analysis has succeeded: the answer carries the
    record and "Resend API error: <status> <body>", and the store is as the
    analysis left it (the record stays completed). *)
Theorem refused_mail_is_500 env b u email key w r w1 response errorData :
  given (b_url b) = Some u ->
  given (b_email b) = Some email ->
  given (RESEND_API_KEY env) = Some key ->
  analyzeUrl env u {| generate_tags := Some true; summary_length := None |} w
  = (Ok (Some r), w1) ->
  resend_post env (trace w1) key email
              (match given (b_subject b) with
               | Some s => s
               | None => page_mark ++ " Analysis: " ++ or_else (title r) "Web Content"
               end)
              (render_summary_email env r false) = Ok response ->
  mail_ok response = false ->
  mail_text response = Ok errorData ->
  exists w',
    handle env (Cases.post "/webhook/analyze-and-email" b) w
    = (Ok (Some {| code := 500;
                   json := JEmailFailed (Some r)
                             (Some ("Resend API error: "
                                    ++ Str.of_nat (mail_status response)
                                    ++ " " ++ errorData)) |}), w')
    /\ db w' = db w1.
Proof.
  intros U E K A P NK T.
  exists (emit (EvEmail email
                        (match given (b_subject b) with
                         | Some s => s
                         | None => page_mark ++ " Analysis: "
                                   ++ or_else (title r) "Web Content"
                         end)
                        (render_summary_email env r false)) w1).
  split.
  - change (handle env (Cases.post "/webhook/analyze-and-email" b) w)
      with (bind (webhook_analyze_and_email env (Ok b)) (fun x => ret (Some x)) w).
    unfold webhook_analyze_and_email.
    cbv beta iota delta [try_catch bind await ret defined reply].
    rewrite U, E, K. cbv beta iota. rewrite A. cbv beta iota.
    destruct (given (b_subject b)) as [subj |]; cbv beta iota;
      rewrite sendSummaryEmail_eq, P; unfold mail_result; rewrite NK, T; reflexivity.
  - reflexivity.
Qed.

Lemma refused_mail_is_500_witness :
  exists w',
    handle Cases.env_mail_refused (Cases.post "/webhook/analyze-and-email" MailCase.body)
           Demo.analysed
    = (Ok (Some {| code := 500;
                   json := JEmailFailed (Some Demo.done_row)
                             (Some "Resend API error: 422 invalid") |}), w')
    /\ db w' = db Demo.analysed.
Proof.
  apply (refused_mail_is_500 Cases.env_mail_refused MailCase.body Demo.address
           "reader@example.com" "re_key" Demo.analysed Demo.done_row Demo.analysed
           {| mail_status := 422; mail_text := Ok "invalid"; mail_id := Throw NonError |}
           "invalid"); reflexivity.
Defined.

(** ** Strings: reversal and trimming *)

Lemma append_nil_r (s : string) : s ++ EmptyString = s.
Proof. induction s as [| c s IH]; simpl; [reflexivity | rewrite IH; reflexivity]. Qed.

Lemma append_assoc_s (a b c : string) : (a ++ b) ++ c = a ++ (b ++ c).
Proof. induction a as [| x a IH]; simpl; [reflexivity | rewrite IH; reflexivity]. Qed.

Lemma rev_onto_eq s : forall acc, Str.rev_onto s acc = Str.rev s ++ acc.
Proof.
  unfold Str.rev. induction s as [| c s IH]; intros acc; simpl.
  - reflexivity.
  - rewrite (IH (String c acc)), (IH (String c EmptyString)), append_assoc_s. reflexivity.
Qed.

Lemma rev_cons c s : Str.rev (String c s) = Str.rev s ++ String c EmptyString.
Proof. unfold Str.rev at 1. simpl. apply rev_onto_eq. Qed.

Lemma rev_app a : forall b, Str.rev (a ++ b) = Str.rev b ++ Str.rev a.
Proof.
  induction a as [| c a IH]; intros b; simpl.
  - symmetry. apply append_nil_r.
  - rewrite !rev_cons, IH, append_assoc_s. reflexivity.
Qed.

Lemma rev_involutive s : Str.rev (Str.rev s) = s.
Proof.
  induction s as [| c s IH]; [reflexivity |].
  rewrite rev_cons, rev_app, IH. reflexivity.
Qed.

Lemma trim_start_clean s : clean_start (Str.trim_start s).
Proof.
  induction s as [| c s IH]; simpl; [exact I |].
  destruct (Str.is_space c) eqn:E; [exact IH | exact E].
Qed.

Lemma trim_start_fixed s : clean_start s -> Str.trim_start s = s.
Proof. destruct s as [| c s]; simpl; [reflexivity | intros ->; reflexivity]. Qed.

Lemma trim_start_suffix s : exists sp, s = sp ++ Str.trim_start s.
Proof.
  induction s as [| c s (sp & IH)]; simpl.
  - exists EmptyString. reflexivity.
  - destruct (Str.is_space c).
    + exists (String c sp). simpl. rewrite <- IH. reflexivity.
    + exists EmptyString. reflexivity.
Qed.

(** [trim] gives a string with clean ends, and leaves such a string
    alone. *)
Lemma trim_clean_start s : clean_start (Str.trim s).
Proof.
  unfold Str.trim.
  set (a := Str.trim_start s).
  set (c := Str.trim_start (Str.rev a)).
  destruct (trim_start_suffix (Str.rev a)) as (sp & E). fold c in E.
  assert (A : a = Str.rev c ++ Str.rev sp).
  { rewrite <- (rev_involutive a), E, rev_app. reflexivity. }
  pose proof (trim_start_clean s) as Ca. fold a in Ca. rewrite A in Ca.
  destruct (Str.rev c); [exact I | exact Ca].
Qed.

Lemma trim_idempotent s : Str.trim (Str.trim s) = Str.trim s.
Proof.
  pose proof (trim_clean_start s) as C.
  unfold Str.trim at 1. rewrite (trim_start_fixed _ C).
  unfold Str.trim at 1. rewrite rev_involutive.
  rewrite (trim_start_fixed _ (trim_start_clean _)). reflexivity.
Qed.

Lemma mem_char_app d a b : mem_char d (a ++ b) = mem_char d a || mem_char d b.
Proof.
  induction a as [| c a IH]; simpl; [reflexivity |].
  rewrite IH. apply orb_assoc.
Qed.

Lemma mem_char_rev d s : mem_char d (Str.rev s) = mem_char d s.
Proof.
  induction s as [| c s IH]; [reflexivity |].
  rewrite rev_cons, mem_char_app, IH. simpl. rewrite orb_false_r. apply orb_comm.
Qed.

Lemma mem_char_trim_start d s : mem_char d s = false -> mem_char d (Str.trim_start s) = false.
Proof.
  intros H. destruct (trim_start_suffix s) as (sp & E). rewrite E, mem_char_app in H.
  apply orb_false_iff in H. tauto.
Qed.

Lemma mem_char_trim d s : mem_char d s = false -> mem_char d (Str.trim s) = false.
Proof.
  intros H. unfold Str.trim. rewrite mem_char_rev. apply mem_char_trim_start.
  rewrite mem_char_rev. apply mem_char_trim_start. exact H.
Qed.

Lemma split_on_no_delimiter d s :
  Forall (fun piece => mem_char d piece = false) (Str.split_on d s).
Proof.
  induction s as [| c s IH]; simpl.
  - constructor; [reflexivity | constructor].
  - destruct (Ascii.eqb c d) eqn:E.
    + constructor; [reflexivity | exact IH].
    + destruct (Str.split_on d s) as [| w ws]; inversion IH; subst.
      * constructor; [simpl; rewrite E; reflexivity | constructor].
      * constructor; [simpl; rewrite E; assumption | assumption].
Qed.

Lemma mem_char_substring d a b : mem_char d (a ++ String d b) = true.
Proof.
  rewrite mem_char_app. simpl. rewrite Ascii.eqb_refl. apply orb_true_r.
Qed.

Lemma In_firstn {A : Type} (x : A) n : forall l, In x (firstn n l) -> In x l.
Proof.
  induction n as [| n IH]; intros l H; [destruct l; contradiction |].
  destruct l as [| y l]; [contradiction |]. simpl in H.
  destruct H as [H | H]; [left; exact H | right; exact (IH l H)].
Qed.

(** X20. Whatever the model replies, the tags kept by [generateSummary]
    are at most five, and each of them is non-empty, has no white space at
    either end and contains no comma. *)
Theorem parsed_tags_are_clean reply :
  List.length (sum_tags (parse_reply reply)) <= 5
  /\ Forall (fun t => t <> EmptyString
                      /\ Str.trim t = t
                      /\ forall a b, t <> a ++ "," ++ b)
            (sum_tags (parse_reply reply)).
Proof.
  split; [apply parse_reply_tags_le_5 |].
  unfold parse_reply. cbv zeta. unfold sum_tags.
  rewrite Forall_forall. intros t Ht.
  apply In_firstn in Ht. apply filter_In in Ht. destruct Ht as [Ht Ne].
  apply in_map_iff in Ht. destruct Ht as (x & E & Hx). subst t.
  split; [| split].
  - intros Z. rewrite Z in Ne. discriminate.
  - apply trim_idempotent.
  - intros a b Z.
    assert (M0 : mem_char ","%char x = false).
    { exact (proj1 (Forall_forall _ _) (split_on_no_delimiter ","%char _) x Hx). }
    pose proof (mem_char_trim ","%char x M0) as M.
    rewrite Z in M. simpl append in M. rewrite mem_char_substring in M. discriminate.
Qed.

(** ** The reply of the model, read by its markers *)

Lemma first_some_ext {A B : Type} (f g : A -> option B) l :
  (forall x, f x = g x) -> Regex.first_some f l = Regex.first_some g l.
Proof.
  intros H. induction l as [| x l IH]; simpl; [reflexivity |].
  rewrite H, IH. reflexivity.
Qed.

Lemma first_some_map {A B C : Type} (f : B -> option C) (g : A -> B) l :
  Regex.first_some f (map g l) = Regex.first_some (fun x => f (g x)) l.
Proof.
  induction l as [| x l IH]; simpl; [reflexivity |]. rewrite IH. reflexivity.
Qed.

Lemma exec_lit icase p r s :
  Regex.exec icase (Regex.Lit p :: r) s
  = match Str.strip_prefix icase p s with
    | Some rest =>
        match Regex.exec icase r rest with
        | Some h => Some (Regex.Hit (Str.take (String.length p) s ++ Regex.matched h)
                                    (Regex.group1 h) (Regex.rest h))
        | None => None
        end
    | None => None
    end.
Proof.
  simpl. destruct (Str.strip_prefix icase p s); simpl; [| reflexivity].
  destruct (Regex.exec icase r s0); reflexivity.
Qed.

(** When what follows a literal always matches, the leftmost match
    starts at the first occurrence of the literal. *)
Lemma search_lit_first p r :
  (forall x, exists h, Regex.exec false r x = Some h) ->
  forall s,
    found_group (Regex.Lit p :: r) s
    = match split_at_first p s with
      | Some (_, x) =>
          match Regex.exec false r x with
          | Some h => Some (Regex.group1 h)
          | None => None
          end
      | None => None
      end.
Proof.
  intros T. unfold found_group.
  induction s as [| c s IH].
  - cbn [Regex.search split_at_first]. rewrite exec_lit.
    destruct (Str.strip_prefix false p EmptyString) as [rest |]; [| reflexivity].
    destruct (T rest) as (h & E). rewrite E. reflexivity.
  - cbn [Regex.search split_at_first]. rewrite exec_lit.
    destruct (Str.strip_prefix false p (String c s)) as [rest |].
    + destruct (T rest) as (h & E). rewrite E. reflexivity.
    + destruct (Regex.search false (Regex.Lit p :: r) s) as [[pre h] |];
        destruct (split_at_first p s) as [[a b] |]; exact IH.
Qed.

Lemma splits_space_last x :
  exists sp l, List.rev (Regex.splits Str.is_space x) = (sp, Str.trim_start x) :: l.
Proof.
  induction x as [| c x (sp & l & IH)]; simpl.
  - exists EmptyString, []. reflexivity.
  - destruct (Str.is_space c).
    + rewrite <- map_rev, IH. simpl. eexists. eexists. reflexivity.
    + exists EmptyString, []. reflexivity.
Qed.

(** A greedy [\s*] in front of something that always matches takes all
    the white space there is. *)
Lemma exec_spaces_then r x :
  (forall y, exists h, Regex.exec false r y = Some h) ->
  exists h h',
    Regex.exec false (Regex.Star true Str.is_space :: r) x = Some h
    /\ Regex.exec false r (Str.trim_start x) = Some h'
    /\ Regex.group1 h = Regex.group1 h'.
Proof.
  intros T. destruct (splits_space_last x) as (sp & l & E).
  destruct (T (Str.trim_start x)) as (h' & E').
  cbn [Regex.exec Regex.candidates]. rewrite E. cbn [Regex.first_some fst snd].
  rewrite E'. eexists. exists h'. split; [reflexivity |]. split; reflexivity.
Qed.

Lemma lazy_to_end {B : Type} (K : string -> B) : forall y,
  Regex.first_some
    (fun p => if Regex.is_empty (snd p) then Some (K (fst p)) else None)
    (Regex.splits Str.any_char y)
  = Some (K y).
Proof.
  intros y. revert K. induction y as [| c y IH]; intros K.
  - reflexivity.
  - cbn [Regex.splits Str.any_char Regex.first_some snd Regex.is_empty].
    rewrite first_some_map. cbn [fst snd].
    exact (IH (fun a => K (String c a))).
Qed.

Lemma exec_group_to_end y :
  exists h, Regex.exec false [Regex.Cap (Regex.Star false Str.any_char); Regex.Eoi] y = Some h
            /\ Regex.group1 h = Some y.
Proof.
  cbn [Regex.exec Regex.candidates Regex.is_cap].
  erewrite first_some_ext.
  - rewrite (lazy_to_end (fun a => Regex.Hit (a ++ EmptyString) (Some a) EmptyString)).
    eexists. split; reflexivity.
  - intros [a b]. cbn [fst snd]. destruct b; reflexivity.
Qed.

Lemma lazy_until_tags {B : Type} : forall y (K : string -> string -> B),
  Regex.first_some
    (fun p => if looks_at_tags (snd p) then Some (K (fst p) (snd p)) else None)
    (Regex.splits Str.any_char y)
  = Some (match split_at_first "TAGS:" y with
          | Some (body, rest) => K body ("TAGS:" ++ rest)
          | None => K y EmptyString
          end).
Proof.
  induction y as [| c y IH]; intros K.
  - reflexivity.
  - cbn [Regex.splits Str.any_char Regex.first_some snd fst split_at_first].
    unfold looks_at_tags at 1.
    destruct (Str.strip_prefix false "TAGS:" (String c y)) as [rest |] eqn:E.
    + cbn [orb]. rewrite (strip_prefix_exact _ _ _ E). reflexivity.
    + cbn [orb Regex.is_empty]. rewrite first_some_map. cbn [fst snd].
      rewrite (IH (fun a b => K (String c a) b)).
      destruct (split_at_first "TAGS:" y) as [[a b] |]; reflexivity.
Qed.

Lemma exec_group_until_tags y :
  exists h,
    Regex.exec false [Regex.Cap (Regex.Star false Str.any_char); Regex.Ahead ["TAGS:"] true] y
    = Some h
    /\ Regex.group1 h = Some (match split_at_first "TAGS:" y with
                              | Some (body, _) => body
                              | None => y
                              end).
Proof.
  cbn [Regex.exec Regex.candidates Regex.is_cap].
  erewrite first_some_ext.
  - rewrite (lazy_until_tags y (fun a b => Regex.Hit (a ++ EmptyString) (Some a) b)).
    eexists. split; [reflexivity |].
    destruct (split_at_first "TAGS:" y) as [[a b] |]; reflexivity.
  - intros [a b]. cbn [fst snd existsb]. unfold looks_at_tags.
    destruct (Str.strip_prefix false "TAGS:" b); cbn [orb andb];
      [reflexivity | destruct (Regex.is_empty b); reflexivity].
Qed.

Lemma trim_of_trim_start s : Str.trim (Str.trim_start s) = Str.trim s.
Proof.
  unfold Str.trim. rewrite (trim_start_fixed _ (trim_start_clean s)). reflexivity.
Qed.

(** X21. The two regular expressions that read the model's reply do
    what a search for the markers does. The summary is the trimmed text
    between the first "SUMMARY:" and the next "TAGS:" (to the end of the
    reply when there is none), and the first 300 characters of the reply
    when "SUMMARY:" is absent. The tags are read from everything after the
    first "TAGS:" of the reply: split on commas, trimmed, empty ones
    dropped, five kept; none when "TAGS:" is absent. *)
Theorem reply_read_by_markers reply :
  parse_reply reply
  = {| sum_summary := summary_by_markers reply; sum_tags := tags_by_markers reply |}.
Proof.
  unfold parse_reply, summary_by_markers, tags_by_markers. cbv zeta. f_equal.
  - pose proof (search_lit_first "SUMMARY:"
                  [Regex.Star true Str.is_space; Regex.Cap (Regex.Star false Str.any_char);
                   Regex.Ahead ["TAGS:"] true]) as S.
    assert (T : forall x, exists h,
               Regex.exec false
                 [Regex.Star true Str.is_space; Regex.Cap (Regex.Star false Str.any_char);
                  Regex.Ahead ["TAGS:"] true] x = Some h).
    { intros x.
      destruct (exec_spaces_then
                  [Regex.Cap (Regex.Star false Str.any_char); Regex.Ahead ["TAGS:"] true] x)
        as (h & _ & E & _ & _).
      - intros y. destruct (exec_group_until_tags y) as (h & E & _). eauto.
      - eauto. }
    specialize (S T reply). unfold found_group in S. fold summary_re in S.
    unfold group1_trimmed.
    destruct (split_at_first "SUMMARY:" reply) as [[a x] |];
      [| destruct (Regex.search false summary_re reply) as [[pre h] |];
         [discriminate | reflexivity]].
    destruct (exec_spaces_then
                [Regex.Cap (Regex.Star false Str.any_char); Regex.Ahead ["TAGS:"] true] x)
      as (h1 & h2 & E1 & E2 & G).
    { intros y. destruct (exec_group_until_tags y) as (h0 & E & _). eauto. }
    rewrite E1 in S.
    destruct (Regex.search false summary_re reply) as [[pre h] |]; [| discriminate].
    inversion S as [G0]. rewrite G0, G.
    destruct (exec_group_until_tags (Str.trim_start x)) as (h3 & E3 & G3).
    rewrite E2 in E3. inversion E3; subst h3. rewrite G3. reflexivity.
  - pose proof (search_lit_first "TAGS:"
                  [Regex.Star true Str.is_space; Regex.Cap (Regex.Star false Str.any_char);
                   Regex.Eoi]) as S.
    assert (T : forall x, exists h,
               Regex.exec false
                 [Regex.Star true Str.is_space; Regex.Cap (Regex.Star false Str.any_char);
                  Regex.Eoi] x = Some h).
    { intros x.
      destruct (exec_spaces_then
                  [Regex.Cap (Regex.Star false Str.any_char); Regex.Eoi] x)
        as (h & _ & E & _ & _).
      - intros y. destruct (exec_group_to_end y) as (h & E & _). eauto.
      - eauto. }
    specialize (S T reply). unfold found_group in S. fold tags_re in S.
    unfold group1_trimmed.
    destruct (split_at_first "TAGS:" reply) as [[a x] |];
      [| destruct (Regex.search false tags_re reply) as [[pre h] |];
         [discriminate | reflexivity]].
    destruct (exec_spaces_then
                [Regex.Cap (Regex.Star false Str.any_char); Regex.Eoi] x)
      as (h1 & h2 & E1 & E2 & G).
    { intros y. destruct (exec_group_to_end y) as (h0 & E & _). eauto. }
    rewrite E1 in S.
    destruct (Regex.search false tags_re reply) as [[pre h] |]; [| discriminate].
    inversion S as [G0]. rewrite G0, G.
    destruct (exec_group_to_end (Str.trim_start x)) as (h3 & E3 & G3).
    rewrite E2 in E3. inversion E3; subst h3. rewrite G3, trim_of_trim_start. reflexivity.
Qed.

Lemma split_at_first_sound p : forall s a b,
  split_at_first p s = Some (a, b) -> s = a ++ p ++ b.
Proof.
  induction s as [| c s IH]; intros a b; cbn [split_at_first].
  - destruct (Str.strip_prefix false p EmptyString) as [rest |] eqn:E; [| discriminate].
    intros H. inversion H; subst. exact (strip_prefix_exact _ _ _ E).
  - destruct (Str.strip_prefix false p (String c s)) as [rest |] eqn:E.
    + intros H. inversion H; subst. exact (strip_prefix_exact _ _ _ E).
    + destruct (split_at_first p s) as [[a' b'] |]; [| discriminate].
      intros H. inversion H; subst. simpl. rewrite (IH a' b eq_refl). reflexivity.
Qed.

(** ** The extracted text *)

Lemma words_zero_iff s :
  clean_start s ->
  List.length (filter (fun word => 0 <? String.length word) (Regex.split_spaces s)) = 0
  <-> s = EmptyString.
Proof.
  intros C. split.
  - destruct s as [| c s]; [reflexivity |]. simpl in C.
    cbn [Regex.split_spaces]. rewrite C.
    destruct (Regex.split_spaces s); simpl; discriminate.
  - intros ->. reflexivity.
Qed.

Lemma content_trimmed html :
  Str.trim (Extract.ex_content (Extract.extractContent html))
  = Extract.ex_content (Extract.extractContent html).
Proof.
  unfold Extract.extractContent. cbv zeta. cbn [Extract.ex_content].
  unfold Extract.clean_text. cbv zeta. apply trim_idempotent.
Qed.

Lemma word_count_zero_iff html :
  Extract.ex_wordCount (Extract.extractContent html) = 0
  <-> Extract.ex_content (Extract.extractContent html) = EmptyString.
Proof.
  unfold Extract.extractContent. cbv zeta. cbn [Extract.ex_content Extract.ex_wordCount].
  apply words_zero_iff. unfold Extract.clean_text. cbv zeta. apply trim_clean_start.
Qed.

Lemma fetch_extract_inv env u tr ex :
  fetch_extract env u tr = Ok ex ->
  exists html, ex = Extract.extractContent html
               /\ 50 <= String.length (Extract.ex_content ex).
Proof.
  intros H. pose proof (fetch_extract_sufficient env u tr ex H) as L.
  unfold fetch_extract in H. destruct (http_get env tr u) as [response | e]; [| discriminate].
  destruct (negb (resp_ok response)); [discriminate |].
  destruct (resp_text response) as [html | e]; [| discriminate].
  destruct (insufficient (Extract.ex_content (Extract.extractContent html)));
    [discriminate |].
  inversion H; subst. exists html. split; [reflexivity | exact L].
Qed.

(** X22. What [extractContent] returns, for any page: the title and
    the content neither start nor end with white space (trimming them
    again changes nothing), and the word count is 0 exactly when the
    content is the empty string. *)
Theorem extracted_text_shape html :
  Str.trim (Extract.ex_title (Extract.extractContent html))
  = Extract.ex_title (Extract.extractContent html)
  /\ Str.trim (Extract.ex_content (Extract.extractContent html))
     = Extract.ex_content (Extract.extractContent html)
  /\ (Extract.ex_wordCount (Extract.extractContent html) = 0
      <-> Extract.ex_content (Extract.extractContent html) = EmptyString).
Proof.
  split; [| split; [apply content_trimmed | apply word_count_zero_iff]].
  unfold Extract.extractContent. cbv zeta. cbn [Extract.ex_title].
  destruct (Regex.search true Extract.title_re html) as [[pre h] |]; [| reflexivity].
  destruct (Regex.group1 h); [apply trim_idempotent | reflexivity].
Qed.

(** X23. A run for a url that is not cached returns a record only
    with real text in it: the content has at least 50 characters, neither
    starts nor ends with white space, and the word count is at least 1. *)
Theorem run_returns_substantial_content env u options w r w' :
  not_cached u (db w) ->
  analyzeUrl env u options w = (Ok (Some r), w') ->
  exists c n,
    content r = Some c /\ 50 <= String.length c /\ Str.trim c = c
    /\ wordCount r = Some n /\ 1 <= n.
Proof.
  intros N H. destruct (analyzeUrl_run env u options w N) as (r0 & _ & E).
  rewrite E in H. clear E.
  destruct (fetch_extract env u (trace w)) as [ex | e] eqn:F; [| discriminate].
  cbv zeta in H. inversion H; subst; clear H.
  destruct (fetch_extract_inv env u (trace w) ex F) as (html & -> & L).
  exists (Extract.ex_content (Extract.extractContent html)),
         (Extract.ex_wordCount (Extract.extractContent html)).
  split; [reflexivity |]. split; [exact L |]. split; [apply content_trimmed |].
  split; [reflexivity |].
  destruct (Extract.ex_wordCount (Extract.extractContent html)) eqn:Wc; [| lia].
  apply word_count_zero_iff in Wc. rewrite Wc in L. simpl in L. lia.
Qed.

Lemma run_returns_substantial_content_witness :
  exists c n,
    content (match fst (analyzeUrl Demo.env Demo.address no_options Demo.start) with
             | Ok (Some r) => r
             | _ => Demo.done_row
             end) = Some c
    /\ 50 <= String.length c /\ Str.trim c = c
    /\ wordCount (match fst (analyzeUrl Demo.env Demo.address no_options Demo.start) with
                  | Ok (Some r) => r
                  | _ => Demo.done_row
                  end) = Some n
    /\ 1 <= n.
Proof.
  apply (run_returns_substantial_content Demo.env Demo.address no_options Demo.start
           (match fst (analyzeUrl Demo.env Demo.address no_options Demo.start) with
            | Ok (Some r) => r
            | _ => Demo.done_row
            end)
           (snd (analyzeUrl Demo.env Demo.address no_options Demo.start))).
  - intros r H. discriminate.
  - vm_compute. reflexivity.
Defined.

(** ** Analyse and mail: the three ways it ends *)



(** X25. When the analysis throws, nothing is mailed: the route
    /webhook/analyze-and-email answers 500 "Failed to analyze and email"
    with the message of the error, the tool [email_analysis] answers
    "Error analyzing and emailing URL: <message>" as an error, and both
    leave the world as the failed analysis left it, with the same mails
    sent as before. *)
Theorem failed_analysis_sends_no_mail env b u email key w e w1 :
  given (b_url b) = Some u ->
  given (b_email b) = Some email ->
  given (RESEND_API_KEY env) = Some key ->
  analyzeUrl env u {| generate_tags := Some true; summary_length := None |} w
  = (Throw e, w1) ->
  handle env (Cases.post "/webhook/analyze-and-email" b) w
  = (Ok (Some {| code := 500;
                 json := JError "Failed to analyze and email" (Some (message_of e)) |}), w1)
  /\ (forall subject full,
         tool_email_analysis env u email subject full w
         = (Ok {| text := "Error analyzing and emailing URL: " ++ message_of e;
                  isError := true |}, w1))
  /\ mails w1 = mails w.
Proof.
  intros U E K A. split; [| split].
  - change (handle env (Cases.post "/webhook/analyze-and-email" b) w)
      with (bind (webhook_analyze_and_email env (Ok b)) (fun x => ret (Some x)) w).
    unfold webhook_analyze_and_email.
    cbv beta iota delta [try_catch bind await ret defined reply].
    rewrite U, E, K. cbv beta iota. rewrite A. reflexivity.
  - intros subject full. unfold tool_email_analysis.
    cbv beta iota delta [try_catch bind await ret defined reply].
    rewrite K. cbv beta iota. rewrite A. reflexivity.
  - exact (Keeps_no_mail_analyzeUrl env u _ w _ w1 A).
Qed.

Lemma failed_analysis_sends_no_mail_witness :
  handle Cases.env_404 (Cases.post "/webhook/analyze-and-email" MailCase.body) Demo.start
  = (Ok (Some {| code := 500;
                 json := JError "Failed to analyze and email"
                                (Some (message_of (ErrorObj "HTTP 404: Not Found"))) |}),
     snd (analyzeUrl Cases.env_404 Demo.address
                     {| generate_tags := Some true; summary_length := None |} Demo.start))
  /\ (forall subject full,
         tool_email_analysis Cases.env_404 Demo.address "reader@example.com" subject full
                             Demo.start
         = (Ok {| text := "Error analyzing and emailing URL: "
                          ++ message_of (ErrorObj "HTTP 404: Not Found");
                  isError := true |},
            snd (analyzeUrl Cases.env_404 Demo.address
                            {| generate_tags := Some true; summary_length := None |}
                            Demo.start)))
  /\ mails (snd (analyzeUrl Cases.env_404 Demo.address
                            {| generate_tags := Some true; summary_length := None |}
                            Demo.start))
     = mails Demo.start.
Proof.
  apply (failed_analysis_sends_no_mail Cases.env_404 MailCase.body Demo.address
           "reader@example.com" "re_key" Demo.start (ErrorObj "HTTP 404: Not Found"));
    reflexivity.
Defined.

(** ** C6: the region, pattern by pattern *)

(** *** The matcher, atom by atom *)

Lemma first_some_app {A B : Type} (f : A -> option B) l1 l2 :
  Regex.first_some f (l1 ++ l2)%list
  = match Regex.first_some f l1 with
    | Some y => Some y
    | None => Regex.first_some f l2
    end.
Proof.
  induction l1 as [| x l1 IH]; simpl; [reflexivity |].
  destruct (f x); [reflexivity | exact IH].
Qed.

Lemma first_some_option_map {A B C : Type} (g : B -> C) (f : A -> option B) l :
  option_map g (Regex.first_some f l)
  = Regex.first_some (fun x => option_map g (f x)) l.
Proof.
  induction l as [| x l IH]; simpl; [reflexivity |].
  destruct (f x); simpl; [reflexivity | exact IH].
Qed.

Lemma first_some_none {A B : Type} (f : A -> option B) l :
  (forall x, In x l -> f x = None) -> Regex.first_some f l = None.
Proof.
  induction l as [| x l IH]; simpl; intros H; [reflexivity |].
  rewrite (H x (or_introl eq_refl)). apply IH. intros y Hy. apply H. right. exact Hy.
Qed.

Lemma first_some_same {A B : Type} (f : A -> option B) l y :
  (forall x, In x l -> f x = None \/ f x = Some y) ->
  (exists x, In x l /\ f x = Some y) ->
  Regex.first_some f l = Some y.
Proof.
  induction l as [| x l IH]; simpl; intros H (x0 & Hin & E); [contradiction |].
  destruct (H x (or_introl eq_refl)) as [N | S]; rewrite ?N, ?S; [| reflexivity].
  apply IH.
  - intros z Hz. apply H. right. exact Hz.
  - destruct Hin as [-> | Hin]; [congruence |]. exists x0. auto.
Qed.

Lemma run_nil icase s : run icase [] s = Some EmptyString.
Proof. reflexivity. Qed.

Lemma run_cons icase a r s :
  run icase (a :: r) s
  = Regex.first_some (fun p => option_map (append (fst p)) (run icase r (snd p)))
                     (Regex.candidates icase a s).
Proof.
  unfold run. cbn [Regex.exec]. rewrite first_some_option_map.
  apply first_some_ext. intros [x y]. cbn [fst snd].
  destruct (Regex.exec icase r y); reflexivity.
Qed.

Lemma run_lit icase p r s :
  run icase (Regex.Lit p :: r) s
  = match Str.strip_prefix icase p s with
    | Some rest => option_map (append (Str.take (String.length p) s)) (run icase r rest)
    | None => None
    end.
Proof.
  rewrite run_cons. cbn [Regex.candidates].
  destruct (Str.strip_prefix icase p s); cbn [Regex.first_some fst snd]; [| reflexivity].
  destruct (run icase r s0); reflexivity.
Qed.

Lemma char_eq_gt c : Str.char_eq true InWords.gt c = Ascii.eqb c InWords.gt.
Proof. destruct c as [[] [] [] [] [] [] [] []]; reflexivity. Qed.

Lemma char_eq_dq c : Str.char_eq true InWords.dq c = Ascii.eqb c InWords.dq.
Proof. destruct c as [[] [] [] [] [] [] [] []]; reflexivity. Qed.

(** A greedy [[^d]*] in front of [d]: it stops at the first [d], and
    nowhere else. *)
Lemma greedy_until d : forall s (F : string * string -> option string)
                              (G : string -> string -> option string),
  (forall a b, F (a, b) = match b with
                          | String c b' => if Ascii.eqb c d then G a b' else None
                          | EmptyString => None
                          end) ->
  Regex.first_some F (List.rev (Regex.splits (Str.is_not d) s))
  = match InWords.cut_at d s with
    | Some (a, s') => G a s'
    | None => None
    end.
Proof.
  induction s as [| c s IH]; intros F G H.
  - cbn. rewrite H. reflexivity.
  - cbn [Regex.splits InWords.cut_at]. unfold Str.is_not at 1.
    cbn [List.rev]. rewrite first_some_app. cbn [Regex.first_some].
    rewrite H. destruct (Ascii.eqb c d) eqn:E; cbn [negb].
    + cbn. destruct (G EmptyString s); reflexivity.
    + rewrite <- map_rev, first_some_map.
      rewrite (IH (fun p => F (String c (fst p), snd p)) (fun a b => G (String c a) b)).
      * destruct (InWords.cut_at d s) as [[a b] |]; [| reflexivity].
        destruct (G (String c a) b); reflexivity.
      * intros a b. cbn [fst snd]. apply H.
Qed.

Lemma run_until d r s :
  (forall c, Str.char_eq true d c = Ascii.eqb c d) ->
  run true (Regex.Star true (Str.is_not d) :: Regex.Lit (String d EmptyString) :: r) s
  = match InWords.cut_at d s with
    | Some (a, s') => option_map (append a) (option_map (String d) (run true r s'))
    | None => None
    end.
Proof.
  intros Hd. rewrite run_cons. cbn [Regex.candidates].
  apply greedy_until. intros a b. cbn [fst snd]. rewrite run_lit.
  destruct b as [| c b']; [reflexivity |].
  cbn [Str.strip_prefix]. rewrite Hd.
  destruct (Ascii.eqb c d) eqn:E; [| reflexivity].
  apply Ascii.eqb_eq in E. subst c. cbn.
  destruct (run true r b'); reflexivity.
Qed.

(** A lazy [[\s\S]*?] in front of a closing text that ends the
    expression: it stops at the first place where the text stands. *)
Lemma lazy_until p : forall s (F : string * string -> option string)
                            (G : string -> string -> string -> string),
  (forall a b, F (a, b) = match Str.strip_prefix true p b with
                          | Some rest => Some (G a (Str.take (String.length p) b) rest)
                          | None => None
                          end) ->
  Regex.first_some F (Regex.splits Str.any_char s)
  = match InWords.cut_at_text p s with
    | Some (a, o, rest) => Some (G a o rest)
    | None => None
    end.
Proof.
  induction s as [| c s IH]; intros F G H.
  - cbn [Regex.splits Regex.first_some InWords.cut_at_text]. rewrite H.
    destruct (Str.strip_prefix true p EmptyString); reflexivity.
  - cbn [Regex.splits Str.any_char Regex.first_some InWords.cut_at_text]. rewrite H.
    destruct (Str.strip_prefix true p (String c s)); [reflexivity |].
    rewrite first_some_map.
    rewrite (IH (fun q => F (String c (fst q), snd q)) (fun a o rest => G (String c a) o rest)).
    + destruct (InWords.cut_at_text p s) as [[[a o] b] |]; reflexivity.
    + intros a b. cbn [fst snd]. apply H.
Qed.

Lemma run_body_close close s :
  run true [Regex.Cap (Regex.Star false Str.any_char); Regex.Lit close] s
  = match InWords.cut_at_text close s with
    | Some (body, o, _) => Some (body ++ o)
    | None => None
    end.
Proof.
  rewrite run_cons. cbn [Regex.candidates].
  rewrite (lazy_until close s _ (fun a o _ => a ++ o)).
  - destruct (InWords.cut_at_text close s) as [[[a o] b] |]; reflexivity.
  - intros a b. cbn [fst snd]. rewrite run_lit.
    destruct (Str.strip_prefix true close b); [| reflexivity].
    rewrite run_nil. cbn. rewrite append_nil_r. reflexivity.
Qed.

(** The first, second and fifth pattern. *)
Lemma run_element name s :
  run true (Extract.element_re name) s = InWords.element_at name s.
Proof.
  unfold Extract.element_re, InWords.element_at. rewrite run_lit.
  destruct (Str.strip_prefix true ("<" ++ name) s) as [s1 |]; [| reflexivity].
  change ">" with (String InWords.gt EmptyString).
  change Extract.not_gt with (Str.is_not InWords.gt).
  rewrite (run_until InWords.gt _ s1 char_eq_gt).
  destruct (InWords.cut_at InWords.gt s1) as [[attrs s2] |]; [| reflexivity].
  rewrite run_body_close.
  destruct (InWords.cut_at_text ("</" ++ name ++ String InWords.gt EmptyString) s2)
    as [[[body o] rest] |]; reflexivity.
Qed.

(** *** Leftmost match, and replacing every match by nothing *)

Lemma match_g0_leftmost icase r : forall s,
  Regex.match_g0 icase r s = InWords.leftmost (run icase r) s.
Proof.
  unfold Regex.match_g0, run.
  induction s as [| c s IH]; cbn [Regex.search InWords.leftmost].
  - destruct (Regex.exec icase r EmptyString); reflexivity.
  - destruct (Regex.exec icase r (String c s)); [reflexivity |]. cbn [option_map].
    destruct (Regex.search icase r s) as [[pre h] |]; exact IH.
Qed.

Lemma leftmost_ext f g :
  (forall s, f s = g s) -> forall s, InWords.leftmost f s = InWords.leftmost g s.
Proof.
  intros H. induction s as [| c s IH]; cbn [InWords.leftmost]; rewrite H; [reflexivity |].
  rewrite IH. reflexivity.
Qed.

Lemma without_from_ext f g :
  (forall s, f s = g s) ->
  forall s skip, InWords.without_from f skip s = InWords.without_from g skip s.
Proof.
  intros H. induction s as [| c s IH]; intros skip; cbn [InWords.without_from];
    [reflexivity |].
  destruct skip as [| k]; [| apply IH].
  rewrite H. destruct (g (String c s)) as [[| x m] |]; rewrite IH; reflexivity.
Qed.

Lemma replace_from_without icase r : forall s skip,
  Regex.replace_from icase r EmptyString skip s
  = InWords.without_from (run icase r) skip s.
Proof.
  unfold run. induction s as [| c s IH]; intros skip.
  - destruct skip; cbn; [| reflexivity].
    destruct (Regex.exec icase r EmptyString); reflexivity.
  - destruct skip as [| k]; cbn [Regex.replace_from InWords.without_from]; [| apply IH].
    destruct (Regex.exec icase r (String c s)) as [h |]; cbn [option_map].
    + destruct (Regex.matched h) as [| x m]; cbn [String.length append]; rewrite IH;
        reflexivity.
    + rewrite IH. reflexivity.
Qed.

Lemma replace_all_element name s :
  Regex.replace_all true (Extract.element_re name) EmptyString s
  = InWords.without (InWords.element_at name) s.
Proof.
  unfold Regex.replace_all, InWords.without. rewrite replace_from_without.
  apply without_from_ext. apply run_element.
Qed.

(** *** The third and fourth pattern *)

(** A greedy [[^>]*] in front of something that may fail: the longest
    stretch is tried first, so the last place counts. *)
Lemma greedy_last (f : string -> option string) : forall s,
  Regex.first_some (fun p => option_map (append (fst p)) (f (snd p)))
                   (List.rev (Regex.splits (Str.is_not InWords.gt) s))
  = InWords.last_in_tag f s.
Proof.
  induction s as [| c s IH].
  - cbn. destruct (f EmptyString); reflexivity.
  - cbn [Regex.splits InWords.last_in_tag]. unfold Str.is_not at 1.
    cbn [List.rev]. rewrite first_some_app. cbn [Regex.first_some fst snd].
    destruct (Ascii.eqb c InWords.gt); cbn [negb].
    + cbn. destruct (f (String c s)); reflexivity.
    + rewrite <- map_rev, first_some_map. cbn [fst snd].
      rewrite (first_some_ext _
                 (fun p => option_map (String c)
                             (option_map (append (fst p)) (f (snd p))))).
      * rewrite <- first_some_option_map, IH.
        destruct (InWords.last_in_tag f s); cbn [option_map]; [reflexivity |].
        destruct (f (String c s)); reflexivity.
      * intros [a b]. cbn [fst snd]. destruct (f b); reflexivity.
Qed.

Lemma last_in_tag_ext f g :
  (forall s, f s = g s) -> forall s, InWords.last_in_tag f s = InWords.last_in_tag g s.
Proof.
  intros H. induction s as [| c s IH]; cbn [InWords.last_in_tag]; [apply H |].
  rewrite IH, H. reflexivity.
Qed.

(** *** Cutting strings *)

Lemma cut_at_sound d : forall s a b,
  InWords.cut_at d s = Some (a, b) -> s = a ++ String d b /\ mem_char d a = false.
Proof.
  induction s as [| c s IH]; intros a b H; cbn [InWords.cut_at] in H; [discriminate |].
  destruct (Ascii.eqb c d) eqn:E.
  - inversion H; subst. apply Ascii.eqb_eq in E. subst c. split; reflexivity.
  - destruct (InWords.cut_at d s) as [[a' b'] |]; [| discriminate].
    inversion H; subst. destruct (IH a' b eq_refl) as [-> M].
    split; [reflexivity |]. cbn [mem_char]. rewrite E, M. reflexivity.
Qed.

Lemma cut_at_app d b : forall a,
  mem_char d a = false -> InWords.cut_at d (a ++ String d b) = Some (a, b).
Proof.
  induction a as [| c a IH]; cbn [append InWords.cut_at mem_char]; intros M.
  - rewrite Ascii.eqb_refl. reflexivity.
  - apply orb_false_iff in M. destruct M as [E M]. rewrite E, (IH M). reflexivity.
Qed.

Lemma cut_at_none d : forall s, InWords.cut_at d s = None -> mem_char d s = false.
Proof.
  induction s as [| c s IH]; cbn [InWords.cut_at mem_char]; intros H; [reflexivity |].
  destruct (Ascii.eqb c d); [discriminate |].
  destruct (InWords.cut_at d s) as [[a b] |]; [discriminate |]. exact (IH eq_refl).
Qed.

Lemma cut_at_free d : forall s, mem_char d s = false -> InWords.cut_at d s = None.
Proof.
  induction s as [| c s IH]; cbn [InWords.cut_at mem_char]; intros M; [reflexivity |].
  apply orb_false_iff in M. destruct M as [E M]. rewrite E, (IH M). reflexivity.
Qed.

Lemma splits_sound d : forall s a b,
  In (a, b) (Regex.splits (Str.is_not d) s) -> s = a ++ b /\ mem_char d a = false.
Proof.
  induction s as [| c s IH]; intros a b H; cbn [Regex.splits] in H.
  - destruct H as [H | []]. inversion H; subst. split; reflexivity.
  - destruct H as [H | H]; [inversion H; subst; split; reflexivity |].
    unfold Str.is_not in H at 1. destruct (Ascii.eqb c d) eqn:E; cbn [negb] in H;
      [contradiction |].
    apply in_map_iff in H. destruct H as ([a' b'] & X & Hin). cbn [fst snd] in X.
    inversion X; subst. destruct (IH a' b Hin) as [-> M].
    split; [reflexivity |]. cbn [mem_char]. rewrite E, M. reflexivity.
Qed.

Lemma splits_complete d b : forall a,
  mem_char d a = false -> In (a, b) (Regex.splits (Str.is_not d) (a ++ b)).
Proof.
  induction a as [| c a IH]; cbn [append mem_char]; intros M.
  - destruct b; left; reflexivity.
  - apply orb_false_iff in M. destruct M as [E M].
    cbn [Regex.splits]. right. unfold Str.is_not at 1. rewrite E. cbn [negb].
    apply in_map_iff. exists (a, b). split; [reflexivity | exact (IH M)].
Qed.

Lemma strip_prefix_take icase p : forall s rest,
  Str.strip_prefix icase p s = Some rest ->
  s = Str.take (String.length p) s ++ rest.
Proof.
  induction p as [| k p IH]; intros s rest H; cbn [Str.strip_prefix] in H.
  - inversion H; subst. destruct rest; reflexivity.
  - destruct s as [| c s]; [discriminate |].
    destruct (Str.char_eq icase k c); [| discriminate].
    cbn [String.length Str.take append]. f_equal. exact (IH s rest H).
Qed.

Lemma strip_prefix_retake icase p z : forall s rest,
  Str.strip_prefix icase p s = Some rest ->
  Str.strip_prefix icase p (Str.take (String.length p) s ++ z) = Some z.
Proof.
  induction p as [| k p IH]; intros s rest H; cbn [Str.strip_prefix] in H.
  - destruct s; reflexivity.
  - destruct s as [| c s]; [discriminate |].
    destruct (Str.char_eq icase k c) eqn:E; [| discriminate].
    cbn [String.length Str.take append Str.strip_prefix]. rewrite E. exact (IH s rest H).
Qed.

Lemma strip_prefix_more icase p y : forall s rest,
  Str.strip_prefix icase p s = Some rest ->
  Str.strip_prefix icase p (s ++ y) = Some (rest ++ y).
Proof.
  induction p as [| k p IH]; intros s rest H; cbn [Str.strip_prefix] in H.
  - inversion H; subst. reflexivity.
  - destruct s as [| c s]; [discriminate |].
    destruct (Str.char_eq icase k c) eqn:E; [| discriminate].
    cbn [append Str.strip_prefix]. rewrite E. exact (IH s rest H).
Qed.

Lemma char_eq_dq_r k : Str.char_eq true k InWords.dq = Ascii.eqb k InWords.dq.
Proof. destruct k as [[] [] [] [] [] [] [] []]; reflexivity. Qed.

(** Text that stands for a text without double quote has none either. *)
Lemma strip_prefix_free p : forall s rest,
  mem_char InWords.dq p = false ->
  Str.strip_prefix true p s = Some rest ->
  mem_char InWords.dq (Str.take (String.length p) s) = false.
Proof.
  induction p as [| k p IH]; intros s rest M H; cbn [Str.strip_prefix] in H.
  - destruct s; reflexivity.
  - destruct s as [| c s]; [discriminate |].
    destruct (Str.char_eq true k c) eqn:E; [| discriminate].
    cbn [mem_char] in M. apply orb_false_iff in M. destruct M as [K M].
    cbn [String.length Str.take mem_char]. rewrite (IH s rest M H), orb_false_r.
    destruct (Ascii.eqb c InWords.dq) eqn:C; [| reflexivity].
    apply Ascii.eqb_eq in C. subst c. rewrite char_eq_dq_r in E. congruence.
Qed.

Lemma cut_at_text_sound p : forall s a o rest,
  InWords.cut_at_text p s = Some (a, o, rest) ->
  s = a ++ o ++ rest /\ Str.strip_prefix true p (o ++ rest) = Some rest.
Proof.
  induction s as [| c s IH]; intros a o rest H; cbn [InWords.cut_at_text] in H.
  - destruct (Str.strip_prefix true p EmptyString) as [r |] eqn:E; [| discriminate].
    inversion H; subst. cbn [append].
    split; [exact (strip_prefix_take _ _ _ _ E) | exact (strip_prefix_retake _ _ _ _ _ E)].
  - destruct (Str.strip_prefix true p (String c s)) as [r |] eqn:E.
    + inversion H; subst. cbn [append].
      split; [exact (strip_prefix_take _ _ _ _ E) | exact (strip_prefix_retake _ _ _ _ _ E)].
    + destruct (InWords.cut_at_text p s) as [[[a' o'] r'] |]; [| discriminate].
      inversion H; subst. destruct (IH a' o rest eq_refl) as [-> S].
      split; [reflexivity | exact S].
Qed.

Lemma occurs_app p y rest : forall x,
  Str.strip_prefix true p y = Some rest -> InWords.occurs p (x ++ y) = true.
Proof.
  unfold InWords.occurs. induction x as [| c x IH]; intros H; cbn [append].
  - destruct y; cbn [InWords.cut_at_text]; rewrite H; reflexivity.
  - cbn [InWords.cut_at_text].
    destruct (Str.strip_prefix true p (String c (x ++ y))); [reflexivity |].
    specialize (IH H). destruct (InWords.cut_at_text p (x ++ y)) as [[[a o] b] |];
      [reflexivity | discriminate].
Qed.

(** The class value, two greedy runs without double quote around [kw]
    and a double quote behind them. Whichever place of [kw] in the value the
    matcher settles on, the value ends at the first double quote. *)
Lemma run_class_value kw r s :
  mem_char InWords.dq kw = false ->
  run true (Regex.Star true (Str.is_not InWords.dq) :: Regex.Lit kw
            :: Regex.Star true (Str.is_not InWords.dq)
            :: Regex.Lit (String InWords.dq EmptyString) :: r) s
  = match InWords.cut_at InWords.dq s with
    | None => None
    | Some (value, s3) =>
        if InWords.occurs kw value
        then option_map (append value) (option_map (String InWords.dq) (run true r s3))
        else None
    end.
Proof.
  intros K. rewrite run_cons. cbn [Regex.candidates].
  set (F := fun p : string * string =>
              option_map (append (fst p))
                (run true (Regex.Lit kw :: Regex.Star true (Str.is_not InWords.dq)
                           :: Regex.Lit (String InWords.dq EmptyString) :: r) (snd p))).
  assert (HF : forall v1 b,
             F (v1, b)
             = match Str.strip_prefix true kw b with
               | Some b' =>
                   match InWords.cut_at InWords.dq b' with
                   | Some (v2, s3) =>
                       option_map (append (v1 ++ Str.take (String.length kw) b ++ v2))
                                  (option_map (String InWords.dq) (run true r s3))
                   | None => None
                   end
               | None => None
               end).
  { intros v1 b. unfold F. cbn [fst snd]. rewrite run_lit.
    destruct (Str.strip_prefix true kw b) as [b' |]; [| reflexivity].
    rewrite (run_until InWords.dq r b' char_eq_dq).
    destruct (InWords.cut_at InWords.dq b') as [[v2 s3] |]; [| reflexivity].
    destruct (run true r s3) as [m |]; [| reflexivity].
    cbn [option_map]. rewrite !append_assoc_s. reflexivity. }
  destruct (InWords.cut_at InWords.dq s) as [[value s3] |] eqn:C.
  - destruct (cut_at_sound _ _ _ _ C) as [Es Mv].
    set (T := option_map (append value) (option_map (String InWords.dq) (run true r s3))).
    assert (HT : forall v1 b b' v2 s3',
               In (v1, b) (List.rev (Regex.splits (Str.is_not InWords.dq) s)) ->
               Str.strip_prefix true kw b = Some b' ->
               InWords.cut_at InWords.dq b' = Some (v2, s3') ->
               v1 ++ Str.take (String.length kw) b ++ v2 = value /\ s3' = s3).
    { intros v1 b b' v2 s3' Hin S C'.
      apply in_rev in Hin. destruct (splits_sound _ _ _ _ Hin) as [E1 M1].
      pose proof (strip_prefix_take _ _ _ _ S) as E2.
      pose proof (strip_prefix_free _ _ _ K S) as M2.
      destruct (cut_at_sound _ _ _ _ C') as [E3 M3].
      assert (X : InWords.cut_at InWords.dq s
                  = Some (v1 ++ Str.take (String.length kw) b ++ v2, s3')).
      { replace s with ((v1 ++ Str.take (String.length kw) b ++ v2)
                        ++ String InWords.dq s3').
        - apply cut_at_app. rewrite !mem_char_app, M1, M2, M3. reflexivity.
        - rewrite E1. transitivity (v1 ++ (Str.take (String.length kw) b ++ b'));
            [| f_equal; symmetry; exact E2].
          rewrite E3, !append_assoc_s. reflexivity. }
      rewrite C in X. inversion X; subst. split; reflexivity. }
    destruct (InWords.occurs kw value) eqn:O.
    + destruct T as [t |] eqn:ET.
      * apply first_some_same.
        -- intros [v1 b] Hin. rewrite HF.
           destruct (Str.strip_prefix true kw b) as [b' |] eqn:S; [| left; reflexivity].
           destruct (InWords.cut_at InWords.dq b') as [[v2 s3'] |] eqn:C'; [| left; reflexivity].
           destruct (HT _ _ _ _ _ Hin S C') as [-> ->]. right. exact ET.
        -- unfold InWords.occurs in O.
           destruct (InWords.cut_at_text kw value) as [[[v1 o] v2] |] eqn:Ct; [| discriminate].
           destruct (cut_at_text_sound _ _ _ _ _ Ct) as [Ev So].
           assert (Mv' : mem_char InWords.dq v1 = false /\ mem_char InWords.dq v2 = false).
           { rewrite Ev, !mem_char_app in Mv. apply orb_false_iff in Mv.
             destruct Mv as [A B]. apply orb_false_iff in B. tauto. }
           destruct Mv' as [M1 M2].
           exists (v1, (o ++ v2) ++ String InWords.dq s3).
           assert (Hin : In (v1, (o ++ v2) ++ String InWords.dq s3)
                            (List.rev (Regex.splits (Str.is_not InWords.dq) s))).
           { apply in_rev. rewrite List.rev_involutive.
             replace s with (v1 ++ ((o ++ v2) ++ String InWords.dq s3)).
             - apply splits_complete. exact M1.
             - rewrite Es, Ev, !append_assoc_s. reflexivity. }
           split; [exact Hin |]. rewrite HF.
           pose proof (strip_prefix_more true kw (String InWords.dq s3) _ _ So) as S.
           rewrite S. rewrite (cut_at_app InWords.dq s3 v2 M2).
           destruct (HT _ _ _ _ _ Hin S (cut_at_app InWords.dq s3 v2 M2)) as [-> _].
           exact ET.
      * apply first_some_none. intros [v1 b] Hin. rewrite HF.
        destruct (Str.strip_prefix true kw b) as [b' |] eqn:S; [| reflexivity].
        destruct (InWords.cut_at InWords.dq b') as [[v2 s3'] |] eqn:C'; [| reflexivity].
        destruct (HT _ _ _ _ _ Hin S C') as [-> ->]. exact ET.
    + apply first_some_none. intros [v1 b] Hin. rewrite HF.
      destruct (Str.strip_prefix true kw b) as [b' |] eqn:S; [| reflexivity].
      destruct (InWords.cut_at InWords.dq b') as [[v2 s3'] |] eqn:C'; [| reflexivity].
      exfalso. destruct (HT _ _ _ _ _ Hin S C') as [Ev _].
      rewrite <- Ev in O.
      rewrite (occurs_app kw (Str.take (String.length kw) b ++ v2) v2 v1) in O;
        [discriminate |].
      exact (strip_prefix_retake _ _ _ _ _ S).
  - apply first_some_none. intros [v1 b] Hin. rewrite HF.
    destruct (Str.strip_prefix true kw b) as [b' |] eqn:S; [| reflexivity].
    destruct (InWords.cut_at InWords.dq b') as [[v2 s3'] |] eqn:C'; [| reflexivity].
    exfalso. apply in_rev in Hin. destruct (splits_sound _ _ _ _ Hin) as [E1 _].
    pose proof (strip_prefix_take _ _ _ _ S) as E2.
    destruct (cut_at_sound _ _ _ _ C') as [E3 _].
    apply cut_at_none in C. rewrite E1, E2, E3, !mem_char_app in C.
    cbn [mem_char] in C. rewrite Ascii.eqb_refl in C. cbn in C.
    rewrite !orb_true_r in C. discriminate.
Qed.

Lemma run_div_class kw s :
  mem_char InWords.dq kw = false ->
  run true (Extract.div_class_re kw) s = InWords.div_class_at kw s.
Proof.
  intros K. unfold Extract.div_class_re, InWords.div_class_at. rewrite run_lit.
  destruct (Str.strip_prefix true "<div" s) as [s1 |]; [| reflexivity]. f_equal.
  rewrite run_cons. cbn [Regex.candidates].
  change Extract.not_gt with (Str.is_not InWords.gt).
  rewrite greedy_last. apply last_in_tag_ext. intros x.
  unfold InWords.class_here. rewrite run_lit.
  change Extract.dquote with (String InWords.dq EmptyString).
  destruct (Str.strip_prefix true ("class=" ++ String InWords.dq EmptyString) x)
    as [s2 |]; [| reflexivity].
  f_equal. change Extract.not_dquote with (Str.is_not InWords.dq).
  rewrite (run_class_value kw _ s2 K). unfold InWords.class_value_on.
  destruct (InWords.cut_at InWords.dq s2) as [[value s3] |]; [| reflexivity].
  destruct (InWords.occurs kw value); [| reflexivity].
  change ">" with (String InWords.gt EmptyString).
  rewrite (run_until InWords.gt _ s3 char_eq_gt).
  destruct (InWords.cut_at InWords.gt s3) as [[more s4] |]; [| reflexivity].
  rewrite run_body_close.
  destruct (InWords.cut_at_text _ s4) as [[[body o] rest] |]; reflexivity.
Qed.

(** *** The loop over the patterns *)

Lemma first_region_step p at_ ps clean :
  starts_with_text p ->
  (forall s, run true p s = at_ s) ->
  Extract.first_region (p :: ps) clean
  = match InWords.leftmost at_ clean with
    | Some m => m
    | None => Extract.first_region ps clean
    end
  /\ (forall m, InWords.leftmost at_ clean = Some m -> Regex.is_empty m = false).
Proof.
  intros T H.
  assert (E : Regex.match_g0 true p clean = InWords.leftmost at_ clean).
  { rewrite match_g0_leftmost. apply leftmost_ext. exact H. }
  split.
  - cbn [Extract.first_region]. rewrite <- E.
    destruct (Regex.match_g0 true p clean) as [m |] eqn:M; [| reflexivity].
    rewrite (match_g0_nonempty p clean m T M). reflexivity.
  - intros m M. rewrite <- E in M. exact (match_g0_nonempty p clean m T M).
Qed.

Lemma region_in_words clean :
  Extract.region Extract.contentPatterns clean = InWords.region clean.
Proof.
  assert (D : forall kw, starts_with_text (Extract.div_class_re kw)).
  { intros kw. eexists. eexists. eexists. reflexivity. }
  assert (L : forall name, starts_with_text (Extract.element_re name)).
  { intros name. eexists. eexists. eexists. reflexivity. }
  unfold Extract.region, InWords.region, Extract.contentPatterns, InWords.places.
  cbn [InWords.first_found].
  destruct (first_region_step _ (InWords.element_at "article")
              [Extract.element_re "main"; Extract.div_class_re "content";
               Extract.div_class_re "post"; Extract.element_re "body"] clean
              (L "article") (run_element "article")) as [-> N1].
  destruct (InWords.leftmost (InWords.element_at "article") clean) as [m |];
    [rewrite (N1 m eq_refl); reflexivity |].
  destruct (first_region_step _ (InWords.element_at "main")
              [Extract.div_class_re "content"; Extract.div_class_re "post";
               Extract.element_re "body"] clean
              (L "main") (run_element "main")) as [-> N2].
  destruct (InWords.leftmost (InWords.element_at "main") clean) as [m |];
    [rewrite (N2 m eq_refl); reflexivity |].
  destruct (first_region_step _ (InWords.div_class_at "content")
              [Extract.div_class_re "post"; Extract.element_re "body"] clean
              (D "content") (fun s => run_div_class "content" s eq_refl)) as [-> N3].
  destruct (InWords.leftmost (InWords.div_class_at "content") clean) as [m |];
    [rewrite (N3 m eq_refl); reflexivity |].
  destruct (first_region_step _ (InWords.div_class_at "post")
              [Extract.element_re "body"] clean
              (D "post") (fun s => run_div_class "post" s eq_refl)) as [-> N4].
  destruct (InWords.leftmost (InWords.div_class_at "post") clean) as [m |];
    [rewrite (N4 m eq_refl); reflexivity |].
  destruct (first_region_step _ (InWords.element_at "body") [] clean
              (L "body") (run_element "body")) as [-> N5].
  destruct (InWords.leftmost (InWords.element_at "body") clean) as [m |];
    [rewrite (N5 m eq_refl); reflexivity |].
  reflexivity.
Qed.

Lemma strip_scripts_in_words html :
  Extract.strip_scripts html = InWords.stripped html.
Proof.
  unfold Extract.strip_scripts, InWords.stripped, Extract.script_re, Extract.style_re.
  rewrite !replace_all_element. reflexivity.
Qed.

(** C6, amended. For every raw markup string: script elements and then
    style elements are removed, each from its opening text through the
    first closing tag behind the first [>]; on what is left the region is
    the leftmost text of the first of five places that has one, and the
    whole of what is left when none has. The places are, in this order: an
    element that starts with [<article], one that starts with [<main], a
    tag that starts with [<div] and has, before its first [>], the text
    [class=] and a double-quoted value in which "content" stands, the same
    with "post", and an element that starts with [<body]. Each runs through
    the first fitting closing tag ([</div>] for the third and fourth);
    letter case is ignored, and nothing has to follow the tag name or to
    stand in front of [class=]. The extracted content is the cleaned text of
    that region. *)
Theorem region_is_first_matching_pattern html :
  Extract.strip_scripts html = InWords.stripped html
  /\ (forall clean, Extract.region Extract.contentPatterns clean = InWords.region clean)
  /\ Extract.ex_content (Extract.extractContent html)
     = Extract.clean_text (InWords.region (InWords.stripped html)).
Proof.
  split; [apply strip_scripts_in_words |]. split; [apply region_in_words |].
  unfold Extract.extractContent. cbv zeta. cbn [Extract.ex_content].
  rewrite strip_scripts_in_words, region_in_words. reflexivity.
Qed.

Lemma region_is_first_matching_pattern_witness :
  Extract.region Extract.contentPatterns (Extract.strip_scripts InWords.teaser_page)
  = "<div data-class=" ++ Extract.dquote ++ "content" ++ Extract.dquote ++ ">Teaser</div>"
  /\ Extract.ex_content (Extract.extractContent InWords.teaser_page) = "Teaser"
  /\ Extract.ex_content (Extract.extractContent InWords.divider_page) = "X Y".
Proof.
  split; [| split].
  - rewrite (proj1 (region_is_first_matching_pattern InWords.teaser_page)).
    rewrite (proj1 (proj2 (region_is_first_matching_pattern InWords.teaser_page))).
    vm_compute. reflexivity.
  - rewrite (proj2 (proj2 (region_is_first_matching_pattern InWords.teaser_page))).
    vm_compute. reflexivity.
  - rewrite (proj2 (proj2 (region_is_first_matching_pattern InWords.divider_page))).
    vm_compute. reflexivity.
Defined.
